(** * twoslash: directive parsing and position reconciliation

    A shallow embedding of the utility functions of the twoslash package
    (the module that [core.ts] imports as [./utils]: [parsePrimitive],
    [mergeRanges], [createPositionConverter], [splitFiles],
    [removeCodeRanges], [resolveNodePositions], [parseFlag] and the
    scanners of the notations) and of the [twoslasher] pipeline of
    [packages/twoslash/src/core.ts], with the properties the specification
    states about them.

    Conventions of the embedding:
    - a JavaScript string is the list of its UTF-16 code units;
    - offsets, lengths and line numbers are integers ([Z]): every number the
      code computes with here is an integer far below 2^53;
    - a function that can throw returns a [result];
    - [Array.prototype.sort] is the stable sort by the comparison function;
    - what the sources do not hold is a parameter: the regular expressions
      of [./regexp], the default options of [./defaults],
      [validateCodeForErrors] of [./validation], the type-checking backend,
      and the case mapping and number conversion of the language. *)

From Stdlib Require Import List ZArith Lia Bool Arith.
From Stdlib Require Import Sorting.Sorted Sorting.Permutation.
From Stdlib Require Import Strings.String Strings.Ascii DecimalString.
From Stdlib Require Import QArith.
Import ListNotations.
Open Scope Z_scope.

Set Implicit Arguments.
Set Warnings "-register-all".

(* ================================================================== *)
(** * JavaScript values used by the code *)

Module JS.

(** A string is a sequence of UTF-16 code units. *)
Definition jsstring := list N.

(** [str "abc"] is the JavaScript string literal ["abc"] (for literals of
    the source, all of them ASCII). *)
Fixpoint str (s : string) : jsstring :=
  match s with
  | EmptyString => []
  | String a r => N_of_ascii a :: str r
  end.

Definition jsstring_eqb (a b : jsstring) : bool :=
  if list_eq_dec N.eq_dec a b then true else false.

Definition len (s : jsstring) : Z := Z.of_nat (List.length s).

(** Relative index of [String.prototype.slice]: a negative index counts
    from the end, and the result is clamped to [0, length]. *)
Definition relIndex (size i : Z) : Z :=
  if i <? 0 then Z.max (size + i) 0 else Z.min i size.

(** [s.slice(from, to)]. *)
Definition slice (s : jsstring) (from to : Z) : jsstring :=
  let a := relIndex (len s) from in
  let b := relIndex (len s) to in
  firstn (Z.to_nat (b - a)) (skipn (Z.to_nat a) s).

(** [s.slice(from)]. *)
Definition sliceFrom (s : jsstring) (from : Z) : jsstring :=
  skipn (Z.to_nat (relIndex (len s) from)) s.

(** LineTerminator of the language grammar: what [.] does not match and
    what [^] and [$] look at under the [m] flag. *)
Definition isLineTerminator (c : N) : bool :=
  (N.eqb c 10 || N.eqb c 13 || N.eqb c 8232 || N.eqb c 8233)%bool.

(** WhiteSpace and LineTerminator code units: what [\s] matches and what
    [trim], [trimEnd] strip. *)
Definition isSpace (c : N) : bool :=
  (N.eqb c 9 || N.eqb c 10 || N.eqb c 11 || N.eqb c 12 || N.eqb c 13
   || N.eqb c 32 || N.eqb c 160 || N.eqb c 5760
   || (N.leb 8192 c && N.leb c 8202)
   || N.eqb c 8232 || N.eqb c 8233 || N.eqb c 8239 || N.eqb c 8287
   || N.eqb c 12288 || N.eqb c 65279)%bool.

(** [Array.prototype.sort(cmp)]: stable, so for a comparison function that
    orders by a key the result is the one straight insertion gives. *)
Section Sort.
Variable A : Type.
Variable cmp : A -> A -> Z.

Fixpoint insertSorted (x : A) (l : list A) : list A :=
  match l with
  | [] => [x]
  | y :: t => if 0 <? cmp x y then y :: insertSorted x t else x :: y :: t
  end.

Definition sort (l : list A) : list A := fold_right insertSorted [] l.
End Sort.

End JS.
Import JS.

(* ================================================================== *)
(** * Ranges *)

(** [type Range = [start: number, end: number]] *)
Definition Range : Type := Z * Z.

Definition isInRange (index : Z) (range : Range) : bool :=
  (fst range <=? index) && (index <=? snd range).

(** [ranges.find(range => isInRange(index, range))]: the first range that
    contains the index, [None] for [undefined]. *)
Definition isInRanges (index : Z) (ranges : list Range) : option Range :=
  find (fun range => isInRange index range) ranges.

Definition areRangesIntersecting (a b : Range) : bool :=
  isInRange (fst a) b || isInRange (snd a) b
  || isInRange (fst b) a || isInRange (snd b) a.

(** The loop of [mergeRanges] over the sorted ranges. [last] is
    [merged[merged.length - 1]], the only element of [merged] the loop still
    changes; the elements before it are final. The source updates [last] in
    place, which changes the caller's range objects as well; the returned
    ranges have the values computed here. *)
Fixpoint mergeFrom (last : Range) (rest : list Range) : list Range :=
  match rest with
  | [] => [last]
  | range :: rest' =>
      if snd last >=? fst range
      then mergeFrom (fst last, Z.max (snd last) (snd range)) rest'
      else last :: mergeFrom range rest'
  end.

(** [(a, b) => a[0] - b[0]] *)
Definition byStart (a b : Range) : Z := fst a - fst b.

(** [(a, b) => b[0] - a[0]] *)
Definition byStartDescending (a b : Range) : Z := fst b - fst a.

Definition mergeRanges (ranges : list Range) : list Range :=
  match JS.sort byStart ranges with
  | [] => []
  | first :: rest => mergeFrom first rest
  end.

(** Offsets a list of half-open ranges [start, end) covers. *)
Definition covers (ranges : list Range) (x : Z) : Prop :=
  exists r, In r ranges /\ fst r <= x < snd r.

(* ================================================================== *)
(** * Errors *)

(** [new TwoslashError(title, description, recommendation)], and the
    [TypeError] the language raises on a property access on [undefined] or a
    call of something that is not a function. *)
Inductive Error : Type :=
| TwoslashError (title description recommendation : jsstring)
| TypeError.

Inductive result (A : Type) : Type :=
| Ok (a : A)
| Throw (e : Error).
Arguments Ok {A} a.
Arguments Throw {A} e.

Definition isTwoslashError (title : jsstring) (e : Error) : Prop :=
  match e with
  | TwoslashError t _ _ => t = title
  | TypeError => False
  end.

(** Decimal rendering of an integer in a template string. *)
Definition numToString (z : Z) : jsstring :=
  str (NilZero.string_of_int (Z.to_int z)).

(* ================================================================== *)
(** * Regular expressions with the [g] flag *)

(** One element of [code.matchAll(re)]: [index], the text [match[0]] and the
    capture groups [match[1]], ... ([None] for a group that did not take
    part). *)
Module Match.
Record t : Type := mk {
  index : Z;
  matched : jsstring;
  groups : list (option jsstring)
}.
End Match.
Abbreviation RegExpMatch := Match.t.

(** [match[n]] for [n >= 1]. *)
Definition group (m : RegExpMatch) (n : nat) : option jsstring :=
  match nth_error (Match.groups m) (pred n) with
  | Some g => g
  | None => None
  end.

(** A pattern is the attempt to match at one position: it sees the code unit
    before the position ([None] at the start of the input) and the input
    from the position on, and gives the matched text and the groups. *)
Definition Pattern : Type :=
  option N -> jsstring -> option (jsstring * list (option jsstring)).

(** [Array.from(code.matchAll(re))]: the leftmost match at or after
    [lastIndex], then [lastIndex] moves to the end of the match, and one
    code unit further after an empty match. [skip] counts the code units
    still covered by the previous match. *)
Fixpoint matchAllFrom (pat : Pattern) (prev : option N) (s : jsstring)
    (idx : Z) (skip : nat) {struct s} : list RegExpMatch :=
  match skip with
  | S k =>
      match s with
      | [] => []
      | c :: t => matchAllFrom pat (Some c) t (idx + 1) k
      end
  | O =>
      match pat prev s with
      | Some (m, gs) =>
          Match.mk idx m gs ::
          match s with
          | [] => []
          | c :: t => matchAllFrom pat (Some c) t (idx + 1) (pred (List.length m))
          end
      | None =>
          match s with
          | [] => []
          | c :: t => matchAllFrom pat (Some c) t (idx + 1) O
          end
      end
  end.

Definition matchAll (pat : Pattern) (code : jsstring) : list RegExpMatch :=
  matchAllFrom pat None code 0 O.

(** A regular expression of a module that is not part of the sources is
    taken by what [matchAll] returns for it. *)
Definition RegExp : Type := jsstring -> list RegExpMatch.

(* ================================================================== *)
(** * createPositionConverter *)

Record Position : Type := mkPosition { line : Z; character : Z }.

(** [/.*?($|\n)/] at one position: the shortest run of code units other
    than line terminators that is followed by the end of the input or by a
    line feed, which the match includes. Gives [match[0]] and group 1. *)
Fixpoint lineAt (s : jsstring) : option (jsstring * jsstring) :=
  match s with
  | [] => Some ([], [])
  | c :: t =>
      if N.eqb c 10 then Some ([c], [c])
      else if isLineTerminator c then None
      else match lineAt t with
           | Some (m, g) => Some (c :: m, g)
           | None => None
           end
  end.

Definition reLine : Pattern :=
  fun _ s =>
    match lineAt s with
    | Some (m, g) => Some (m, [Some g])
    | None => None
    end.

(** [Array.from(code.matchAll(/.*?($|\n)/g)).map(match => match[0])] *)
Definition lines (code : jsstring) : list jsstring :=
  map Match.matched (matchAll reLine code).

Fixpoint indexToPosLoop (lines : list jsstring) (character line : Z) : Position :=
  match lines with
  | [] => mkPosition line character
  | lineText :: rest =>
      if character <? len lineText then mkPosition line character
      else indexToPosLoop rest (character - len lineText) (line + 1)
  end.

Definition indexToPos (lines : list jsstring) (index : Z) : Position :=
  indexToPosLoop lines index 0.

(** The loop [for (let i = 0; i < line - 1; i++) index += lines[i].length]
    with [n] iterations left; [lines] is what is left of the array from
    index [i] on. Past the end [lines[i]] is [undefined] and [.length]
    throws. *)
Fixpoint posToIndexLoop (lines : list jsstring) (n : nat) (index : Z)
    {struct n} : result Z :=
  match n with
  | O => Ok index
  | S n' =>
      match lines with
      | [] => Throw TypeError
      | lineText :: rest => posToIndexLoop rest n' (index + len lineText)
      end
  end.

Definition posToIndex (lines : list jsstring) (line character : Z) : result Z :=
  match posToIndexLoop lines (Z.to_nat (line - 1)) 0 with
  | Ok index => Ok (index + character)
  | Throw e => Throw e
  end.

Definition getIndexOfLineAbove (lines : list jsstring) (index : Z) : result Z :=
  let pos := indexToPos lines index in
  posToIndex lines (line pos) (character pos).

(* ================================================================== *)
(** * splitFiles *)

Fixpoint stripPrefix (p s : jsstring) : option jsstring :=
  match p with
  | [] => Some s
  | a :: p' =>
      match s with
      | [] => None
      | b :: s' => if N.eqb a b then stripPrefix p' s' else None
      end
  end.

(** The longest prefix of code units that [.] matches. *)
Fixpoint dotRun (s : jsstring) : jsstring :=
  match s with
  | [] => []
  | c :: t => if isLineTerminator c then [] else c :: dotRun t
  end.

(** [@filename: (.+)$] under the [m] flag: the greedy [.+] runs to the next
    line terminator or to the end of the input, where [$] holds. *)
Definition filenameTail (s : jsstring) : option (jsstring * jsstring) :=
  match stripPrefix (str "@filename: ") s with
  | Some s' =>
      match dotRun s' with
      | [] => None
      | name => Some (str "@filename: " ++ name, name)
      end
  | None => None
  end.

(** [const reFilenamesMakers = /^\/\/\s?@filename: (.+)$/mg] *)
Definition reFilenamesMakers : Pattern :=
  fun prev s =>
    let atLineStart :=
      match prev with
      | None => true
      | Some c => isLineTerminator c
      end in
    if atLineStart then
      match stripPrefix (str "//") s with
      | Some s1 =>
          let withoutSpace :=
            match filenameTail s1 with
            | Some (m, name) => Some (str "//" ++ m, [Some name])
            | None => None
            end in
          match s1 with
          | c :: s2 =>
              if isSpace c then
                match filenameTail s2 with
                | Some (m, name) => Some (str "//" ++ c :: m, [Some name])
                | None => withoutSpace
                end
              else withoutSpace
          | [] => withoutSpace
          end
      | None => None
      end
    else None.

Fixpoint dropWhile (A : Type) (f : A -> bool) (l : list A) : list A :=
  match l with
  | [] => []
  | x :: t => if f x then dropWhile f t else l
  end.

(** [s.trimEnd()] *)
Definition trimEnd (s : jsstring) : jsstring :=
  rev (dropWhile isSpace (rev s)).

(** [s.trim()] *)
Definition trim (s : jsstring) : jsstring :=
  dropWhile isSpace (trimEnd s).

(** [s.split(sep)] for a separator of one code unit: [current] collects the
    segment being read. *)
Fixpoint splitOn (sep : N) (s : jsstring) (current : jsstring) : list jsstring :=
  match s with
  | [] => [rev current]
  | c :: t =>
      if N.eqb c sep then rev current :: splitOn sep t []
      else splitOn sep t (c :: current)
  end.

Definition split (s : jsstring) (sep : N) : list jsstring := splitOn sep s [].

(** [fileName.split('.').pop()!] *)
Definition getExtension (fileName : jsstring) : jsstring :=
  last (split fileName 46) [].

Record VirtualFile : Type := mkFile {
  offset : Z;
  filename : jsstring;
  filepath : jsstring;
  content : jsstring;
  extension : jsstring
}.

(** [match[1].trimEnd()]; group 1 takes part in every match of
    [reFilenamesMakers]. *)
Definition matchedFilename (m : RegExpMatch) : jsstring :=
  match group m 1 with
  | Some name => trimEnd name
  | None => []
  end.

Definition includes (x : jsstring) (l : list jsstring) : bool :=
  existsb (jsstring_eqb x) l.

Definition virtualFile (root currentFileName : jsstring) (index : Z)
    (content : jsstring) : VirtualFile :=
  mkFile index currentFileName (root ++ currentFileName) content
         (getExtension currentFileName).

(** The loop over the matches and the tail after it; the files are returned
    in the order the source pushes them. *)
Fixpoint splitLoop (code root : jsstring) (ms : list RegExpMatch)
    (currentFileName : jsstring) (index : Z) : list VirtualFile :=
  match ms with
  | [] =>
      if index <? len code
      then [virtualFile root currentFileName index (sliceFrom code index)]
      else []
  | m :: rest =>
      let offset := Match.index m in
      let content := slice code index offset in
      let files := splitLoop code root rest (matchedFilename m) offset in
      match content with
      | [] => files
      | _ => virtualFile root currentFileName index content :: files
      end
  end.

Definition splitFiles (code defaultFileName root : jsstring) : list VirtualFile :=
  let matches := matchAll reFilenamesMakers code in
  let allFilenames := map matchedFilename matches in
  let currentFileName :=
    if includes defaultFileName allFilenames
    then str "__index__.ts"
    else defaultFileName in
  splitLoop code root matches currentFileName 0.

(* ================================================================== *)
(** * Values of option objects *)

(** A number: a finite value, [NaN] or an infinity. *)
Inductive jsnumber : Type :=
| NNum (q : Q)
| NNaN
| NInfinity (negative : bool).

Inductive jsvalue : Type :=
| VUndefined
| VBool (b : bool)
| VNumber (n : jsnumber)
| VString (s : jsstring)
| VArray (items : list jsvalue).

Definition VInt (z : Z) : jsvalue := VNumber (NNum (inject_Z z)).

(** [typeof v] *)
Definition typeOf (v : jsvalue) : jsstring :=
  match v with
  | VUndefined => str "undefined"
  | VBool _ => str "boolean"
  | VNumber _ => str "number"
  | VString _ => str "string"
  | VArray _ => str "object"
  end.

(** ToBoolean: what [if (v)], [!v] and [v || w] look at. *)
Definition truthy (v : jsvalue) : bool :=
  match v with
  | VUndefined => false
  | VBool b => b
  | VNumber (NNum q) => negb (Qeq_bool q 0)
  | VNumber NNaN => false
  | VNumber (NInfinity _) => true
  | VString s => match s with [] => false | _ => true end
  | VArray _ => true
  end.

(** [v === z] for an integer [z], which is also how
    [Array.prototype.includes] compares a number. *)
Definition isNumber (z : Z) (v : jsvalue) : bool :=
  match v with
  | VNumber (NNum q) => Qeq_bool q (inject_Z z)
  | _ => false
  end.

(** What the language itself does with strings and numbers: case mapping,
    the conversion of a string to a number (unary [+], [Number]) and the
    rendering of a number in a template string. *)
Record Runtime : Type := mkRuntime {
  toLowerCase : jsstring -> jsstring;
  toLocaleLowerCase : jsstring -> jsstring;
  StringToNumber : jsstring -> jsnumber;
  NumberToString : jsnumber -> jsstring;
  (** [String(Object.prototype[name])] for a name whose property is a
      function: the text of a built-in function is the implementation's. *)
  FunctionToString : jsstring -> jsstring
}.

(** [String.prototype.localeCompare] on the names of the node kinds, words
    of lowercase ASCII letters, which collate in alphabetical order: the
    comparison of the code units, as -1, 0 or 1. *)
Fixpoint localeCompare (a b : jsstring) : Z :=
  match a, b with
  | [], [] => 0
  | [], _ :: _ => -1
  | _ :: _, [] => 1
  | x :: a', y :: b' =>
      match N.compare x y with
      | Lt => -1
      | Gt => 1
      | Eq => localeCompare a' b'
      end
  end.

(* ================================================================== *)
(** * Nodes *)

Inductive NodeType : Type :=
| type_tag | type_hover | type_query | type_highlight | type_completion
| type_error.

(** The string a node carries in its [type] property. *)
Definition typeName (t : NodeType) : jsstring :=
  match t with
  | type_tag => str "tag"
  | type_hover => str "hover"
  | type_query => str "query"
  | type_highlight => str "highlight"
  | type_completion => str "completion"
  | type_error => str "error"
  end.

(** The properties of a node besides [type], [start] and [length]. *)
Inductive Payload : Type :=
| TagInfo (name : jsstring) (text : jsvalue)
| HoverInfo (text : jsstring) (docs : option jsstring) (target : jsstring)
| CompletionInfo (completions : list jsstring) (completionsPrefix : jsstring)
| ErrorInfo (code : Z) (filename id text : jsstring) (level : Z).

Module Node.
(** [NodeWithoutPosition] *)
Record t : Type := mk {
  type : NodeType;
  start : Z;
  length : Z;
  payload : Payload
}.

Definition setStart (node : t) (start' : Z) : t :=
  mk (type node) start' (length node) (payload node).

Definition setType (node : t) (type' : NodeType) : t :=
  mk type' (start node) (length node) (payload node).
End Node.

(** [TwoslashNode]: a node after [Object.assign(node, position)]. *)
Record TwoslashNode : Type := mkResolved {
  node : Node.t;
  position : Position
}.

(* ================================================================== *)
(** * removeCodeRanges *)

(** The node objects live in a store and the array [nodes] holds references
    to them (indices into the store): [forEach] visits the array entry by
    entry and writes through the reference, so an object the array holds
    twice is visited twice. *)
Definition Store : Type := list Node.t.

Fixpoint writeAt (st : Store) (ref : nat) (node : Node.t) : Store :=
  match st, ref with
  | [], _ => []
  | _ :: rest, O => node :: rest
  | n :: rest, S ref' => n :: writeAt rest ref' node
  end.

(** The body of [nodes?.forEach((node) => ...)] for one entry. *)
Definition visitNode (remove : Range) (st : Store) (ref : nat) : Store :=
  let removalLength := snd remove - fst remove in
  match nth_error st ref with
  | None => st
  | Some node =>
      if Node.start node + Node.length node <=? fst remove then st
      else if Node.start node <? snd remove
      then writeAt st ref (Node.setStart node (-1))
      else writeAt st ref (Node.setStart node (Node.start node - removalLength))
  end.

(** One round of [for (const remove of ranges)]. [nodes] is [None] when the
    argument is left out. *)
Definition removeRange (nodes : option (list nat)) (acc : jsstring * Store)
    (remove : Range) : jsstring * Store :=
  let outputCode :=
    slice (fst acc) 0 (fst remove) ++ sliceFrom (fst acc) (snd remove) in
  (outputCode,
   match nodes with
   | Some refs => fold_left (visitNode remove) refs (snd acc)
   | None => snd acc
   end).

Record Removed : Type := mkRemoved {
  removedCode : jsstring;
  removedRanges : list Range;
  removedStore : Store
}.

Definition removeCodeRanges (code : jsstring) (removals : list Range)
    (nodes : option (list nat)) (st : Store) : Removed :=
  let ranges := JS.sort byStartDescending (mergeRanges removals) in
  let out := fold_left (removeRange nodes) ranges (code, st) in
  mkRemoved (fst out) ranges (snd out).

(** [removeCodeRanges] on an array of distinct node objects, as the
    pipeline calls it: the array is the store itself. *)
Definition removeCodeRangesOf (code : jsstring) (removals : list Range)
    (nodes : list Node.t) : Removed :=
  removeCodeRanges code removals (Some (seq 0 (List.length nodes))) nodes.

(** The rule of the specification for one record and one removed range
    [s, e): the new [start]. *)
Definition reconciled (s e start length : Z) : Z :=
  if start + length <=? s then start
  else if start <? e then -1
  else start - (e - s).

(** The rule applied for the removed ranges one after the other. *)
Definition reconciledAll (ranges : list Range) (start length : Z) : Z :=
  fold_left (fun start r => reconciled (fst r) (snd r) start length) ranges start.

(** The text without the range [s, e). *)
Definition spliced (text : jsstring) (r : Range) : jsstring :=
  slice text 0 (fst r) ++ sliceFrom text (snd r).

(* ================================================================== *)
(** * resolveNodePositions *)

(** [(a, b) => a.start - b.start || a.type.localeCompare(b.type)] *)
Definition compareNodes (a b : Node.t) : Z :=
  let d := Node.start a - Node.start b in
  if d =? 0
  then localeCompare (typeName (Node.type a)) (typeName (Node.type b))
  else d.

Definition resolveNodePositions (nodes : list Node.t)
    (indexToPos : Z -> Position) : list TwoslashNode :=
  let resolved :=
    JS.sort compareNodes (filter (fun node => Node.start node >=? 0) nodes) in
  map (fun node => mkResolved node (indexToPos (Node.start node))) resolved.

(** The overload that takes the code. *)
Definition resolveNodePositionsIn (nodes : list Node.t) (code : jsstring)
    : list TwoslashNode :=
  resolveNodePositions nodes (indexToPos (lines code)).

(* ================================================================== *)
(** * Option values: parsePrimitive, getOptionValueFromMap *)

Fixpoint join (sep : jsstring) (l : list jsstring) : jsstring :=
  match l with
  | [] => []
  | [x] => x
  | x :: rest => x ++ sep ++ join sep rest
  end.

(** An object used as a dictionary, and a [Map]: the entries in insertion
    order, each key once. *)
Definition Obj : Type := list (jsstring * jsvalue).

Fixpoint objGet (o : Obj) (key : jsstring) : jsvalue :=
  match o with
  | [] => VUndefined
  | (k, v) :: rest => if jsstring_eqb k key then v else objGet rest key
  end.

(** [o[key] = v] *)
Fixpoint objSet (o : Obj) (key : jsstring) (v : jsvalue) : Obj :=
  match o with
  | [] => [(key, v)]
  | (k, w) :: rest =>
      if jsstring_eqb k key then (k, v) :: rest else (k, w) :: objSet rest key v
  end.

(** [{ ...a, ...b }] *)
Definition objSpread (a b : Obj) : Obj :=
  fold_left (fun o kv => objSet o (fst kv) (snd kv)) b a.

Definition objKeys (o : Obj) : list jsstring := map fst o.

Section WithRuntime.
Variable rt : Runtime.

(** The string a value becomes in a template string. *)
Fixpoint toStringV (v : jsvalue) : jsstring :=
  match v with
  | VUndefined => str "undefined"
  | VBool true => str "true"
  | VBool false => str "false"
  | VNumber n => NumberToString rt n
  | VString s => s
  | VArray items =>
      join (str ",")
        (map (fun item =>
                match item with
                | VUndefined => []
                | _ => toStringV item
                end) items)
  end.

(** [+value] *)
Definition toNumber (v : jsvalue) : jsnumber :=
  match v with
  | VUndefined => NNaN
  | VBool true => NNum 1
  | VBool false => NNum 0
  | VNumber n => n
  | VString s => StringToNumber rt s
  | VArray _ => StringToNumber rt (toStringV v)
  end.

Definition parsePrimitive (value : jsvalue) (type : jsstring) : result jsvalue :=
  if jsstring_eqb (typeOf value) type then Ok value
  else if jsstring_eqb type (str "number") then Ok (VNumber (toNumber value))
  else if jsstring_eqb type (str "string") then Ok value
  else if jsstring_eqb type (str "boolean") then
    match value with
    | VString s =>
        Ok (VBool (jsstring_eqb (toLowerCase rt s) (str "true")
                   || (len s =? 0)))
    | _ => Throw TypeError
    end
  else
    Throw (TwoslashError
      (str "Unknown primitive value in compiler flag")
      (str "The only recognized primitives are number, string and boolean. Got "
         ++ type ++ str " with " ++ toStringV value ++ str ".")
      (str "This is likely a typo.")).

(** [key] is the raw value of the directive: [key.toLowerCase()] needs a
    string. *)
Definition getOptionValueFromMap (name : jsstring) (key : jsvalue)
    (optMap : Obj) : result jsvalue :=
  match key with
  | VString k =>
      match objGet optMap (toLowerCase rt k) with
      | VUndefined =>
          let keys := objKeys optMap in
          Throw (TwoslashError
            (str "Invalid inline compiler value")
            (str "Got " ++ k ++ str " for " ++ name
               ++ str " but it is not a supported value by the TS compiler.")
            (str "Allowed values: " ++ join (str ",") keys))
      | result => Ok result
      end
  | _ => Throw TypeError
  end.

End WithRuntime.

(** The own properties of [map] in [typesToExtension]. *)
Definition extensionMap : list (jsstring * jsstring) :=
  [ (str "js", str "js"); (str "javascript", str "js");
    (str "ts", str "ts"); (str "typescript", str "ts");
    (str "tsx", str "tsx"); (str "jsx", str "jsx");
    (str "json", str "json"); (str "jsn", str "json");
    (str "map", str "json"); (str "mts", str "ts"); (str "cts", str "ts");
    (str "mjs", str "js"); (str "cjs", str "js") ].

(** The names every object has a property for, inherited from
    [Object.prototype]: functions, and the prototype itself under
    [__proto__]. *)
Definition objectPrototypeNames : list jsstring :=
  map str
    [ "constructor"; "__defineGetter__"; "__defineSetter__"; "hasOwnProperty";
      "__lookupGetter__"; "__lookupSetter__"; "isPrototypeOf";
      "propertyIsEnumerable"; "toString"; "valueOf"; "__proto__";
      "toLocaleString" ]%string.

(** What [map[types]] can be when it is truthy: a string of the map, or
    the value [map] inherits from [Object.prototype] under that name. *)
Inductive Extension : Type :=
| ext_string (s : jsstring)
| ext_inherited (name : jsstring).

(** [if (map[types]) return map[types]]: the strings of the map are not
    empty and the inherited values are functions or an object, all truthy;
    any other name gives [undefined]. *)
Definition typesToExtension (types : jsstring) : result Extension :=
  match find (fun kv => jsstring_eqb (fst kv) types) extensionMap with
  | Some kv => Ok (ext_string (snd kv))
  | None =>
      if includes types objectPrototypeNames then Ok (ext_inherited types)
      else
        Throw (TwoslashError
          (str "Unknown TypeScript extension given to Twoslash")
          (str "Received " ++ types ++ str " but Twoslash only accepts: "
             ++ join (str ",") (map fst extensionMap) ++ str " ")
          [])
  end.

(** The extension in a template literal, [`${extension}`]. *)
Definition extensionText (rt : Runtime) (extension : Extension) : jsstring :=
  match extension with
  | ext_string s => s
  | ext_inherited name =>
      if jsstring_eqb name (str "__proto__") then str "[object Object]"
      else FunctionToString rt name
  end.

(* ================================================================== *)
(** * Directive notations: parseFlag, findFlagNotations *)

Inductive FlagType : Type :=
| flag_tag | flag_compilerOptions | flag_handbookOptions | flag_unknown.

Definition FlagType_eqb (a b : FlagType) : bool :=
  match a, b with
  | flag_tag, flag_tag | flag_compilerOptions, flag_compilerOptions
  | flag_handbookOptions, flag_handbookOptions | flag_unknown, flag_unknown => true
  | _, _ => false
  end.

Module Flag.
(** [ParsedFlagNotation]; [end_] is the property [end]. *)
Record t : Type := mk {
  type : FlagType;
  name : jsstring;
  value : jsvalue;
  start : Z;
  end_ : Z
}.
End Flag.

(** The [type] of a compiler option declaration or of its [element]: the
    name of a kind, or the [Map] of an enumerated option. *)
Inductive DeclType : Type :=
| KindName (kind : jsstring)
| KindMap (optMap : Obj).

Module Decl.
(** [CompilerOptionDeclaration] *)
Record t : Type := mk {
  name : jsstring;
  type : DeclType;
  element : option DeclType
}.
End Decl.

Fixpoint mapM (A B : Type) (f : A -> result B) (l : list A) : result (list B) :=
  match l with
  | [] => Ok []
  | x :: rest =>
      match f x with
      | Throw e => Throw e
      | Ok y =>
          match mapM f rest with
          | Throw e => Throw e
          | Ok ys => Ok (y :: ys)
          end
      end
  end.

Section Flags.
Variable rt : Runtime.
(** [defaultHandbookOptions] of [./defaults]. *)
Variable defaultHandbookOptions : Obj.
(** [reConfigBoolean] and [reConfigValue] of [./regexp]. *)
Variables reConfigBoolean reConfigValue : RegExp.

(** [value.split(' ').map(Number)] *)
Definition numberList (s : jsstring) : jsvalue :=
  VArray (map (fun x => VNumber (StringToNumber rt x)) (split s 32)).

Definition parseFlag (name : jsstring) (value : jsvalue) (start end_ : Z)
    (customTags : list jsstring) (tsOptionDeclarations : list Decl.t)
    : result Flag.t :=
  if includes name customTags then
    Ok (Flag.mk flag_tag name value start end_)
  else
    let compilerDecl :=
      find (fun d => jsstring_eqb (toLocaleLowerCase rt (Decl.name d))
                                  (toLocaleLowerCase rt name))
           tsOptionDeclarations in
    match compilerDecl with
    | Some compilerDecl =>
        let compilerOption (parsed : result jsvalue) : result Flag.t :=
          match parsed with
          | Ok v => Ok (Flag.mk flag_compilerOptions (Decl.name compilerDecl)
                                v start end_)
          | Throw e => Throw e
          end in
        match Decl.type compilerDecl with
        | KindName kind =>
            if jsstring_eqb kind (str "number")
               || jsstring_eqb kind (str "string")
               || jsstring_eqb kind (str "boolean")
            then compilerOption (parsePrimitive rt value kind)
            else if jsstring_eqb kind (str "list") then
              match Decl.element compilerDecl, value with
              | Some elementType, VString s =>
                  let strings := map VString (split s 44) in
                  let resolved :=
                    match elementType with
                    | KindName elementKind =>
                        mapM (fun v => parsePrimitive rt v elementKind) strings
                    | KindMap elementMap =>
                        mapM (fun v => getOptionValueFromMap rt
                                         (Decl.name compilerDecl) v elementMap)
                             strings
                    end in
                  match resolved with
                  | Ok vs => compilerOption (Ok (VArray vs))
                  | Throw e => Throw e
                  end
              | _, _ => Throw TypeError
              end
            else
              (* [default], with a [type] that is no [Map]: [optMap.get] is
                 not a function *)
              Throw TypeError
        | KindMap optMap =>
            compilerOption
              (getOptionValueFromMap rt (Decl.name compilerDecl) value optMap)
        end
    | None =>
        if includes name (objKeys defaultHandbookOptions) then
          let value :=
            match value with
            | VString s =>
                if jsstring_eqb name (str "errors") then numberList s
                else if jsstring_eqb name (str "noErrors") then
                  if jsstring_eqb s (str "true") then VBool true
                  else if jsstring_eqb s (str "false") then VBool false
                  else numberList s
                else value
            | _ => value
            end in
          Ok (Flag.mk flag_handbookOptions name value start end_)
        else
          Ok (Flag.mk flag_unknown name value start end_)
    end.

(** The groups of [reConfigBoolean] and [reConfigValue] take part in every
    match; without its name a match has nothing to read and ends in the
    [TypeError] of [name.toLocaleLowerCase()]. *)
Definition booleanNotation (customTags : list jsstring)
    (tsOptionDeclarations : list Decl.t) (m : RegExpMatch) : result (list Flag.t) :=
  let index := Match.index m in
  match group m 1 with
  | Some name =>
      match parseFlag name (VBool true) index
              (index + len (Match.matched m) + 1)
              customTags tsOptionDeclarations with
      | Ok flag => Ok [flag]
      | Throw e => Throw e
      end
  | None => Throw TypeError
  end.

Definition valueNotation (customTags : list jsstring)
    (tsOptionDeclarations : list Decl.t) (m : RegExpMatch) : result (list Flag.t) :=
  match group m 1 with
  | Some name =>
      if jsstring_eqb name (str "filename") then Ok []
      else
        let index := Match.index m in
        let value :=
          match group m 2 with
          | Some v => VString v
          | None => VUndefined
          end in
        match parseFlag name value index
                (index + len (Match.matched m) + 1)
                customTags tsOptionDeclarations with
        | Ok flag => Ok [flag]
        | Throw e => Throw e
        end
  | None => Throw TypeError
  end.

Definition findFlagNotations (code : jsstring) (customTags : list jsstring)
    (tsOptionDeclarations : list Decl.t) : result (list Flag.t) :=
  match mapM (booleanNotation customTags tsOptionDeclarations)
             (reConfigBoolean code) with
  | Throw e => Throw e
  | Ok booleans =>
      match mapM (valueNotation customTags tsOptionDeclarations)
                 (reConfigValue code) with
      | Throw e => Throw e
      | Ok values => Ok (List.concat booleans ++ List.concat values)
      end
  end.

End Flags.

(* ================================================================== *)
(** * Cut notations: findCutNotations *)

Section Cuts.
(** [reCutBefore], [reCutAfter], [reCutStart] and [reCutEnd] of
    [./regexp]. *)
Variables reCutBefore reCutAfter reCutStart reCutEnd : RegExp.

Definition mismatchedCounts (starts ends : nat) : Error :=
  TwoslashError
    (str "Mismatched cut markers")
    (str "You have " ++ numToString (Z.of_nat starts)
       ++ str " cut-starts and " ++ numToString (Z.of_nat ends)
       ++ str " cut-ends")
    (str "Make sure you have a matching pair for each.").

Definition mismatchedPair (start end_ : Z) : Error :=
  TwoslashError
    (str "Mismatched cut markers")
    (str "You have a cut-start at " ++ numToString start
       ++ str " which is after the cut-end at " ++ numToString end_)
    (str "Make sure you have a matching pair for each.").

(** [for (let i = 0; i < cutStart.length; i++)], on what is left of the two
    arrays, which have the same length. *)
Fixpoint cutPairs (cutStart cutEnd : list RegExpMatch) (removals : list Range)
    : result (list Range) :=
  match cutStart, cutEnd with
  | start :: cutStart', end_ :: cutEnd' =>
      if Match.index start >? Match.index end_
      then Throw (mismatchedPair (Match.index start) (Match.index end_))
      else cutPairs cutStart' cutEnd'
             (removals ++ [(Match.index start,
                            Match.index end_ + len (Match.matched end_) + 1)])
  | _, _ => Ok removals
  end.

Definition findCutNotations (code : jsstring) : result (list Range) :=
  let removals : list Range := [] in
  let cutBefore := reCutBefore code in
  let cutAfter := reCutAfter code in
  let cutStart := reCutStart code in
  let cutEnd := reCutEnd code in
  let removals :=
    match rev cutBefore with
    | last :: _ =>
        removals ++ [(0, Match.index last + len (Match.matched last) + 1)]
    | [] => removals
    end in
  let removals :=
    match cutAfter with
    | first :: _ => removals ++ [(Match.index first, len code)]
    | [] => removals
    end in
  if negb (Nat.eqb (List.length cutStart) (List.length cutEnd))
  then Throw (mismatchedCounts (List.length cutStart) (List.length cutEnd))
  else cutPairs cutStart cutEnd removals.

End Cuts.

(* ================================================================== *)
(** * Position markers: findQueryMarkers *)

(** An entry of [positionHighlights]: [[start, end, text?]]. *)
Definition Highlight : Type := Z * Z * option jsstring.

Definition highlightRange (h : Highlight) : Range := (fst (fst h), snd (fst h)).

Module Meta.
(** [TwoSlashReturnMeta] *)
Record t : Type := mk {
  extension : Extension;
  compilerOptions : Obj;
  handbookOptions : Obj;
  removals : list Range;
  flagNotations : list Flag.t;
  virtualFiles : list VirtualFile;
  positionQueries : list Z;
  positionCompletions : list Z;
  positionHighlights : list Highlight
}.

Definition setExtension (m : t) (x : Extension) : t :=
  mk x (compilerOptions m) (handbookOptions m) (removals m) (flagNotations m)
     (virtualFiles m) (positionQueries m) (positionCompletions m)
     (positionHighlights m).
Definition setCompilerOptions (m : t) (x : Obj) : t :=
  mk (extension m) x (handbookOptions m) (removals m) (flagNotations m)
     (virtualFiles m) (positionQueries m) (positionCompletions m)
     (positionHighlights m).
Definition setHandbookOptions (m : t) (x : Obj) : t :=
  mk (extension m) (compilerOptions m) x (removals m) (flagNotations m)
     (virtualFiles m) (positionQueries m) (positionCompletions m)
     (positionHighlights m).
Definition setRemovals (m : t) (x : list Range) : t :=
  mk (extension m) (compilerOptions m) (handbookOptions m) x (flagNotations m)
     (virtualFiles m) (positionQueries m) (positionCompletions m)
     (positionHighlights m).
Definition setFlagNotations (m : t) (x : list Flag.t) : t :=
  mk (extension m) (compilerOptions m) (handbookOptions m) (removals m) x
     (virtualFiles m) (positionQueries m) (positionCompletions m)
     (positionHighlights m).
Definition setVirtualFiles (m : t) (x : list VirtualFile) : t :=
  mk (extension m) (compilerOptions m) (handbookOptions m) (removals m)
     (flagNotations m) x (positionQueries m) (positionCompletions m)
     (positionHighlights m).
Definition setPositionQueries (m : t) (x : list Z) : t :=
  mk (extension m) (compilerOptions m) (handbookOptions m) (removals m)
     (flagNotations m) (virtualFiles m) x (positionCompletions m)
     (positionHighlights m).
Definition setPositionCompletions (m : t) (x : list Z) : t :=
  mk (extension m) (compilerOptions m) (handbookOptions m) (removals m)
     (flagNotations m) (virtualFiles m) (positionQueries m) x
     (positionHighlights m).
Definition setPositionHighlights (m : t) (x : list Highlight) : t :=
  mk (extension m) (compilerOptions m) (handbookOptions m) (removals m)
     (flagNotations m) (virtualFiles m) (positionQueries m)
     (positionCompletions m) x.
End Meta.

(** [s.includes(needle)] *)
Fixpoint includesText (needle s : jsstring) : bool :=
  match stripPrefix needle s with
  | Some _ => true
  | None =>
      match s with
      | [] => false
      | _ :: t => includesText needle t
      end
  end.

(** [s.indexOf(c)] for one code unit, counted from [from]; -1 when absent. *)
Fixpoint indexOfFrom (c : N) (s : jsstring) (from : Z) : Z :=
  match s with
  | [] => -1
  | x :: t => if N.eqb x c then from else indexOfFrom c t (from + 1)
  end.

Definition indexOf (s : jsstring) (c : N) : Z := indexOfFrom c s 0.

(** [s.lastIndexOf(c)] for one code unit; -1 when absent. *)
Definition lastIndexOf (s : jsstring) (c : N) : Z :=
  match indexOf (rev s) c with
  | -1 => -1
  | i => len s - 1 - i
  end.

Section Markers.
(** [reAnnonateMarkers] of [./regexp]. *)
Variable reAnnonateMarkers : RegExp.

(** The callback of [forEach] for one match. *)
Definition annotateMarker (getIndexOfLineAbove : Z -> result Z)
    (meta : Meta.t) (m : RegExpMatch) : result Meta.t :=
  let type := group m 1 in
  let index := Match.index m in
  let meta :=
    Meta.setRemovals meta
      (Meta.removals meta ++ [(index, index + len (Match.matched m) + 1)]) in
  let markerIndex := indexOf (Match.matched m) 94 in
  let typeIs (sigil : jsstring) : bool :=
    match type with
    | Some t => jsstring_eqb t sigil
    | None => false
    end in
  match getIndexOfLineAbove (index + markerIndex) with
  | Throw e => Throw e
  | Ok targetIndex =>
      if typeIs (str "?") then
        Ok (Meta.setPositionQueries meta
              (Meta.positionQueries meta ++ [targetIndex]))
      else if typeIs (str "|") then
        Ok (Meta.setPositionCompletions meta
              (Meta.positionCompletions meta ++ [targetIndex]))
      else
        let markerLength :=
          lastIndexOf (Match.matched m) 94 - markerIndex + 1 in
        Ok (Meta.setPositionHighlights meta
              (Meta.positionHighlights meta
               ++ [(targetIndex, targetIndex + markerLength,
                    option_map trim (group m 2))]))
  end.

Fixpoint foldResult (A S : Type) (f : S -> A -> result S) (s : S) (l : list A)
    : result S :=
  match l with
  | [] => Ok s
  | x :: rest =>
      match f s x with
      | Ok s' => foldResult f s' rest
      | Throw e => Throw e
      end
  end.

Definition findQueryMarkers (code : jsstring) (meta : Meta.t)
    (getIndexOfLineAbove : Z -> result Z) : result Meta.t :=
  if includesText (str "//") code
  then foldResult (annotateMarker getIndexOfLineAbove) meta
                  (reAnnonateMarkers code)
  else Ok meta.

End Markers.

(* ================================================================== *)
(** * The type-checking backend *)

Module QuickInfo.
(** What [getQuickInfoAtPosition] returns: the texts of [displayParts] and
    of [documentation]. *)
Record t : Type := mk {
  displayParts : option (list jsstring);
  documentation : option (list jsstring)
}.
End QuickInfo.

Module Diagnostic.
(** [fileName] is [diagnostic.file?.fileName]; [messageText] is the text
    [ts.flattenDiagnosticMessageText] gives. *)
Record t : Type := mk {
  fileName : option jsstring;
  code : Z;
  start : Z;
  length : Z;
  messageText : jsstring;
  category : Z
}.
End Diagnostic.

Module OutputFile.
Record t : Type := mk { name : jsstring; text : jsstring }.
End OutputFile.

(** A source file as [getIdentifierTextSpans] reads it: the identifiers of
    the tree in the order [forEachChild] reaches them, each with
    [getStart] and [getText]. *)
Definition SourceFile : Type := list (Z * jsstring).

(** The calls a run makes into the backend, in the order it makes them. *)
Inductive Call : Type :=
| GetEnv (compilerOptions : Obj)
| CreateFile (filepath content : jsstring)
| GetSourceFile (filepath : jsstring)
| GetQuickInfoAtPosition (filepath : jsstring) (position : Z)
| GetCompletionsAtPosition (filepath : jsstring) (position : Z)
| GetSemanticDiagnostics (filepath : jsstring)
| GetSyntacticDiagnostics (filepath : jsstring)
| UpdateFile (filepath content : jsstring)
| GetEmitOutput (filepath : jsstring).

Definition Log : Type := list Call.

(** The backend answers a query from the calls made so far and the
    arguments of the query. [getCompletionsAtPosition] gives the names of
    the entries. *)
Record Backend : Type := mkBackend {
  getSourceFile : Log -> jsstring -> SourceFile;
  getQuickInfoAtPosition : Log -> jsstring -> Z -> option QuickInfo.t;
  getCompletionsAtPosition : Log -> jsstring -> Z -> option (list jsstring);
  getSemanticDiagnostics : Log -> jsstring -> list Diagnostic.t;
  getSyntacticDiagnostics : Log -> jsstring -> list Diagnostic.t;
  getEmitOutput : Log -> jsstring -> list OutputFile.t
}.

(** A step of the run: it extends the log of backend calls and returns or
    throws. *)
Definition M (A : Type) : Type := Log -> Log * result A.

Definition ret (A : Type) (a : A) : M A := fun log => (log, Ok a).

Definition throw (A : Type) (e : Error) : M A := fun log => (log, Throw e).
Arguments throw {A} e.

Definition bind (A B : Type) (c : M A) (k : A -> M B) : M B :=
  fun log =>
    match c log with
    | (log', Ok a) => k a log'
    | (log', Throw e) => (log', Throw e)
    end.

Definition lift (A : Type) (r : result A) : M A := fun log => (log, r).

(** A call into the backend: [answer] is what the backend returns, given
    the calls made before this one. *)
Definition call (A : Type) (c : Call) (answer : Log -> A) : M A :=
  fun log => (log ++ [c], Ok (answer log)).

Declare Scope run_scope.
Delimit Scope run_scope with run.
Notation "x <- c ;; k" := (bind c (fun x => k))
  (at level 61, c at next level, right associativity) : run_scope.
Notation "c ;; k" := (bind c (fun _ => k))
  (at level 61, right associativity) : run_scope.

(** A [for ... of] loop whose body updates [s]. *)
Fixpoint forEach (A S : Type) (body : S -> A -> M S) (s : S) (l : list A) : M S :=
  match l with
  | [] => ret s
  | x :: rest => bind (body s x) (fun s' => forEach body s' rest)
  end.

(* ================================================================== *)
(** * Helpers of the pipeline *)

Fixpoint takeWhile (A : Type) (f : A -> bool) (l : list A) : list A :=
  match l with
  | [] => []
  | x :: t => if f x then x :: takeWhile f t else []
  end.

Definition startsWith (s prefix : jsstring) : bool :=
  match stripPrefix prefix s with
  | Some _ => true
  | None => false
  end.

(** [s.replace(/suffix$/, by)] for a literal suffix. *)
Definition replaceSuffix (suffix by_ s : jsstring) : jsstring :=
  match stripPrefix (rev suffix) (rev s) with
  | Some r => rev r ++ by_
  | None => s
  end.

(** [removeTsExtension], which [core.ts] imports under the name
    [deExtensionify]. The last [replace] removes a final [.] with the run
    of code units other than [/] and [.] after it, when that run is not
    empty. *)
Definition removeTsExtension (filename : jsstring) : jsstring :=
  let sansMapOrDTS :=
    replaceSuffix (str ".map") []
      (replaceSuffix (str ".d.ts") (str ".ts") filename) in
  let r := rev sansMapOrDTS in
  let run := takeWhile (fun c => negb (N.eqb c 47 || N.eqb c 46)) r in
  match run, skipn (List.length run) r with
  | _ :: _, 46%N :: rest => rev rest
  | _, _ => sansMapOrDTS
  end.

Definition deExtensionify : jsstring -> jsstring := removeTsExtension.

(** [s.match(/\S+$/)?.[0] || ''] *)
Definition lastWord (s : jsstring) : jsstring :=
  rev (takeWhile (fun c => negb (isSpace c)) (rev s)).

(** [getIdentifierTextSpans(ts, sourceFile, fileOffset)] *)
Definition getIdentifierTextSpans (sourceFile : SourceFile) (fileOffset : Z)
    : list (Z * Z * jsstring) :=
  map (fun child =>
         let text := snd child in
         let start := fst child + fileOffset in
         let end_ := start + len text in
         (start, end_, text))
      sourceFile.

Definition spanRange (i : Z * Z * jsstring) : Range := (fst (fst i), snd (fst i)).

Definition nl : jsstring := [10%N].

(* ================================================================== *)
(** * twoslasher *)

Module CreateOptions.
(** [CreateTwoSlashOptions], with what [createTwoSlasher] derives from
    it: [tsOptionDeclarations] of the [tsModule] and [fsRoot]. An option
    object that is left out is the empty object. *)
Record t : Type := mk {
  compilerOptions : Obj;
  handbookOptions : Obj;
  customTags : option (list jsstring);
  shouldGetHoverInfo : option (jsstring -> Z -> jsstring -> bool);
  filterNode : option (Node.t -> bool);
  tsOptionDeclarations : list Decl.t;
  fsRoot : jsstring
}.
End CreateOptions.

Module ExecuteOptions.
(** [TwoSlashExecuteOptions] *)
Record t : Type := mk {
  compilerOptions : Obj;
  handbookOptions : Obj;
  customTags : option (list jsstring);
  shouldGetHoverInfo : option (jsstring -> Z -> jsstring -> bool);
  filterNode : option (Node.t -> bool);
  positionQueries : option (list Z);
  positionCompletions : option (list Z);
  positionHighlights : option (list Highlight)
}.
End ExecuteOptions.

Module Return.
(** [TwoSlashReturn] *)
Record t : Type := mk {
  code : jsstring;
  nodes : list TwoslashNode;
  meta : Meta.t
}.
End Return.
Abbreviation TwoSlashReturn := Return.t.

Definition orElse (A : Type) (o : option A) (d : A) : A :=
  match o with
  | Some a => a
  | None => d
  end.

(** The body of [for (const flag of meta.flagNotations)]: an unknown flag
    leaves the loop body at [continue], the others reach
    [meta.removals.push([flag.start, flag.end])]. *)
Definition applyFlag (acc : Meta.t * list Node.t) (flag : Flag.t)
    : Meta.t * list Node.t :=
  let meta := fst acc in
  let nodes := snd acc in
  let pushRemoval (meta : Meta.t) : Meta.t :=
    Meta.setRemovals meta
      (Meta.removals meta ++ [(Flag.start flag, Flag.end_ flag)]) in
  match Flag.type flag with
  | flag_unknown => (meta, nodes)
  | flag_compilerOptions =>
      (pushRemoval
         (Meta.setCompilerOptions meta
            (objSet (Meta.compilerOptions meta) (Flag.name flag) (Flag.value flag))),
       nodes)
  | flag_handbookOptions =>
      (pushRemoval
         (Meta.setHandbookOptions meta
            (objSet (Meta.handbookOptions meta) (Flag.name flag) (Flag.value flag))),
       nodes)
  | flag_tag =>
      (pushRemoval meta,
       nodes ++ [Node.mk type_tag (Flag.end_ flag) 0
                   (TagInfo (Flag.name flag) (Flag.value flag))])
  end.

Definition applyFlags (meta : Meta.t) (nodes : list Node.t)
    : Meta.t * list Node.t :=
  fold_left applyFlag (Meta.flagNotations meta) (meta, nodes).

Definition isUnknown (i : Flag.t) : bool := FlagType_eqb (Flag.type i) flag_unknown.

Definition unknownFlagsError (unknownFlags : list Flag.t) : Error :=
  TwoslashError
    (str "Unknown inline compiler flags")
    (str "The following flags are either valid TSConfig nor handbook options:"
       ++ nl ++ join (str ", ") (map (fun i => str "@" ++ Flag.name i) unknownFlags))
    (str "This is likely a typo, you can check all the compiler flags in the TSConfig reference, or check the additional Twoslash flags in the npm page for @typescript/twoslash.").

Definition incompatibleOptionsError : Error :=
  TwoslashError
    (str "Option 'showEmit' cannot be used with 'keepNotations'")
    (str "With `showEmit` enabled, the output will always be the emitted code")
    (str "Remove either option to continue").

Definition supportedFileTyes : list jsstring :=
  [str "js"; str "jsx"; str "ts"; str "tsx"].

Section Pipeline.
Variable rt : Runtime.
(** [defaultCompilerOptions] and [defaultHandbookOptions] of [./defaults]. *)
Variables defaultCompilerOptions defaultHandbookOptions : Obj.
(** The regular expressions of [./regexp]. *)
Variables reConfigBoolean reConfigValue reAnnonateMarkers : RegExp.
Variables reCutBefore reCutAfter reCutStart reCutEnd : RegExp.
(** [validateCodeForErrors] of [./validation]. *)
Variable validateCodeForErrors : list Node.t -> Obj -> jsstring -> result unit.
Variable backend : Backend.
Variable createOptions : CreateOptions.t.

Definition fsRoot : jsstring := CreateOptions.fsRoot createOptions.

(** Lines 52 to 119: the meta object, the flags of the code and their
    application, and the check for unknown flags. No backend call is made
    here. *)
Definition scan (code extension : jsstring) (options : ExecuteOptions.t)
    : result (Meta.t * list Node.t) :=
  match typesToExtension extension with
  | Throw e => Throw e
  | Ok ext =>
      let meta :=
        Meta.mk ext
          (objSpread (objSpread defaultCompilerOptions
                        (CreateOptions.compilerOptions createOptions))
                     (ExecuteOptions.compilerOptions options))
          (objSpread (objSpread defaultHandbookOptions
                        (CreateOptions.handbookOptions createOptions))
                     (ExecuteOptions.handbookOptions options))
          [] [] []
          (orElse (ExecuteOptions.positionQueries options) [])
          (orElse (ExecuteOptions.positionCompletions options) [])
          (orElse (ExecuteOptions.positionHighlights options) []) in
      let customTags :=
        orElse (ExecuteOptions.customTags options)
               (orElse (CreateOptions.customTags createOptions) []) in
      match findFlagNotations rt defaultHandbookOptions reConfigBoolean
              reConfigValue code customTags
              (CreateOptions.tsOptionDeclarations createOptions) with
      | Throw e => Throw e
      | Ok flagNotations =>
          let meta := Meta.setFlagNotations meta flagNotations in
          let applied := applyFlags meta [] in
          let meta := fst applied in
          let unknownFlags := filter isUnknown (Meta.flagNotations meta) in
          if negb (truthy (objGet (Meta.handbookOptions meta)
                                  (str "noErrorValidation")))
             && negb (Nat.eqb (List.length unknownFlags) 0)
          then Throw (unknownFlagsError unknownFlags)
          else Ok applied
      end
  end.

Section Run.
Variable code : jsstring.
Variable options : ExecuteOptions.t.
(** [meta] once the markers are read and the files split: the loops
    below only read it. *)
Variable meta : Meta.t.

Definition handbook (name : string) : jsvalue :=
  objGet (Meta.handbookOptions meta) (str name).

Definition isInRemoval (index : Z) : option Range :=
  isInRanges index (Meta.removals meta).

Definition getFileAtPosition (pos : Z) : option VirtualFile :=
  find (fun i => isInRange pos (offset i, offset i + len (content i)))
       (Meta.virtualFiles meta).

Definition getQuickInfo (start : Z) (target : jsstring) : M (option Node.t) :=
  match getFileAtPosition start with
  | None => throw TypeError
  | Some file =>
      (quickInfo <- call (GetQuickInfoAtPosition (filepath file) (start - offset file))
                      (fun log => getQuickInfoAtPosition backend log
                                    (filepath file) (start - offset file)) ;;
       ret match quickInfo with
           | Some (QuickInfo.mk (Some displayParts) documentation) =>
               let text := join [] displayParts in
               let docs :=
                 match option_map (join nl) documentation with
                 | Some ((_ :: _) as d) => Some d
                 | _ => None
                 end in
               Some (Node.mk type_hover start (len target)
                       (HoverInfo text docs target))
           | _ => None
           end)%run
  end.

Definition shouldGetHoverInfo : jsstring -> Z -> jsstring -> bool :=
  orElse (ExecuteOptions.shouldGetHoverInfo options)
    (orElse (CreateOptions.shouldGetHoverInfo createOptions)
            (fun _ _ _ => true)).

(** region "get ts info for quick info", one identifier *)
Definition hoverOf (file : VirtualFile) (nodes : list Node.t)
    (id : Z * Z * jsstring) : M (list Node.t) :=
  let start := fst (fst id) in
  let target := snd id in
  match isInRemoval start with
  | Some _ => ret nodes
  | None =>
      if negb (shouldGetHoverInfo target start (filename file)) then ret nodes
      else
        (node <- getQuickInfo start target ;;
         ret match node with
             | Some node => nodes ++ [node]
             | None => nodes
             end)%run
  end.

Definition isInFile (file : VirtualFile) (pos : Z) : bool :=
  (offset file <=? pos) && (pos <? offset file + len (content file)).

Definition unresolved (title : string) (pos : Position) (file : VirtualFile)
    (what hint : string) : Error :=
  TwoslashError (str title)
    (str "The request on line " ++ numToString (line pos + 2) ++ str " in "
       ++ filename file ++ str what)
    (str hint).

(** region "get query", one query *)
Definition queryOf (pc : list jsstring) (file : VirtualFile)
    (identifiers : list (Z * Z * jsstring)) (nodes : list Node.t)
    (query : Z) : M (list Node.t) :=
  if negb (isInFile file query) then ret nodes
  else
    (node <- match find (fun i => isInRange query (spanRange i)) identifiers with
             | Some id => getQuickInfo query (snd id)
             | None => ret None
             end ;;
     match node with
     | Some node => ret (nodes ++ [Node.setType node type_query])
     | None =>
         throw (unresolved "Invalid quick info query" (indexToPos pc query) file
                  " for quickinfo via ^? returned nothing from the compiler."
                  "This is likely that the x positioning is off.")
     end)%run.

(** [ids.map(i => getQuickInfo(i[0], i[2])).filter(Boolean)] *)
Fixpoint quickInfos (ids : list (Z * Z * jsstring)) : M (list Node.t) :=
  match ids with
  | [] => ret []
  | i :: rest =>
      (node <- getQuickInfo (fst (fst i)) (snd i) ;;
       matched <- quickInfos rest ;;
       ret match node with
           | Some node => node :: matched
           | None => matched
           end)%run
  end.

(** region "get highlights", one highlight *)
Definition highlightOf (pc : list jsstring) (file : VirtualFile)
    (identifiers : list (Z * Z * jsstring)) (nodes : list Node.t)
    (highlight : Highlight) : M (list Node.t) :=
  if negb (isInFile file (fst (fst highlight))) then ret nodes
  else
    let ids :=
      filter (fun i => areRangesIntersecting (spanRange i)
                         (highlightRange highlight)) identifiers in
    (matched <- quickInfos ids ;;
     match matched with
     | _ :: _ =>
         ret (nodes ++ map (fun node => Node.setType node type_highlight) matched)
     | [] =>
         throw (unresolved "Invalid highlight query"
                  (indexToPos pc (fst (fst highlight))) file
                  " for highlight via ^^^ returned nothing from the compiler."
                  "This is likely that the x positioning is off.")
     end)%run.

(** region "get completions", one target *)
Definition completionOf (file : VirtualFile) (nodes : list Node.t)
    (target : Z) : M (list Node.t) :=
  let filepath := fsRoot ++ filename file in
  if negb (isInFile file target) then ret nodes
  else
    match isInRemoval target with
    | Some _ => ret nodes
    | None =>
        (completions <- call (GetCompletionsAtPosition filepath (target - 1))
                          (fun log => getCompletionsAtPosition backend log
                                        filepath (target - 1)) ;;
         match completions with
         | None =>
             if negb (truthy (handbook "noErrorValidation")) then
               throw (TwoslashError
                 (str "Invalid completion query")
                 (str "The request on line [object Object] in "
                    ++ filename file
                    ++ str " for completions via ^| returned no completions from the compiler.")
                 (str "This is likely that the positioning is off."))
             else ret tt
         | Some _ => ret tt
         end ;;
         let prefix := lastWord (slice code 0 (target - 1 + 1)) in
         let prefix := last (split prefix 46) [] in
         ret (nodes ++
              [Node.mk type_completion target 0
                 (CompletionInfo
                    (filter (fun name => startsWith name prefix)
                            (orElse completions []))
                    prefix)]))%run
    end.

(** The body of the first [for (const file of meta.virtualFiles)]. *)
Definition populate (pc : list jsstring) (nodes : list Node.t)
    (file : VirtualFile) : M (list Node.t) :=
  let skipped :=
    if jsstring_eqb (extension file) (str "json")
    then negb (truthy (objGet (Meta.compilerOptions meta) (str "resolveJsonModule")))
    else negb (includes (extension file) supportedFileTyes) in
  if skipped then ret nodes
  else
    let filepath := fsRoot ++ filename file in
    (call (CreateFile filepath (content file)) (fun _ => tt) ;;
     if negb (truthy (handbook "showEmit")) then
       source <- call (GetSourceFile filepath)
                   (fun log => getSourceFile backend log filepath) ;;
       (* [identifiers] is computed at its first use; it is the same
          list wherever that is *)
       let identifiers := getIdentifierTextSpans source (offset file) in
       nodes <- (if negb (truthy (handbook "noStaticSemanticInfo"))
                 then forEach (hoverOf file) nodes identifiers
                 else ret nodes) ;;
       nodes <- forEach (queryOf pc file identifiers) nodes
                  (Meta.positionQueries meta) ;;
       nodes <- forEach (highlightOf pc file identifiers) nodes
                  (Meta.positionHighlights meta) ;;
       forEach (completionOf file) nodes (Meta.positionCompletions meta)
     else ret nodes)%run.

Definition errorNode (file : VirtualFile) (diagnostic : Diagnostic.t)
    (start : Z) : Node.t :=
  Node.mk type_error start (Diagnostic.length diagnostic)
    (ErrorInfo (Diagnostic.code diagnostic) (filename file)
       (str "err-" ++ numToString (Diagnostic.code diagnostic) ++ str "-"
          ++ numToString start ++ str "-"
          ++ numToString (Diagnostic.length diagnostic))
       (Diagnostic.messageText diagnostic)
       (Diagnostic.category diagnostic)).

Definition diagnosed (file : VirtualFile) (errorNodes : list Node.t)
    (diagnostic : Diagnostic.t) : list Node.t :=
  let filepath := fsRoot ++ filename file in
  let ignores :=
    match handbook "noErrors" with
    | VArray items => items
    | _ => []
    end in
  let start := Diagnostic.start diagnostic + offset file in
  match Diagnostic.fileName diagnostic with
  | Some fileName =>
      if negb (jsstring_eqb fileName filepath) then errorNodes
      else if existsb (isNumber (Diagnostic.code diagnostic)) ignores
      then errorNodes
      else if truthy (handbook "noErrorsCutted")
              && match isInRemoval start with Some _ => true | None => false end
      then errorNodes
      else errorNodes ++ [errorNode file diagnostic start]
  | None => errorNodes
  end.

(** The body of the second [for (const file of meta.virtualFiles)]. *)
Definition diagnose (errorNodes : list Node.t) (file : VirtualFile)
    : M (list Node.t) :=
  if negb (includes (extension file) supportedFileTyes) then ret errorNodes
  else
    let filepath := fsRoot ++ filename file in
    match handbook "noErrors" with
    | VBool true => ret errorNodes
    | _ =>
        (semantic <- call (GetSemanticDiagnostics filepath)
                       (fun log => getSemanticDiagnostics backend log filepath) ;;
         syntactic <- call (GetSyntacticDiagnostics filepath)
                        (fun log => getSyntacticDiagnostics backend log filepath) ;;
         ret (fold_left (diagnosed file) (semantic ++ syntactic) errorNodes))%run
    end.

End Run.

Definition missingSourceError (emitFilename : jsvalue)
    (emitSource : option jsstring) (files : list VirtualFile) : Error :=
  let allFiles := join (str ", ") (map filename files) in
  TwoslashError
    (str "Could not find source file to show the emit for")
    (str "Cannot find the corresponding **source** file: '"
       ++ toStringV rt emitFilename ++ str "'")
    (str "Looked for: " ++ orElse emitSource (str "undefined")
       ++ str " in the vfs - which contains: " ++ allFiles).

Definition missingOutputError (emitFilename : jsvalue)
    (outputFiles : list OutputFile.t) : Error :=
  let allFiles := join (str ", ") (map OutputFile.name outputFiles) in
  TwoslashError
    (str "Cannot find the output file in the Twoslash VFS")
    (str "Looking for " ++ toStringV rt emitFilename
       ++ str " in the Twoslash vfs after compiling")
    (str "Looked for" ++ [34%N] ++ str " " ++ fsRoot ++ toStringV rt emitFilename
       ++ str " in the vfs - which contains " ++ allFiles ++ str ".").

(** [meta.virtualFiles.find(i => deExtensionify(i.filename) ===
    deExtensionify(emitFilename))?.filename]: the callback runs when there
    is a file, and [deExtensionify] needs a string. *)
Definition findEmitSource (emitFilename : jsvalue) (files : list VirtualFile)
    : result (option jsstring) :=
  match emitFilename with
  | VString name =>
      Ok (option_map filename
            (find (fun i => jsstring_eqb (deExtensionify (filename i))
                                         (deExtensionify name)) files))
  | _ =>
      match files with
      | [] => Ok None
      | _ :: _ => Throw TypeError
      end
  end.

(** The block [if (meta.handbookOptions.showEmit)], which gives the new
    [outputCode], [meta] and [nodes]. *)
Definition emit (code : jsstring) (meta : Meta.t) (nodes : list Node.t)
    : M (jsstring * Meta.t * list Node.t) :=
  let outputCode := code in
  let defaultFilename := str "index." ++ extensionText rt (Meta.extension meta) in
  if truthy (handbook meta "showEmit") then
    if truthy (handbook meta "keepNotations") then
      throw incompatibleOptionsError
    else
      (let removedCode :=
         removedCode (removeCodeRanges outputCode (Meta.removals meta) None []) in
       let files := splitFiles removedCode defaultFilename fsRoot in
       forEach (fun (_ : unit) file =>
                  call (UpdateFile (filepath file) (content file)) (fun _ => tt))
               tt files ;;
       let emitFilename :=
         if truthy (handbook meta "showEmittedFile")
         then handbook meta "showEmittedFile"
         else if isNumber 1 (objGet (Meta.compilerOptions meta) (str "jsx"))
              then VString (str "index.jsx")
              else VString (str "index.js") in
       emitSource <- lift (findEmitSource emitFilename (Meta.virtualFiles meta)) ;;
       let outFile := objGet (Meta.compilerOptions meta) (str "outFile") in
       let missing :=
         match emitSource with
         | Some (_ :: _) => false
         | _ => true
         end in
       if missing && negb (truthy outFile) then
         throw (missingSourceError emitFilename emitSource (Meta.virtualFiles meta))
       else
         emitSource <-
           (if truthy outFile then
              match Meta.virtualFiles meta with
              | first :: _ => ret (filename first)
              | [] => throw TypeError
              end
            else ret (orElse emitSource [])) ;;
         outputFiles <- call (GetEmitOutput (fsRoot ++ emitSource))
                          (fun log => getEmitOutput backend log (fsRoot ++ emitSource)) ;;
         let outfile :=
           find (fun o =>
                   jsstring_eqb (OutputFile.name o)
                                (fsRoot ++ toStringV rt emitFilename)
                   || match emitFilename with
                      | VString name => jsstring_eqb (OutputFile.name o) name
                      | _ => false
                      end)
                outputFiles in
         match outfile with
         | None => throw (missingOutputError emitFilename outputFiles)
         | Some outfile =>
             ret (OutputFile.text outfile,
                  Meta.setRemovals
                    (Meta.setExtension meta
                       (ext_string (getExtension (OutputFile.name outfile))))
                    [],
                  [])
         end)%run
  else ret (outputCode, meta, nodes).

(** Lines 121 to 326: the environment, the cuts and markers, the files,
    the nodes of every file, the diagnostics and their validation. *)
Definition collect (code : jsstring) (options : ExecuteOptions.t)
    (scanned : Meta.t * list Node.t) : M (Meta.t * list Node.t) :=
  (let meta := fst scanned in
   let nodes := snd scanned in
   let defaultFilename := str "index." ++ extensionText rt (Meta.extension meta) in
   call (GetEnv (Meta.compilerOptions meta)) (fun _ => tt) ;;
   let pc := lines code in
   (* extract cuts *)
   cuts <- lift (findCutNotations reCutBefore reCutAfter reCutStart reCutEnd code) ;;
   let meta := Meta.setRemovals meta (Meta.removals meta ++ cuts) in
   (* extract markers *)
   meta <- lift (findQueryMarkers reAnnonateMarkers code meta
                   (getIndexOfLineAbove pc)) ;;
   let meta := Meta.setVirtualFiles meta (splitFiles code defaultFilename fsRoot) in
   nodes <- forEach (populate code options meta pc) nodes (Meta.virtualFiles meta) ;;
   (* get diagnostics, after all files are mounted *)
   errorNodes <- forEach (diagnose meta) [] (Meta.virtualFiles meta) ;;
   let filterNode :=
     match ExecuteOptions.filterNode options with
     | Some f => Some f
     | None => CreateOptions.filterNode createOptions
     end in
   let nodes := match filterNode with Some f => filter f nodes | None => nodes end in
   let errorNodes :=
     match filterNode with Some f => filter f errorNodes | None => errorNodes end in
   let nodes := nodes ++ errorNodes in
   (if negb (truthy (handbook meta "noErrorValidation"))
       && negb (Nat.eqb (List.length errorNodes) 0)
    then lift (validateCodeForErrors errorNodes (Meta.handbookOptions meta) fsRoot)
    else ret tt) ;;
   ret (meta, nodes))%run.

(** Lines 384 to 400: the erasure of the removals, the positions of the
    nodes and the result. *)
Definition finish (code : jsstring) (emitted : jsstring * Meta.t * list Node.t)
    : TwoSlashReturn :=
  let pc := lines code in
  let outputCode := fst (fst emitted) in
  let meta := snd (fst emitted) in
  let nodes := snd emitted in
  let removed :=
    if negb (truthy (handbook meta "keepNotations"))
    then removeCodeRangesOf outputCode (Meta.removals meta) nodes
    else mkRemoved outputCode (Meta.removals meta) nodes in
  let outputCode := removedCode removed in
  let nodes := removedStore removed in
  let meta := Meta.setRemovals meta (removedRanges removed) in
  let indexToPos :=
    if jsstring_eqb outputCode code
    then indexToPos pc
    else indexToPos (lines outputCode) in
  let resolvedNodes := resolveNodePositions nodes indexToPos in
  Return.mk outputCode resolvedNodes meta.

Definition twoslasher (code extension : jsstring) (options : ExecuteOptions.t)
    : M TwoSlashReturn :=
  (scanned <- lift (scan code extension options) ;;
   collected <- collect code options scanned ;;
   emitted <- emit code (fst collected) (snd collected) ;;
   ret (finish code emitted))%run.

End Pipeline.

(* ================================================================== *)
(** * Notions the properties are stated with *)

(** The invariant of a range, [start <= end]. *)
Definition valid (r : Range) : Prop := fst r <= snd r.

(** A range that covers at least one offset. *)
Definition nonEmpty (r : Range) : Prop := fst r < snd r.

(** [a] ends strictly before [b] starts. *)
Definition apart (a b : Range) : Prop := snd a < fst b.

(** The order of [resolveNodePositions]: by [start], then by the name of
    the kind. *)
Definition nodeLe (a b : Node.t) : Prop :=
  Node.start a < Node.start b
  \/ (Node.start a = Node.start b
      /\ localeCompare (typeName (Node.type a)) (typeName (Node.type b)) <= 0).

(** A position of a text with the given lines: a line of the text and a
    column inside that line. *)
Definition validPosition (lines : list jsstring) (p : Position) : Prop :=
  exists lineText,
    0 <= line p /\ nth_error lines (Z.to_nat (line p)) = Some lineText
    /\ 0 <= character p < len lineText.

(** Whether some range [start, end) of the list holds the offset. *)
Definition covered (ranges : list Range) (i : Z) : bool :=
  existsb (fun r => (fst r <=? i) && (i <? snd r)) ranges.

(** The code units of a text, the first of them at offset [i], whose offset
    is in none of the ranges. *)
Fixpoint eraseFrom (ranges : list Range) (s : jsstring) (i : Z) : jsstring :=
  match s with
  | [] => []
  | c :: t =>
      if covered ranges i then eraseFrom ranges t (i + 1)
      else c :: eraseFrom ranges t (i + 1)
  end.

Definition erase (ranges : list Range) (s : jsstring) : jsstring :=
  eraseFrom ranges s 0.

(** The source spans of the position markers of a text. *)
Definition markerSpans (reAnnonateMarkers : RegExp) (code : jsstring) : list Range :=
  if includesText (str "//") code
  then map (fun m => (Match.index m, Match.index m + len (Match.matched m) + 1))
           (reAnnonateMarkers code)
  else [].

(** The source span of a directive. *)
Definition flagSpan (flag : Flag.t) : Range := (Flag.start flag, Flag.end_ flag).

Definition isKnown (flag : Flag.t) : bool := negb (isUnknown flag).

(** Some cut-start lies after the cut-end of the same rank. *)
Definition inverted (cutStart cutEnd : list RegExpMatch) : Prop :=
  exists (i : nat) s e,
    nth_error cutStart i = Some s /\ nth_error cutEnd i = Some e
    /\ Match.index s > Match.index e.

(** The matches start at or after [lo], each one after the one before. *)
Inductive increasing : Z -> list RegExpMatch -> Prop :=
| increasing_nil lo : increasing lo []
| increasing_cons lo m ms :
    lo <= Match.index m -> increasing (Match.index m + 1) ms ->
    increasing lo (m :: ms).

(** The files tile the text from [i] to its end: each one is the non-empty
    slice from its offset to the offset of the next one. *)
Inductive tiles (code : jsstring) : Z -> list VirtualFile -> Prop :=
| tiles_nil : tiles code (len code) []
| tiles_cons i j f fs :
    offset f = i -> content f = slice code i j -> 0 <= i < j -> j <= len code ->
    tiles code j fs -> tiles code i (f :: fs).

(** [s] contains [part]. *)
Definition mentions (s part : jsstring) : Prop :=
  exists before after, s = before ++ part ++ after.

(* ================================================================== *)
(** * The result object *)

Module Result.
(** The getters of the object [twoslasher] returns, each of them
    [this.nodes.filter(i => i.type === ...)]. *)
Definition queries (r : TwoSlashReturn) : list TwoslashNode :=
  filter (fun i => jsstring_eqb (typeName (Node.type (node i))) (str "query"))
         (Return.nodes r).
Definition completions (r : TwoSlashReturn) : list TwoslashNode :=
  filter (fun i => jsstring_eqb (typeName (Node.type (node i))) (str "completion"))
         (Return.nodes r).
Definition errors (r : TwoSlashReturn) : list TwoslashNode :=
  filter (fun i => jsstring_eqb (typeName (Node.type (node i))) (str "error"))
         (Return.nodes r).
Definition highlights (r : TwoSlashReturn) : list TwoslashNode :=
  filter (fun i => jsstring_eqb (typeName (Node.type (node i))) (str "highlight"))
         (Return.nodes r).
Definition hovers (r : TwoSlashReturn) : list TwoslashNode :=
  filter (fun i => jsstring_eqb (typeName (Node.type (node i))) (str "hover"))
         (Return.nodes r).
Definition tags (r : TwoSlashReturn) : list TwoslashNode :=
  filter (fun i => jsstring_eqb (typeName (Node.type (node i))) (str "tag"))
         (Return.nodes r).
End Result.

(* ================================================================== *)
(** * createTwoSlasher: the cache of environments *)

Module Env.
(** What tells two environments of an instance apart: the compiler options
    [createVirtualTypeScriptEnvironment] was called with, and the number
    of environments the instance had created before. *)
Record t : Type := mk { compilerOptions : Obj; serial : nat }.
End Env.

(** A [Map] from hashes to environments: the entries in insertion order,
    each key once. *)
Definition EnvMap : Type := list (jsstring * Env.t).

(** [cache.has(key)] and [cache.get(key)] *)
Fixpoint envGet (m : EnvMap) (key : jsstring) : option Env.t :=
  match m with
  | [] => None
  | (k, env) :: rest => if jsstring_eqb k key then Some env else envGet rest key
  end.

(** [cache.set(key, env)] *)
Fixpoint envSet (m : EnvMap) (key : jsstring) (env : Env.t) : EnvMap :=
  match m with
  | [] => [(key, env)]
  | (k, e) :: rest =>
      if jsstring_eqb k key then (k, env) :: rest else (k, e) :: envSet rest key env
  end.

(** [createOptions.cache]: [false], a [Map] of the caller, or left out. *)
Inductive CacheOption : Type :=
| cache_false
| cache_map (m : EnvMap)
| cache_default.

(** The state of an instance: [cache] ([None] for [undefined]) and the
    number of environments created so far. *)
Record Instance : Type := mkInstance { cache : option EnvMap; created : nat }.

(** The part of [createTwoSlasher] that sets the cache up. *)
Definition createTwoSlasher (option : CacheOption) : Instance :=
  mkInstance
    match option with
    | cache_false => None
    | cache_map m => Some m
    | cache_default => Some []
    end
    0.

Section GetEnv.
(** [objectHash] of the package [ohash]. *)
Variable objectHash : Obj -> jsstring.

Definition getEnv (compilerOptions : Obj) (instance : Instance)
    : Env.t * Instance :=
  let create := Env.mk compilerOptions (created instance) in
  match cache instance with
  | None => (create, mkInstance None (S (created instance)))
  | Some m =>
      let key := objectHash compilerOptions in
      match envGet m key with
      | None =>
          (create, mkInstance (Some (envSet m key create)) (S (created instance)))
      | Some env => (env, instance)
      end
  end.

End GetEnv.

(** [twoslasher.getCacheMap()] *)
Definition getCacheMap (instance : Instance) : option EnvMap := cache instance.

(* ================================================================== *)
(** * Further notions *)

(** The closed intervals of two ranges have an offset in common. *)
Definition overlapping (a b : Range) : Prop := fst a <= snd b /\ fst b <= snd a.

(** A text whose only line terminators are line feeds. *)
Definition lineFeedsOnly (code : jsstring) : bool :=
  forallb (fun c => negb (isLineTerminator c) || N.eqb c 10) code.

Definition notLineFeed (c : N) : bool := negb (N.eqb c 10).

(** The number of line feeds before an offset, and the number of code units
    between the last of them and the offset. *)
Definition lineFeedsBefore (code : jsstring) (i : Z) : Z :=
  len (filter (N.eqb 10) (slice code 0 i)).

Definition columnOf (code : jsstring) (i : Z) : Z :=
  len (takeWhile notLineFeed (rev (slice code 0 i))).

(** The removed range [r] and a record at [start] of the given [length]
    have to do with each other: the record neither ends at or before the
    start of the range nor starts at or after its end. *)
Definition touches (r : Range) (start length : Z) : Prop :=
  fst r < start + length /\ start < snd r.

(** Some range of the list touches the node. *)
Definition touched (ranges : list Range) (m : Node.t) : bool :=
  existsb (fun r => (fst r <? Node.start m + Node.length m)
                    && (Node.start m <? snd r)) ranges.

(** The total length of the ranges that end at or before an offset. *)
Definition removedBefore (ranges : list Range) (start : Z) : Z :=
  fold_right (fun r total => (if snd r <=? start then snd r - fst r else 0) + total)
             0 ranges.

(** The text [matched] is a filename marker with the name [name], followed
    by [rest]: two slashes, at most one white space, [@filename: ] and the
    name, which runs to the end of the line. *)
Definition markerOf (matched name rest : jsstring) : Prop :=
  exists sp,
    matched = str "//" ++ sp ++ str "@filename: " ++ name
    /\ (sp = [] \/ exists c, sp = [c] /\ isSpace c = true)
    /\ name <> []
    /\ Forall (fun c => isLineTerminator c = false) name
    /\ (rest = [] \/ exists c rest', rest = c :: rest' /\ isLineTerminator c = true).

(** The value of the property [key] of an object itself, [None] when the
    object has no such property. *)
Definition property (o : Obj) (key : jsstring) : option jsvalue :=
  option_map snd (find (fun kv => jsstring_eqb (fst kv) key) (rev o)).


(** The node the loop over the flags adds for a custom tag. *)
Definition tagNode (flag : Flag.t) : Node.t :=
  Node.mk type_tag (Flag.end_ flag) 0 (TagInfo (Flag.name flag) (Flag.value flag)).

Definition isTag (flag : Flag.t) : bool := FlagType_eqb (Flag.type flag) flag_tag.

(** The directive sets the compiler option, or the behavior option, [key]. *)
Definition setsCompilerOption (key : jsstring) (flag : Flag.t) : bool :=
  FlagType_eqb (Flag.type flag) flag_compilerOptions
  && jsstring_eqb (Flag.name flag) key.

Definition setsHandbookOption (key : jsstring) (flag : Flag.t) : bool :=
  FlagType_eqb (Flag.type flag) flag_handbookOptions
  && jsstring_eqb (Flag.name flag) key.

(** Where the value of an option comes from: the last directive that sets
    it, else the options of the call, else the options of the instance,
    else the defaults. *)
Definition optionValue (directive : option Flag.t) (ofCall ofInstance defaults : Obj)
    (key : jsstring) : jsvalue :=
  match directive with
  | Some flag => Flag.value flag
  | None =>
      match property ofCall key with
      | Some v => v
      | None =>
          match property ofInstance key with
          | Some v => v
          | None => objGet defaults key
          end
      end
  end.

(** The node moved down by the length of the ranges before it. *)
Definition moved (ranges : list Range) (m : Node.t) : Node.t :=
  Node.setStart m (Node.start m - removedBefore ranges (Node.start m)).

(** The diagnostic is reported for the file: it is of the path of the
    file, its code is not listed in [noErrors], and with [noErrorsCutted]
    its start in the whole text is in no removal. *)
Definition reported (createOptions : CreateOptions.t) (meta : Meta.t)
    (file : VirtualFile) (d : Diagnostic.t) : bool :=
  match Diagnostic.fileName d with
  | Some fileName =>
      jsstring_eqb fileName (CreateOptions.fsRoot createOptions ++ filename file)
  | None => false
  end
  && negb match objGet (Meta.handbookOptions meta) (str "noErrors") with
          | VArray items => existsb (isNumber (Diagnostic.code d)) items
          | _ => false
          end
  && negb (truthy (objGet (Meta.handbookOptions meta) (str "noErrorsCutted"))
           && existsb (isInRange (Diagnostic.start d + offset file))
                      (Meta.removals meta)).

(** The span a match of a notation is removed with: the match and the code
    unit after it. *)
Definition matchSpan (m : RegExpMatch) : Range :=
  (Match.index m, Match.index m + len (Match.matched m) + 1).

(* ================================================================== *)
(** * Instances for examples *)

Module Sample.

(** Case mapping of the ASCII letters. *)
Definition lower (s : jsstring) : jsstring :=
  map (fun c => if (N.leb 65 c && N.leb c 90)%bool then (c + 32)%N else c) s.

Definition isDigit (c : N) : bool := (N.leb 48 c && N.leb c 57)%bool.

(** The number a string of decimal digits denotes; [NaN] for the other
    strings the examples use, words that start with a letter. *)
Definition number (s : jsstring) : jsnumber :=
  match s with
  | [] => NNum 0
  | _ :: _ =>
      if forallb isDigit s
      then NNum (inject_Z (fold_left (fun acc c => acc * 10 + (Z.of_N c - 48)) s 0))
      else NNaN
  end.

(** The rendering of an integer, of [NaN] and of the infinities. *)
Definition render (n : jsnumber) : jsstring :=
  match n with
  | NNum q => numToString (Qnum q)
  | NNaN => str "NaN"
  | NInfinity false => str "Infinity"
  | NInfinity true => str "-Infinity"
  end.

(** The text of the built-in function under a name of [Object.prototype]. *)
Definition functionText (name : jsstring) : jsstring :=
  str "function "
  ++ (if jsstring_eqb name (str "constructor") then str "Object" else name)
  ++ str "() { [native code] }".

Definition runtime : Runtime := mkRuntime lower lower number render functionText.

(** A regular expression without a match in the text. *)
Definition noMatch : RegExp := fun _ => [].

(** A backend that knows nothing: no identifiers, no quick info, no
    completions, no diagnostics, no output. *)
Definition silent : Backend :=
  mkBackend (fun _ _ => []) (fun _ _ _ => None) (fun _ _ _ => None)
            (fun _ _ => []) (fun _ _ => []) (fun _ _ => []).

Definition createOptions : CreateOptions.t :=
  CreateOptions.mk [] [] None None None [] (str "/").

Definition ranges : list Range := [(5, 8); (1, 3); (2, 4); (8, 9)].

(** A range that covers no offset. *)
Definition emptyRange : list Range := [(3, 3)].

(** A hover node without text at an offset. *)
Definition nodeAt (start length : Z) : Node.t :=
  Node.mk type_hover start length (HoverInfo [] None []).

(** The text of the two lines ["ab"] and ["cd"]. *)
Definition twoLines : jsstring := str "ab" ++ nl ++ str "cd".

(** Behavior options with their defaults, all of them off. *)
Definition handbookDefaults : Obj :=
  [ (str "errors", VArray []); (str "noErrors", VBool false);
    (str "noErrorsCutted", VBool false); (str "noErrorValidation", VBool false);
    (str "noStaticSemanticInfo", VBool false); (str "showEmit", VBool false);
    (str "showEmittedFile", VUndefined); (str "keepNotations", VBool false) ].

(** What [matchAll] gives for the one line [// @foo]. *)
Definition fooDirective : RegExp :=
  fun _ => [Match.mk 0 (str "// @foo") [Some (str "foo")]].

(** No validation error. *)
Definition accept : list Node.t -> Obj -> jsstring -> result unit :=
  fun _ _ _ => Ok tt.

(** What [matchAll] gives for the one line [// @noErrors]. *)
Definition noErrorsDirective : RegExp :=
  fun _ => [Match.mk 0 (str "// @noErrors") [Some (str "noErrors")]].

(** The file of the text [let abc = 1]. *)
Definition file : VirtualFile :=
  virtualFile (str "/") (str "index.ts") 0 (str "let abc = 1").

(** The meta object of a run on that text with the given removals. *)
Definition metaWithRemovals (removals : list Range) : Meta.t :=
  Meta.mk (ext_string (str "ts")) [] handbookDefaults removals [] [file] [] [] [].

(** What [matchAll] gives for a text with one cut marker, at [index]. *)
Definition cutMarkerAt (index : Z) (marker : string) : RegExp :=
  fun _ => [Match.mk index (str marker) []].

(** The [Map] of an enumerated option. *)
Definition jsxMap : Obj :=
  [(str "preserve", VInt 1); (str "react", VInt 2)].

Definition executeOptions (handbookOptions : Obj) : ExecuteOptions.t :=
  ExecuteOptions.mk [] handbookOptions None None None None None None.

(** A run on [code] as TypeScript, from an empty log: only
    [reConfigBoolean] finds anything in the code, the silent backend
    answers, and [handbookOptions] are the options of the call. *)
Definition run (reConfigBoolean : RegExp) (handbookOptions : Obj)
    (code : jsstring) : Log * result TwoSlashReturn :=
  twoslasher runtime [] handbookDefaults reConfigBoolean noMatch noMatch
    noMatch noMatch noMatch noMatch accept silent createOptions
    code (str "ts") (executeOptions handbookOptions) [].

(** The flags a scan of [code] finds, with the same instances. *)
Definition scanned (reConfigBoolean : RegExp) (handbookOptions : Obj)
    (code : jsstring) : result (Meta.t * list Node.t) :=
  scan runtime [] handbookDefaults reConfigBoolean noMatch createOptions
    code (str "ts") (executeOptions handbookOptions).


(** A text of two files, the second one named by a marker. *)
Definition twoFiles : jsstring :=
  str "let a = 1" ++ nl ++ str "// @filename: b.ts" ++ nl ++ str "let b = 2".

(** A run on [code] as TypeScript, from an empty log, with [foo] as a
    custom tag: only [reConfigBoolean] finds anything in the code, and the
    silent backend answers. *)
Definition runTagged (reConfigBoolean : RegExp) (code : jsstring)
    : Log * result TwoSlashReturn :=
  twoslasher runtime [] handbookDefaults reConfigBoolean noMatch noMatch
    noMatch noMatch noMatch noMatch accept silent createOptions
    code (str "ts")
    (ExecuteOptions.mk [] [] (Some [str "foo"]) None None None None None) [].

(** A backend that emits one file, [/index.js], whatever it is asked to
    emit, and knows nothing else. *)
Definition emitting : Backend :=
  mkBackend (fun _ _ => []) (fun _ _ _ => None) (fun _ _ _ => None)
            (fun _ _ => []) (fun _ _ => [])
            (fun _ _ => [OutputFile.mk (str "/index.js") (str "var a = 1")]).

(** A run on [code] as TypeScript with [showEmit] on, from an empty log:
    no notation is found in the code, and the emitting backend answers. *)
Definition runEmit (code : jsstring) : Log * result TwoSlashReturn :=
  twoslasher runtime [] handbookDefaults noMatch noMatch noMatch
    noMatch noMatch noMatch noMatch accept emitting createOptions
    code (str "ts") (executeOptions [(str "showEmit", VBool true)]) [].

Definition secondFile : VirtualFile :=
  mkFile 10 (str "b.ts") (str "/b.ts")
         (str "// @filename: b.ts" ++ nl ++ str "let b = 2") (str "ts").

End Sample.

(* ================================================================== *)
(** * Properties *)
(** ** Sorting *)
Section SortFacts.
Variable A : Type.
Variable cmp : A -> A -> Z.

Lemma insertSorted_perm x l : Permutation (insertSorted cmp x l) (x :: l).
Proof.
  induction l as [|y t IH]; simpl; [reflexivity|].
  destruct (0 <? cmp x y); [|reflexivity].
  rewrite IH. apply perm_swap.
Qed.

Lemma sort_perm l : Permutation (JS.sort cmp l) l.
Proof.
  induction l as [|x t IH]; simpl; [constructor|].
  rewrite insertSorted_perm. now constructor.
Qed.

Lemma sort_length l : List.length (JS.sort cmp l) = List.length l.
Proof. apply Permutation_length, sort_perm. Qed.

(** The comparison function orders by an integer key, as
    [(a, b) => a[0] - b[0]] does, possibly refined on equal keys. *)
Variable le : A -> A -> Prop.
Hypothesis le_trans : forall a b c, le a b -> le b c -> le a c.
Hypothesis cmp_le : forall a b, cmp a b <= 0 -> le a b.
Hypothesis cmp_gt : forall a b, 0 < cmp a b -> le b a.

Lemma insertSorted_sorted x l :
  StronglySorted le l -> StronglySorted le (insertSorted cmp x l).
Proof.
  induction 1 as [|y t Ht IH Hy]; simpl.
  - repeat constructor.
  - destruct (0 <? cmp x y) eqn:E.
    + apply Z.ltb_lt in E. constructor; [exact IH|].
      apply Forall_forall. intros a Ha.
      apply (Permutation_in _ (insertSorted_perm x t)) in Ha.
      destruct Ha as [<-|Ha]; [auto|].
      rewrite Forall_forall in Hy. auto.
    + apply Z.ltb_ge in E. constructor.
      * now constructor.
      * constructor; [now apply cmp_le|].
        eapply Forall_impl; [|exact Hy]. intros a Ha.
        eapply le_trans; eauto.
Qed.

Lemma sort_sorted l : StronglySorted le (JS.sort cmp l).
Proof.
  induction l as [|x t IH]; simpl; [constructor|].
  now apply insertSorted_sorted.
Qed.
End SortFacts.

Lemma sort_by_start_sorted (l : list Range) :
  StronglySorted (fun a b => fst a <= fst b) (JS.sort byStart l).
Proof. apply sort_sorted; unfold byStart; intros; lia. Qed.

(** A list that is already in order is left as it is. *)
Lemma sort_id (A : Type) (cmp : A -> A -> Z) (l : list A) :
  StronglySorted (fun a b => cmp a b <= 0) l -> JS.sort cmp l = l.
Proof.
  induction 1 as [|x t Ht IH Hx]; simpl; [reflexivity|].
  rewrite IH. destruct t as [|y t']; simpl; [reflexivity|].
  inversion Hx; subst.
  destruct (0 <? cmp x y) eqn:E; [apply Z.ltb_lt in E; lia | reflexivity].
Qed.

(** ** mergeRanges *)

Lemma covers_cons r l x : covers (r :: l) x <-> (fst r <= x < snd r) \/ covers l x.
Proof.
  unfold covers; split.
  - intros [q [[->|Hin] Hq]]; [now left | right; eauto].
  - intros [H|[q [Hin Hq]]]; [exists r | exists q]; simpl; auto.
Qed.

Lemma covers_nil x : ~ covers [] x.
Proof. intros [q [[] _]]. Qed.

Lemma mergeFrom_head last rest :
  exists e tl, mergeFrom last rest = (fst last, e) :: tl /\ snd last <= e.
Proof.
  revert last; induction rest as [|r rest IH]; intros last; simpl.
  - exists (snd last), []. destruct last; simpl; split; [reflexivity|lia].
  - destruct (snd last >=? fst r) eqn:E.
    + destruct (IH (fst last, Z.max (snd last) (snd r))) as (e & tl & -> & He).
      simpl in *. exists e, tl. split; [reflexivity|lia].
    + exists (snd last), (mergeFrom r rest). destruct last; simpl; split; [reflexivity|lia].
Qed.

Lemma mergeFrom_apart last rest :
  valid last -> Forall valid rest ->
  StronglySorted (fun a b => fst a <= fst b) (last :: rest) ->
  StronglySorted apart (mergeFrom last rest) /\ Forall valid (mergeFrom last rest).
Proof.
  revert last; induction rest as [|r rest IH]; intros last Hv Hvs Hs; simpl.
  - split; repeat constructor; assumption.
  - inversion Hvs as [|? ? Hr Hrest]; subst.
    inversion Hs as [|? ? Hs' Hall]; subst.
    inversion Hs' as [|? ? Hs'' Hall']; subst.
    inversion Hall as [|? ? Hlr Hall'']; subst.
    destruct (snd last >=? fst r) eqn:E.
    + apply IH; unfold valid in *; simpl; [lia|assumption|].
      constructor; [assumption|].
      simpl. assumption.
    + assert (Hlt : snd last < fst r) by lia.
      destruct (IH r Hr Hrest Hs') as [Hap Hva].
      split; [|constructor; assumption].
      constructor; [assumption|].
      destruct (mergeFrom_head r rest) as (e & tl & Heq & He).
      rewrite Heq in *. inversion Hap as [|? ? Hap' Hfa]; subst.
      inversion Hva as [|? ? Hve Hvtl]; subst.
      constructor; [unfold apart; simpl; lia|].
      clear - Hfa Hlt Hvtl Hve. unfold apart, valid in *; simpl in *.
      rewrite Forall_forall in *. intros b Hb.
      specialize (Hfa b Hb). lia.
Qed.

Lemma mergeFrom_covers last rest x :
  StronglySorted (fun a b => fst a <= fst b) (last :: rest) ->
  covers (mergeFrom last rest) x <-> covers (last :: rest) x.
Proof.
  revert last; induction rest as [|r rest IH]; intros last Hs; simpl.
  - reflexivity.
  - inversion Hs as [|? ? Hs' Hall]; subst.
    inversion Hs' as [|? ? Hs'' Hall']; subst.
    inversion Hall as [|? ? Hlr Hall'']; subst.
    destruct (snd last >=? fst r) eqn:E.
    + rewrite IH.
      * rewrite !covers_cons. simpl.
        apply Z.geb_le in E.
        assert (fst last <= x < Z.max (snd last) (snd r) <->
                fst last <= x < snd last \/ fst r <= x < snd r) by lia.
        tauto.
      * constructor; assumption.
    + rewrite covers_cons, IH by assumption.
      rewrite !covers_cons. tauto.
Qed.

Lemma covers_perm l l' x : Permutation l l' -> covers l x <-> covers l' x.
Proof.
  intros Hp. unfold covers. split; intros [r [Hin Hr]]; exists r; split; auto.
  - eapply Permutation_in; eauto.
  - eapply Permutation_in; [symmetry|]; eauto.
Qed.

Lemma mergeRanges_covers ranges x : covers (mergeRanges ranges) x <-> covers ranges x.
Proof.
  unfold mergeRanges.
  pose proof (sort_by_start_sorted ranges) as Hs.
  pose proof (sort_perm byStart ranges) as Hp.
  destruct (JS.sort byStart ranges) as [|first rest].
  - now apply covers_perm.
  - rewrite mergeFrom_covers by assumption. now apply covers_perm.
Qed.

Lemma Forall_perm (A : Type) (P : A -> Prop) l l' :
  Permutation l l' -> Forall P l -> Forall P l'.
Proof.
  intros Hp H. rewrite Forall_forall in *. intros a Ha.
  apply H. eapply Permutation_in; [symmetry|]; eauto.
Qed.

Lemma mergeRanges_apart ranges :
  Forall valid ranges ->
  StronglySorted apart (mergeRanges ranges) /\ Forall valid (mergeRanges ranges).
Proof.
  intros Hv. unfold mergeRanges.
  pose proof (sort_by_start_sorted ranges) as Hs.
  pose proof (sort_perm byStart ranges) as Hp.
  apply (Forall_perm (Permutation_sym Hp)) in Hv.
  destruct (JS.sort byStart ranges) as [|first rest].
  - split; constructor.
  - inversion Hv; subst. now apply mergeFrom_apart.
Qed.

Lemma mergeFrom_nonEmpty last rest :
  nonEmpty last -> Forall nonEmpty rest -> Forall nonEmpty (mergeFrom last rest).
Proof.
  revert last; induction rest as [|r rest IH]; intros last Hl Hr; simpl.
  - now constructor.
  - inversion Hr; subst. destruct (snd last >=? fst r).
    + apply IH; [unfold nonEmpty in *; simpl; lia | assumption].
    + constructor; auto.
Qed.

Lemma mergeRanges_nonEmpty ranges :
  Forall nonEmpty ranges -> Forall nonEmpty (mergeRanges ranges).
Proof.
  intros Hv. unfold mergeRanges.
  pose proof (sort_perm byStart ranges) as Hp.
  apply (Forall_perm (Permutation_sym Hp)) in Hv.
  destruct (JS.sort byStart ranges) as [|first rest]; [constructor|].
  inversion Hv; subst. now apply mergeFrom_nonEmpty.
Qed.

Lemma filter_length_lt (A : Type) (f : A -> bool) (l : list A) (x : A) :
  In x l -> f x = false -> (List.length (filter f l) < List.length l)%nat.
Proof.
  induction l as [|a l IH]; simpl; [contradiction|].
  intros [->|Hin] Hf.
  - rewrite Hf. pose proof (filter_length_le f l). lia.
  - specialize (IH Hin Hf). destruct (f a); simpl; lia.
Qed.

(** No list of ranges with the same union is shorter than a list of
    non-empty ranges that lie strictly apart. *)
Lemma apart_minimal (m : list Range) :
  StronglySorted apart m -> Forall nonEmpty m ->
  forall c : list Range,
    (forall x, covers c x <-> covers m x) ->
    (List.length m <= List.length c)%nat.
Proof.
  induction 1 as [|a m Hs IH Ha]; intros Hne c Hc; simpl; [lia|].
  inversion Hne as [|? ? Hna Hnm]; subst.
  rewrite Forall_forall in Ha. unfold apart, nonEmpty in *.
  set (keep := fun r : Range => snd a <? fst r).
  assert (Hrest : forall x, covers (filter keep c) x <-> covers m x).
  { intros x. split.
    - intros [r [Hin Hr]]. apply filter_In in Hin as [Hin Hk].
      unfold keep in Hk. apply Z.ltb_lt in Hk.
      assert (Hx : covers (a :: m) x) by (apply Hc; exists r; auto).
      apply covers_cons in Hx as [Hx|Hx]; [lia|assumption].
    - intros Hx.
      assert (Hx' : covers c x) by (apply Hc, covers_cons; auto).
      destruct Hx' as [r [Hin Hr]]. exists r. split; [|assumption].
      apply filter_In; split; [assumption|].
      unfold keep. apply Z.ltb_lt.
      destruct Hx as [b [Hb Hxb]]. pose proof (Ha b Hb) as Hab.
      (* [snd a] is not covered, so [r] starts after it *)
      destruct (Z_lt_le_dec (snd a) (fst r)) as [?|Hle]; [assumption|exfalso].
      assert (Hcov : covers (a :: m) (snd a)).
      { apply Hc. exists r. split; [assumption|lia]. }
      apply covers_cons in Hcov as [Hcov|[b' [Hb' Hcov]]]; [lia|].
      specialize (Ha b' Hb'). lia. }
  specialize (IH Hnm (filter keep c) Hrest).
  (* the range of [c] that covers [fst a] is not kept *)
  assert (Hfa : covers c (fst a)).
  { apply Hc, covers_cons. left. lia. }
  destruct Hfa as [r [Hin Hr]].
  assert (Hk : keep r = false).
  { unfold keep. apply Z.ltb_ge. lia. }
  pose proof (filter_length_lt keep c r Hin Hk). lia.
Qed.

Lemma apart_ascending (m : list Range) :
  StronglySorted apart m -> Forall valid m ->
  StronglySorted (fun a b => fst a < fst b) m.
Proof.
  induction 1 as [|a m Hs IH Ha]; intros Hv; [constructor|].
  inversion Hv; subst. constructor; [auto|].
  eapply Forall_impl; [|exact Ha]. unfold apart, valid in *. intros; lia.
Qed.

(** C7 (amended): for ranges with [start <= end], [mergeRanges] returns a
    list in ascending order of start in which every range ends strictly
    before the next one starts, and which covers the same offsets as the
    input; when every input range is non-empty ([start < end]), no list of
    ranges that covers these offsets is shorter. *)
Theorem mergeRanges_disjoint_cover (ranges : list Range) :
  Forall valid ranges ->
  StronglySorted (fun a b => fst a < fst b) (mergeRanges ranges)
  /\ StronglySorted apart (mergeRanges ranges)
  /\ (forall x, covers (mergeRanges ranges) x <-> covers ranges x)
  /\ (Forall nonEmpty ranges ->
      forall c : list Range,
        (forall x, covers c x <-> covers ranges x) ->
        (List.length (mergeRanges ranges) <= List.length c)%nat).
Proof.
  intros Hv. destruct (mergeRanges_apart Hv) as [Hap Hva].
  repeat split.
  - now apply apart_ascending.
  - assumption.
  - apply mergeRanges_covers.
  - apply mergeRanges_covers.
  - intros Hne c Hc. apply apart_minimal.
    + assumption.
    + now apply mergeRanges_nonEmpty.
    + intros x. rewrite Hc. symmetry. apply mergeRanges_covers.
Qed.

Lemma mergeRanges_disjoint_cover_witness :
  StronglySorted (fun a b => fst a < fst b) (mergeRanges Sample.ranges)
  /\ StronglySorted apart (mergeRanges Sample.ranges)
  /\ (forall x, covers (mergeRanges Sample.ranges) x
               <-> covers Sample.ranges x)
  /\ (Forall nonEmpty Sample.ranges ->
      forall c : list Range,
        (forall x, covers c x <-> covers Sample.ranges x) ->
        (List.length (mergeRanges Sample.ranges) <= List.length c)%nat).
Proof.
  apply (@mergeRanges_disjoint_cover Sample.ranges).
  unfold Sample.ranges. repeat constructor; unfold valid; simpl; lia.
Defined.

Example mergeRanges_example :
  mergeRanges [(5, 8); (1, 3); (2, 4); (8, 9)] = [(1, 4); (5, 9)].
Proof. reflexivity. Qed.

(** C7, as stated, fails on an empty range: [mergeRanges] keeps the range
    [3, 3), which covers no offset, so the empty list covers the same
    offsets with fewer ranges. *)
Lemma mergeRanges_keeps_empty_range :
  Forall valid Sample.emptyRange
  /\ mergeRanges Sample.emptyRange = Sample.emptyRange
  /\ (forall x, covers [] x <-> covers Sample.emptyRange x)
  /\ (List.length (@nil Range) < List.length (mergeRanges Sample.emptyRange))%nat.
Proof.
  unfold Sample.emptyRange.
  split; [repeat constructor; unfold valid; simpl; lia|].
  split; [reflexivity|]. split; [|simpl; lia].
  intros x. split.
  - intros H. now apply covers_nil in H.
  - intros [r [[<-|[]] Hr]]. simpl in Hr. lia.
Qed.

(** ** isInRange *)

Lemma isInRange_spec i s e : isInRange i (s, e) = true <-> s <= i <= e.
Proof.
  unfold isInRange; simpl. rewrite andb_true_iff, !Z.leb_le. tauto.
Qed.

Lemma isInRanges_end (ranges : list Range) s e :
  In (s, e) ranges -> s <= e -> isInRanges e ranges <> None.
Proof.
  intros Hin Hle. unfold isInRanges. intros Hnone.
  apply (find_none _ _ Hnone) in Hin.
  assert (isInRange e (s, e) = true) by (apply isInRange_spec; lia).
  congruence.
Qed.

(** C10: membership in a range counts both ends, [isInRange(i, [s, e])]
    holds exactly when [s <= i <= e]; so an identifier that starts at the
    end offset of a removal is skipped by the hover collection: no quick
    info is asked for it and no node is added. *)
Theorem isInRange_inclusive (i s e : Z) :
  (isInRange i (s, e) = true <-> s <= i <= e)
  /\ forall backend createOptions options meta file nodes (end_ : Z) target log,
       In (s, e) (Meta.removals meta) -> s <= e ->
       hoverOf backend createOptions options meta file nodes (e, end_, target) log
       = (log, Ok nodes).
Proof.
  split; [apply isInRange_spec|].
  intros backend createOptions options meta file nodes end_ target log Hin Hle.
  unfold hoverOf, isInRemoval; simpl.
  destruct (isInRanges e (Meta.removals meta)) eqn:E; [reflexivity|].
  exfalso. revert E. now apply isInRanges_end with (s := s).
Qed.

Lemma isInRange_inclusive_witness :
  hoverOf Sample.silent Sample.createOptions (Sample.executeOptions [])
    (Sample.metaWithRemovals [(0, 4)]) Sample.file [] (4, 7, str "abc") []
  = ([], Ok []).
Proof.
  apply (proj2 (isInRange_inclusive 4 0 4)); [simpl; auto | lia].
Defined.

(** ** removeCodeRanges *)

Lemma nth_error_writeAt_eq (st : Store) ref node node' :
  nth_error st ref = Some node -> nth_error (writeAt st ref node') ref = Some node'.
Proof.
  revert ref; induction st as [|n st IH]; intros [|ref]; simpl; try discriminate; auto.
Qed.

Lemma nth_error_writeAt_ne (st : Store) ref ref' node' :
  ref <> ref' -> nth_error (writeAt st ref node') ref' = nth_error st ref'.
Proof.
  revert ref ref'; induction st as [|n st IH]; intros [|ref] [|ref'] Hne; simpl;
    try reflexivity; try congruence.
  apply IH. congruence.
Qed.

Lemma setStart_same node : Node.setStart node (Node.start node) = node.
Proof. now destruct node. Qed.

Lemma visitNode_at remove (st : Store) ref node :
  nth_error st ref = Some node ->
  nth_error (visitNode remove st ref) ref
  = Some (Node.setStart node
            (reconciled (fst remove) (snd remove) (Node.start node) (Node.length node))).
Proof.
  intros H. unfold visitNode, reconciled. rewrite H.
  destruct (Node.start node + Node.length node <=? fst remove).
  - now rewrite setStart_same.
  - destruct (Node.start node <? snd remove);
      (erewrite nth_error_writeAt_eq; [reflexivity|eassumption]).
Qed.

Lemma visitNode_other remove (st : Store) ref ref' :
  ref <> ref' -> nth_error (visitNode remove st ref) ref' = nth_error st ref'.
Proof.
  intros Hne. unfold visitNode.
  destruct (nth_error st ref) as [node|]; [|reflexivity].
  destruct (Node.start node + Node.length node <=? fst remove); [reflexivity|].
  destruct (Node.start node <? snd remove); now apply nth_error_writeAt_ne.
Qed.

Lemma visit_others remove refs (st : Store) ref :
  ~ In ref refs ->
  nth_error (fold_left (visitNode remove) refs st) ref = nth_error st ref.
Proof.
  revert st; induction refs as [|r refs IH]; intros st Hnin; simpl; [reflexivity|].
  rewrite IH by (intros H; apply Hnin; now right).
  apply visitNode_other. intros ->. apply Hnin. now left.
Qed.

(** One round of [forEach] over distinct node objects applies the rule once
    to each of them. *)
Lemma forEach_reconciles remove refs (st : Store) ref node :
  NoDup refs -> In ref refs -> nth_error st ref = Some node ->
  nth_error (fold_left (visitNode remove) refs st) ref
  = Some (Node.setStart node
            (reconciled (fst remove) (snd remove) (Node.start node) (Node.length node))).
Proof.
  revert st; induction refs as [|r refs IH]; intros st Hnd Hin Hst; [contradiction|].
  inversion Hnd as [|? ? Hnotin Hnd']; subst. simpl.
  destruct (Nat.eq_dec r ref) as [->|Hne].
  - rewrite visit_others by assumption. now apply visitNode_at.
  - destruct Hin as [->|Hin]; [contradiction|].
    apply IH; try assumption.
    now rewrite visitNode_other.
Qed.

Lemma rounds_reconcile refs ranges :
  NoDup refs ->
  forall text (st : Store) ref node,
    In ref refs -> nth_error st ref = Some node ->
    nth_error (snd (fold_left (removeRange (Some refs)) ranges (text, st))) ref
    = Some (Node.setStart node
              (reconciledAll ranges (Node.start node) (Node.length node))).
Proof.
  intros Hnd. induction ranges as [|r ranges IH]; intros text st ref node Hin Hst; simpl.
  - unfold reconciledAll; simpl. now rewrite setStart_same.
  - unfold removeRange at 2; simpl.
    erewrite IH; [|assumption|apply forEach_reconciles; eassumption].
    reflexivity.
Qed.

Lemma rounds_splice nodes ranges :
  forall text (st : Store),
    fst (fold_left (removeRange nodes) ranges (text, st))
    = fold_left spliced ranges text.
Proof.
  induction ranges as [|r ranges IH]; intros text st; simpl; [reflexivity|].
  unfold removeRange at 2; simpl. apply IH.
Qed.

Lemma writeAt_length (st : Store) ref node :
  List.length (writeAt st ref node) = List.length st.
Proof.
  revert ref; induction st as [|n st IH]; intros [|ref]; simpl; auto.
Qed.

Lemma visitNode_length remove (st : Store) ref :
  List.length (visitNode remove st ref) = List.length st.
Proof.
  unfold visitNode. destruct (nth_error st ref) as [node|]; [|reflexivity].
  destruct (_ <=? _); [reflexivity|].
  destruct (_ <? _); apply writeAt_length.
Qed.

Lemma forEach_length remove refs :
  forall st : Store,
    List.length (fold_left (visitNode remove) refs st) = List.length st.
Proof.
  induction refs as [|r refs IH]; intros st; simpl; [reflexivity|].
  now rewrite IH, visitNode_length.
Qed.

Lemma rounds_length nodes ranges :
  forall text (st : Store),
    List.length (snd (fold_left (removeRange nodes) ranges (text, st)))
    = List.length st.
Proof.
  induction ranges as [|r ranges IH]; intros text st; simpl; [reflexivity|].
  unfold removeRange at 2; simpl. rewrite IH.
  destruct nodes as [refs|]; [apply forEach_length | reflexivity].
Qed.

(** On an array of distinct node objects every node gets the rule for
    every range. *)
Lemma removeCodeRangesOf_nodes (code : jsstring) (removals : list Range)
    (nodes : list Node.t) :
  removedStore (removeCodeRangesOf code removals nodes)
  = map (fun node =>
           Node.setStart node
             (reconciledAll (JS.sort byStartDescending (mergeRanges removals))
                (Node.start node) (Node.length node)))
        nodes.
Proof.
  unfold removeCodeRangesOf, removeCodeRanges; simpl.
  apply nth_error_ext. intros i.
  destruct (nth_error nodes i) as [node|] eqn:E.
  - erewrite rounds_reconcile; [|apply seq_NoDup| |eassumption].
    + symmetry.
      apply (map_nth_error
               (fun node : Node.t =>
                  Node.setStart node
                    (reconciledAll (JS.sort byStartDescending (mergeRanges removals))
                       (Node.start node) (Node.length node)))
               i nodes E).
    + apply in_seq. assert (nth_error nodes i <> None) by congruence.
      apply nth_error_Some in H. lia.
  - apply nth_error_None in E.
    transitivity (@None Node.t); [|symmetry]; apply nth_error_None.
    + now rewrite rounds_length.
    + now rewrite length_map.
Qed.

(** C1: [removeCodeRanges] handles the merged ranges one after the other,
    from the highest start down. Each round splices the range [s, e) out
    of the text, and for every record: if [start + length <= s] the record
    stays as it is, else if [start < e] its [start] becomes -1, otherwise
    its [start] decreases by [e - s]. This holds for every text, every
    list of removals and every list of records; for records held by
    reference, every record the array holds once. Removing [2, 5) from
    ["abcdefghij"] gives ["abfghij"], moves a record at 6 of length 1 to 3
    and invalidates a record at 3 of length 1. *)
Theorem removeCodeRanges_reconciles (code : jsstring) (removals : list Range) :
  (forall nodes st,
     removedRanges (removeCodeRanges code removals nodes st)
     = JS.sort byStartDescending (mergeRanges removals)
     /\ removedCode (removeCodeRanges code removals nodes st)
        = fold_left spliced (JS.sort byStartDescending (mergeRanges removals)) code)
  /\ (forall nodes : list Node.t,
        removedStore (removeCodeRangesOf code removals nodes)
        = map (fun node =>
                 Node.setStart node
                   (reconciledAll (JS.sort byStartDescending (mergeRanges removals))
                      (Node.start node) (Node.length node)))
              nodes)
  /\ (forall (refs : list nat) (st : Store) ref node,
        NoDup refs -> In ref refs -> nth_error st ref = Some node ->
        nth_error (removedStore (removeCodeRanges code removals (Some refs) st)) ref
        = Some (Node.setStart node
                  (reconciledAll (JS.sort byStartDescending (mergeRanges removals))
                     (Node.start node) (Node.length node))))
  /\ (forall s e start length,
        reconciled s e start length
        = if start + length <=? s then start
          else if start <? e then -1 else start - (e - s))
  /\ removedCode (removeCodeRangesOf (str "abcdefghij") [(2, 5)]
                    [Sample.nodeAt 6 1; Sample.nodeAt 3 1])
     = str "abfghij"
  /\ map Node.start
         (removedStore (removeCodeRangesOf (str "abcdefghij") [(2, 5)]
                          [Sample.nodeAt 6 1; Sample.nodeAt 3 1]))
     = [3; -1].
Proof.
  split; [|split; [|split; [|split; [|split]]]].
  - intros nodes st. unfold removeCodeRanges; simpl.
    split; [reflexivity|apply rounds_splice].
  - apply removeCodeRangesOf_nodes.
  - intros refs st ref node Hnd Hin Hst. unfold removeCodeRanges; simpl.
    now apply rounds_reconcile.
  - reflexivity.
  - reflexivity.
  - reflexivity.
Qed.

Lemma removeCodeRanges_reconciles_witness :
  nth_error (removedStore (removeCodeRanges (str "abcdefghij") [(2, 5); (4, 6)]
                             (Some [0; 1]%nat)
                             [Sample.nodeAt 6 1; Sample.nodeAt 3 1])) 0
  = Some (Node.setStart (Sample.nodeAt 6 1)
            (reconciledAll (JS.sort byStartDescending (mergeRanges [(2, 5); (4, 6)])) 6 1)).
Proof.
  assert (Hnd : NoDup [0; 1]%nat).
  { repeat constructor; simpl; intuition discriminate. }
  destruct (removeCodeRanges_reconciles (str "abcdefghij") [(2, 5); (4, 6)])
    as (_ & _ & H & _).
  apply H; simpl; auto.
Defined.

(** ** resolveNodePositions *)

Lemma localeCompare_antisym a b : localeCompare b a = - localeCompare a b.
Proof.
  revert b; induction a as [|x a IH]; intros [|y b]; simpl; try reflexivity.
  rewrite (N.compare_antisym x y).
  destruct (N.compare x y); simpl; auto.
Qed.

Lemma localeCompare_trans a b c :
  localeCompare a b <= 0 -> localeCompare b c <= 0 -> localeCompare a c <= 0.
Proof.
  revert b c; induction a as [|x a IH]; intros [|y b] [|z c]; simpl; try lia.
  destruct (N.compare_spec x y) as [->|Hxy|Hxy]; try lia.
  - destruct (N.compare_spec y z) as [->|Hyz|Hyz]; try lia. apply IH.
  - destruct (N.compare_spec y z) as [->|Hyz|Hyz]; try lia.
    + intros _ _. destruct (N.compare_spec x z); try lia.
    + intros _ _. destruct (N.compare_spec x z); subst; try lia.
Qed.

Lemma nodeLe_trans a b c : nodeLe a b -> nodeLe b c -> nodeLe a c.
Proof.
  unfold nodeLe. intros [H1|[H1 H1']] [H2|[H2 H2']]; try (left; lia).
  right. split; [lia|]. eapply localeCompare_trans; eauto.
Qed.

Lemma compareNodes_le a b : compareNodes a b <= 0 -> nodeLe a b.
Proof.
  unfold compareNodes, nodeLe.
  destruct (Z.eqb_spec (Node.start a - Node.start b) 0); intros H; [right|left]; lia.
Qed.

Lemma compareNodes_gt a b : 0 < compareNodes a b -> nodeLe b a.
Proof.
  unfold compareNodes, nodeLe.
  destruct (Z.eqb_spec (Node.start a - Node.start b) 0); intros H; [right|left]; try lia.
  split; [lia|]. rewrite localeCompare_antisym. lia.
Qed.

Lemma StronglySorted_map (A B : Type) (f : A -> B) (R : B -> B -> Prop) l :
  StronglySorted (fun a b => R (f a) (f b)) l -> StronglySorted R (map f l).
Proof.
  induction 1 as [|a l Hs IH Ha]; simpl; constructor; auto.
  rewrite Forall_forall in *. intros b Hb.
  apply in_map_iff in Hb as [x [<- Hx]]. auto.
Qed.

(** C8: the output of [resolveNodePositions] holds exactly the records with
    [start >= 0], each once and with the position of its [start]; it is in
    ascending order of [start], and records with the same [start] are in
    the order of the names of their kinds. *)
Theorem resolveNodePositions_sorted (nodes : list Node.t) (indexToPos : Z -> Position) :
  Permutation (map node (resolveNodePositions nodes indexToPos))
              (filter (fun n => 0 <=? Node.start n) nodes)
  /\ StronglySorted nodeLe (map node (resolveNodePositions nodes indexToPos))
  /\ Forall (fun r => position r = indexToPos (Node.start (node r)))
            (resolveNodePositions nodes indexToPos).
Proof.
  unfold resolveNodePositions. rewrite map_map; simpl. rewrite map_id.
  split; [|split].
  - rewrite sort_perm. 
    replace (filter (fun n => 0 <=? Node.start n) nodes)
      with (filter (fun node => Node.start node >=? 0) nodes); [reflexivity|].
    apply filter_ext. intros n. unfold Z.geb, Z.leb.
    rewrite (Z.compare_antisym 0 (Node.start n)).
    now destruct (0 ?= Node.start n).
  - apply sort_sorted.
    + apply nodeLe_trans.
    + apply compareNodes_le.
    + apply compareNodes_gt.
  - apply Forall_forall. intros r Hr. apply in_map_iff in Hr as [n [<- _]].
    reflexivity.
Qed.

(** ** createPositionConverter *)

Lemma len_nonneg (s : jsstring) : 0 <= len s.
Proof. unfold len. lia. Qed.

(** [indexToPos] stops after some [n] lines; the lengths of these lines
    and the column add up to the index, which is what the loop of
    [posToIndex] computes over [n] rounds. *)
Lemma indexToPosLoop_inverse (ls : list jsstring) :
  forall c l acc,
    exists n : nat,
      line (indexToPosLoop ls c l) = l + Z.of_nat n
      /\ posToIndexLoop ls n acc
         = Ok (acc + (c - character (indexToPosLoop ls c l))).
Proof.
  induction ls as [|lineText rest IH]; intros c l acc; simpl.
  - exists 0%nat. simpl. split; [lia | f_equal; lia].
  - destruct (c <? len lineText).
    + exists 0%nat. simpl. split; [lia | f_equal; lia].
    + destruct (IH (c - len lineText) (l + 1) (acc + len lineText)) as (n & Hl & Hp).
      exists (S n). simpl. split; [lia|].
      rewrite Hp. f_equal. lia.
Qed.

Lemma posToIndex_indexToPos (ls : list jsstring) (i : Z) :
  posToIndex ls (line (indexToPos ls i) + 1) (character (indexToPos ls i)) = Ok i.
Proof.
  unfold posToIndex, indexToPos.
  destruct (indexToPosLoop_inverse ls i 0 0) as (n & Hl & Hp).
  rewrite Hl. replace (Z.to_nat (0 + Z.of_nat n + 1 - 1)) with n by lia.
  rewrite Hp. f_equal. lia.
Qed.

Lemma position_inverse (n : nat) :
  forall (ls : list jsstring) lineText c l acc,
    nth_error ls n = Some lineText -> 0 <= c < len lineText ->
    exists total,
      0 <= total
      /\ posToIndexLoop ls n acc = Ok (acc + total)
      /\ indexToPosLoop ls (total + c) l = mkPosition (l + Z.of_nat n) c.
Proof.
  induction n as [|n IH]; intros [|first rest] lineText c l acc Hn Hc;
    simpl in Hn; try discriminate.
  - injection Hn as ->. exists 0. simpl.
    destruct (Z.ltb_spec c (len lineText)); [|lia].
    repeat split; [lia | f_equal; lia | f_equal; lia].
  - destruct (IH rest lineText c (l + 1) (acc + len first) Hn Hc)
      as (total & Ht & Hp & Hi).
    exists (len first + total). simpl.
    pose proof (len_nonneg first).
    destruct (Z.ltb_spec (len first + total + c) (len first)); [lia|].
    repeat split; [lia | rewrite Hp; f_equal; lia |].
    replace (len first + total + c - len first) with (total + c) by lia.
    rewrite Hi. f_equal. lia.
Qed.

Lemma indexToPos_posToIndex (ls : list jsstring) (p : Position) :
  validPosition ls p ->
  exists i, posToIndex ls (line p + 1) (character p) = Ok i /\ indexToPos ls i = p.
Proof.
  intros (lineText & Hl & Hn & Hc).
  destruct (position_inverse _ ls 0 0 Hn Hc) as (total & Ht & Hp & Hi).
  exists (total + character p). unfold posToIndex, indexToPos.
  replace (Z.to_nat (line p + 1 - 1)) with (Z.to_nat (line p)) by lia.
  rewrite Hp. split; [reflexivity|].
  rewrite Hi. destruct p as [l c]; simpl in *. f_equal. lia.
Qed.

Lemma posToIndexLoop_one_less (k : nat) :
  forall (ls : list jsstring) acc y lineText,
    posToIndexLoop ls (S k) acc = Ok y -> nth_error ls k = Some lineText ->
    posToIndexLoop ls k acc = Ok (y - len lineText).
Proof.
  induction k as [|k IH]; intros [|first rest] acc y lineText Hy Hk;
    try discriminate.
  - simpl in *. injection Hk as Hk. injection Hy as Hy. subst. f_equal. lia.
  - simpl in Hk. change (posToIndexLoop rest (S k) (acc + len first) = Ok y) in Hy.
    change (posToIndexLoop rest k (acc + len first) = Ok (y - len lineText)).
    now apply IH.
Qed.

(** What [getIndexOfLineAbove] is named for: from the second line on it
    gives the offset of the same column one line up. *)
Lemma getIndexOfLineAbove_above (ls : list jsstring) (i : Z) (lineAbove : jsstring) :
  1 <= line (indexToPos ls i) ->
  nth_error ls (Z.to_nat (line (indexToPos ls i) - 1)) = Some lineAbove ->
  getIndexOfLineAbove ls i = Ok (i - len lineAbove).
Proof.
  unfold getIndexOfLineAbove, posToIndex, indexToPos. intros Hl Hn.
  destruct (indexToPosLoop_inverse ls i 0 0) as (n & Hline & Hp).
  rewrite Hline in *.
  destruct n as [|k]; [lia|].
  replace (Z.to_nat (0 + Z.of_nat (S k) - 1)) with k in * by lia.
  rewrite (posToIndexLoop_one_less _ _ _ Hp Hn). f_equal. lia.
Qed.

(** C2, as stated, fails from the second line on. In the text of the lines
    ["ab"] and ["cd"], offset 4 is at line 1, column 1; [posToIndex(1, 1)]
    is 1, not 4, and [indexToPos(1)] is line 0, column 1. *)
Lemma posToIndex_counts_lines_from_one :
  lines Sample.twoLines = [str "ab" ++ nl; str "cd"; []]
  /\ indexToPos (lines Sample.twoLines) 4 = mkPosition 1 1
  /\ validPosition (lines Sample.twoLines) (mkPosition 1 1)
  /\ posToIndex (lines Sample.twoLines) 1 1 = Ok 1
  /\ posToIndex (lines Sample.twoLines) 1 1 <> Ok 4
  /\ indexToPos (lines Sample.twoLines) 1 = mkPosition 0 1
  /\ indexToPos (lines Sample.twoLines) 1 <> indexToPos (lines Sample.twoLines) 4.
Proof.
  split; [reflexivity|]. split; [reflexivity|].
  split; [exists (str "cd"); simpl; repeat split; try reflexivity; unfold len; simpl; lia|].
  split; [reflexivity|]. split; [discriminate|].
  split; [reflexivity|discriminate].
Qed.

(** ** What removeCodeRanges leaves of the text *)

Lemma covered_covers ranges i : covered ranges i = true <-> covers ranges i.
Proof.
  unfold covered, covers. rewrite existsb_exists.
  split; intros [r [Hin Hr]]; exists r; split; auto.
  - apply andb_true_iff in Hr as [H1 H2]. apply Z.leb_le in H1. apply Z.ltb_lt in H2. lia.
  - apply andb_true_iff. split; [apply Z.leb_le | apply Z.ltb_lt]; lia.
Qed.

Lemma covered_ext (m n : list Range) :
  (forall x, covers m x <-> covers n x) -> forall i, covered m i = covered n i.
Proof.
  intros H i. destruct (covered m i) eqn:Em, (covered n i) eqn:En; auto.
  - apply covered_covers, H, covered_covers in Em. congruence.
  - apply covered_covers, H, covered_covers in En. congruence.
Qed.

Lemma eraseFrom_ext (m n : list Range) (s : jsstring) :
  (forall x, covers m x <-> covers n x) ->
  forall i, eraseFrom m s i = eraseFrom n s i.
Proof.
  intros H. induction s as [|c t IH]; intros i; simpl; [reflexivity|].
  now rewrite (covered_ext H), !IH.
Qed.

Lemma covered_before (m : list Range) i :
  Forall (fun r => i < fst r) m -> covered m i = false.
Proof.
  intros H. unfold covered. apply not_true_is_false. intros Hex.
  apply existsb_exists in Hex as [r [Hin Hr]].
  rewrite Forall_forall in H. specialize (H r Hin).
  apply andb_true_iff in Hr as [H1 _]. apply Z.leb_le in H1. lia.
Qed.

(** Offsets before every range are kept. *)
Lemma eraseFrom_keep (m : list Range) (p q : jsstring) :
  forall i,
    Forall (fun r => i + len p <= fst r) m ->
    eraseFrom m (p ++ q) i = p ++ eraseFrom m q (i + len p).
Proof.
  induction p as [|c p IH]; intros i H; simpl.
  - unfold len; simpl. now rewrite Z.add_0_r.
  - assert (Hlen : len (c :: p) = len p + 1) by (unfold len; simpl List.length; lia).
    rewrite Hlen in H.
    rewrite covered_before.
    + rewrite IH.
      * rewrite Hlen. do 3 f_equal. lia.
      * eapply Forall_impl; [|exact H]. simpl. intros; lia.
    + eapply Forall_impl; [|exact H]. simpl. intros r Hr.
      pose proof (len_nonneg p). lia.
Qed.

(** Offsets inside the first range are dropped. *)
Lemma eraseFrom_drop (r : Range) (m : list Range) (p q : jsstring) :
  forall i,
    fst r <= i -> i + len p <= snd r ->
    eraseFrom (r :: m) (p ++ q) i = eraseFrom (r :: m) q (i + len p).
Proof.
  induction p as [|c p IH]; intros i Hlo Hhi; simpl app.
  - unfold len; simpl. now rewrite Z.add_0_r.
  - assert (Hlen : len (c :: p) = len p + 1) by (unfold len; simpl List.length; lia).
    rewrite Hlen in *. pose proof (len_nonneg p).
    cbn [eraseFrom]. unfold covered at 1. cbn [existsb].
    destruct (Z.leb_spec (fst r) i); [|lia].
    destruct (Z.ltb_spec i (snd r)); [|lia].
    cbn [andb orb]. rewrite IH by lia. f_equal. lia.
Qed.

(** A range that ends at or before the offset plays no part. *)
Lemma eraseFrom_past (r : Range) (m : list Range) (q : jsstring) :
  forall j, snd r <= j -> eraseFrom (r :: m) q j = eraseFrom m q j.
Proof.
  induction q as [|c q IH]; intros j Hj; simpl; [reflexivity|].
  destruct (Z.ltb_spec j (snd r)); [lia|].
  rewrite andb_false_r. simpl. now rewrite !IH by lia.
Qed.

Lemma eraseFrom_nil (m : list Range) i : eraseFrom m [] i = [].
Proof. reflexivity. Qed.

Lemma firstn_plus (A : Type) (a b : nat) :
  forall l : list A, firstn (a + b) l = firstn a l ++ firstn b (skipn a l).
Proof.
  induction a as [|a IH]; intros [|x l]; simpl; try reflexivity.
  - now rewrite firstn_nil.
  - now rewrite IH.
Qed.

Lemma slice_firstn (x : jsstring) a :
  0 <= a -> slice x 0 a = firstn (Z.to_nat a) x.
Proof.
  intros Ha. unfold slice, relIndex. simpl (0 <? 0).
  destruct (Z.ltb_spec a 0); [lia|].
  pose proof (len_nonneg x). rewrite (Z.min_l 0 (len x)) by lia. simpl skipn.
  rewrite Z.sub_0_r. unfold len in *.
  destruct (Z.le_ge_cases a (Z.of_nat (List.length x))).
  - now rewrite Z.min_l by lia.
  - rewrite Z.min_r by lia. rewrite Nat2Z.id.
    rewrite !firstn_all2 by lia. reflexivity.
Qed.

Lemma sliceFrom_skipn (x : jsstring) b :
  0 <= b -> sliceFrom x b = skipn (Z.to_nat b) x.
Proof.
  intros Hb. unfold sliceFrom, relIndex.
  destruct (Z.ltb_spec b 0); [lia|]. unfold len.
  destruct (Z.le_ge_cases b (Z.of_nat (List.length x))).
  - now rewrite Z.min_l by lia.
  - rewrite Z.min_r by lia. rewrite Nat2Z.id.
    rewrite !skipn_all2 by lia. reflexivity.
Qed.

Lemma spliced_firstn_skipn (x : jsstring) (r : Range) :
  0 <= fst r -> 0 <= snd r ->
  spliced x r = firstn (Z.to_nat (fst r)) x ++ skipn (Z.to_nat (snd r)) x.
Proof.
  intros Ha Hb. unfold spliced. now rewrite slice_firstn, sliceFrom_skipn.
Qed.

(** Splicing out a range that lies before the other ones, after these are
    erased, erases it as well. *)
Lemma spliced_erase (r : Range) (m : list Range) (s : jsstring) :
  0 <= fst r <= snd r -> Forall (apart r) m ->
  spliced (erase m s) r = erase (r :: m) s.
Proof.
  intros [Ha Hab] Hap. destruct r as [a b]; simpl in *.
  rewrite spliced_firstn_skipn by (simpl; lia). simpl fst. simpl snd.
  set (A := Z.to_nat a). set (B := Z.to_nat b).
  assert (HAB : (A <= B)%nat) by (unfold A, B; lia).
  set (s1 := firstn A s). set (s2 := firstn (B - A) (skipn A s)).
  set (s3 := skipn B s).
  assert (Hs : s = s1 ++ s2 ++ s3).
  { unfold s1, s2, s3.
    replace B with ((B - A) + A)%nat at 2 by lia.
    rewrite <- skipn_skipn, firstn_skipn, firstn_skipn. reflexivity. }
  assert (Hp : firstn B s = s1 ++ s2).
  { unfold s1, s2. replace B with (A + (B - A))%nat at 1 by lia.
    apply firstn_plus. }
  assert (Hl1 : len s1 <= a) by (unfold len, s1; rewrite length_firstn; lia).
  assert (Hl2 : len s1 + len s2 <= b).
  { unfold len. rewrite <- Nat2Z.inj_add, <- length_app, <- Hp, length_firstn. lia. }
  assert (Em : eraseFrom m s 0
               = (s1 ++ s2) ++ eraseFrom m s3 (0 + len (s1 ++ s2))).
  { rewrite Hs at 1. rewrite app_assoc. apply eraseFrom_keep.
    eapply Forall_impl; [|exact Hap]. unfold apart; simpl. intros r Hr.
    unfold len in *. rewrite length_app. lia. }
  assert (Er : eraseFrom ((a, b) :: m) s 0
               = s1 ++ eraseFrom ((a, b) :: m) (s2 ++ s3) (0 + len s1)).
  { rewrite Hs at 1. apply eraseFrom_keep.
    constructor; [simpl; lia|].
    eapply Forall_impl; [|exact Hap]. unfold apart; simpl. intros; lia. }
  unfold erase. rewrite Em.
  etransitivity; [|symmetry; exact Er]. clear Em Er.
  rewrite <- (app_assoc s1 s2).
  set (E := eraseFrom m s3 (0 + len (s1 ++ s2))).
  destruct (Nat.le_gt_cases B (List.length s)) as [Hlong|Hshort].
  - (* the text reaches the end of the range *)
    assert (E1 : List.length s1 = A) by (unfold s1; rewrite length_firstn; lia).
    assert (E2 : List.length (s1 ++ s2) = B) by (rewrite <- Hp, length_firstn; lia).
    assert (E12 : List.length s2 = (B - A)%nat) by (rewrite length_app in E2; lia).
    assert (F : firstn A (s1 ++ s2 ++ E) = s1).
    { rewrite <- E1. rewrite <- (Nat.add_0_r (List.length s1)).
      rewrite firstn_app_2. simpl. apply app_nil_r. }
    assert (K : skipn B (s1 ++ s2 ++ E) = E).
    { rewrite app_assoc, skipn_app, <- E2, skipn_all, Nat.sub_diag. reflexivity. }
    rewrite F, K. f_equal.
    rewrite eraseFrom_drop by (unfold len; simpl; lia).
    rewrite eraseFrom_past by (unfold len; simpl; lia).
    unfold E. f_equal. unfold len. rewrite length_app. lia.
  - (* the text ends inside or before the range *)
    assert (E3 : s3 = []) by (unfold s3; apply skipn_all2; lia).
    assert (EE : E = []) by (unfold E; rewrite E3; reflexivity).
    assert (Hps : s1 ++ s2 = s) by (rewrite <- Hp; apply firstn_all2; lia).
    rewrite EE, E3, !app_nil_r, Hps.
    rewrite (skipn_all2 s) by lia. rewrite app_nil_r. fold s1. 
    destruct (Nat.le_gt_cases A (List.length s)) as [HA|HA].
    + assert (E1 : List.length s1 = A) by (unfold s1; rewrite length_firstn; lia).
      rewrite <- (app_nil_r s2).
      rewrite eraseFrom_drop by (unfold len in *; simpl; lia).
      now rewrite eraseFrom_nil, app_nil_r.
    + assert (E2 : s2 = []).
      { unfold s2. rewrite skipn_all2 by lia. now rewrite firstn_nil. }
      now rewrite E2, eraseFrom_nil, !app_nil_r.
Qed.

(** An element that goes after every element of a list is put at its end. *)
Lemma insertSorted_last (A : Type) (cmp : A -> A -> Z) (x : A) (l : list A) :
  Forall (fun y => 0 < cmp x y) l -> insertSorted cmp x l = l ++ [x].
Proof.
  induction 1 as [|y l Hy Hl IH]; simpl; [reflexivity|].
  destruct (Z.ltb_spec 0 (cmp x y)); [|lia]. now rewrite IH.
Qed.

(** Sorting ranges in ascending order of start by descending start
    reverses them. *)
Lemma sort_descending_rev (m : list Range) :
  StronglySorted (fun a b => fst a < fst b) m ->
  JS.sort byStartDescending m = rev m.
Proof.
  induction 1 as [|x m Hs IH Hx]; simpl; [reflexivity|].
  rewrite IH. apply insertSorted_last.
  apply Forall_forall. intros y Hy. apply in_rev in Hy.
  rewrite Forall_forall in Hx. specialize (Hx y Hy).
  unfold byStartDescending. lia.
Qed.

Lemma eraseFrom_none (s : jsstring) : forall i, eraseFrom [] s i = s.
Proof.
  induction s as [|c t IH]; intros i; simpl; [reflexivity|]. now rewrite IH.
Qed.

Lemma rounds_erase (m : list Range) :
  StronglySorted apart m -> Forall (fun r => 0 <= fst r <= snd r) m ->
  forall s, fold_left spliced (rev m) s = erase m s.
Proof.
  induction 1 as [|r m Hs IH Hr]; intros Hv s; simpl.
  - symmetry. apply eraseFrom_none.
  - inversion Hv as [|? ? Hvr Hvm]; subst.
    rewrite fold_left_app. simpl. rewrite IH by assumption.
    now apply spliced_erase.
Qed.

Lemma mergeFrom_starts (lo : Z) last rest :
  lo <= fst last -> Forall (fun r => lo <= fst r) rest ->
  Forall (fun r => lo <= fst r) (mergeFrom last rest).
Proof.
  revert last; induction rest as [|r rest IH]; intros last Hl Hr; simpl.
  - now constructor.
  - inversion Hr; subst. destruct (snd last >=? fst r).
    + now apply IH.
    + constructor; auto.
Qed.

Lemma mergeRanges_starts (lo : Z) ranges :
  Forall (fun r => lo <= fst r) ranges ->
  Forall (fun r => lo <= fst r) (mergeRanges ranges).
Proof.
  intros H. unfold mergeRanges.
  pose proof (sort_perm byStart ranges) as Hp.
  apply (Forall_perm (Permutation_sym Hp)) in H.
  destruct (JS.sort byStart ranges) as [|first rest]; [constructor|].
  inversion H; subst. now apply mergeFrom_starts.
Qed.

(** For removal ranges inside the non-negative offsets, each with
    [start <= end], the text [removeCodeRanges] returns consists of the
    code units of the input whose offset is in none of the ranges, in
    their order; the merged ranges are handled from the last one to the
    first. *)
Theorem removeCodeRanges_erases (code : jsstring) (removals : list Range)
    (nodes : option (list nat)) (st : Store) :
  Forall (fun r => 0 <= fst r <= snd r) removals ->
  removedCode (removeCodeRanges code removals nodes st) = erase removals code
  /\ removedRanges (removeCodeRanges code removals nodes st)
     = rev (mergeRanges removals).
Proof.
  intros Hv.
  assert (Hvalid : Forall valid removals)
    by (eapply Forall_impl; [|exact Hv]; unfold valid; simpl; intros; lia).
  assert (Hpos : Forall (fun r => 0 <= fst r) removals)
    by (eapply Forall_impl; [|exact Hv]; simpl; intros; lia).
  destruct (mergeRanges_apart Hvalid) as [Hap Hva].
  pose proof (mergeRanges_starts Hpos) as Hst.
  assert (Hrev : JS.sort byStartDescending (mergeRanges removals)
                 = rev (mergeRanges removals))
    by (apply sort_descending_rev; now apply apart_ascending).
  unfold removeCodeRanges; simpl. rewrite rounds_splice, Hrev.
  split; [|reflexivity].
  rewrite rounds_erase.
  - unfold erase. apply eraseFrom_ext. apply mergeRanges_covers.
  - assumption.
  - rewrite Forall_forall in *. intros r Hr.
    specialize (Hst r Hr). specialize (Hva r Hr). unfold valid in Hva. lia.
Qed.

Lemma removeCodeRanges_erases_witness :
  removedCode (removeCodeRanges (str "abcdefghij") [(2, 5); (4, 6)] None [])
  = erase [(2, 5); (4, 6)] (str "abcdefghij")
  /\ removedRanges (removeCodeRanges (str "abcdefghij") [(2, 5); (4, 6)] None [])
     = rev (mergeRanges [(2, 5); (4, 6)]).
Proof.
  apply (@removeCodeRanges_erases (str "abcdefghij") [(2, 5); (4, 6)] None []).
  repeat constructor; simpl; lia.
Defined.

(** Without a removal the text and the records stay as they are. *)
Example removeCodeRanges_nothing (code : jsstring) (refs : list nat) (st : Store) :
  removeCodeRanges code [] (Some refs) st = mkRemoved code [] st.
Proof. reflexivity. Qed.

(** ** matchAll *)

Lemma increasing_weaken lo lo' ms : lo' <= lo -> increasing lo ms -> increasing lo' ms.
Proof. intros Hle H. destruct H; constructor; [lia|assumption]. Qed.

Lemma matchAllFrom_increasing (pat : Pattern) (s : jsstring) :
  forall prev idx skip,
    increasing idx (matchAllFrom pat prev s idx skip)
    /\ Forall (fun m => Match.index m <= idx + len s) (matchAllFrom pat prev s idx skip).
Proof.
  induction s as [|c t IH]; intros prev idx skip.
  - destruct skip; simpl; [|split; constructor].
    destruct (pat prev []) as [[m gs]|]; [|split; constructor].
    split; repeat constructor; simpl; unfold len; simpl; lia.
  - assert (Hstep : forall k,
               increasing idx (matchAllFrom pat (Some c) t (idx + 1) k)
               /\ Forall (fun m => Match.index m <= idx + len (c :: t))
                         (matchAllFrom pat (Some c) t (idx + 1) k)).
    { intros k. destruct (IH (Some c) (idx + 1) k) as [Hi Hf]. split.
      - eapply increasing_weaken; [|exact Hi]. lia.
      - eapply Forall_impl; [|exact Hf]. intros m. unfold len; simpl. lia. }
    destruct skip; simpl; [|apply Hstep].
    destruct (pat prev (c :: t)) as [[m gs]|]; [|apply Hstep].
    destruct (IH (Some c) (idx + 1) (pred (List.length m))) as [Hi Hf].
    split.
    + constructor; simpl; [lia|assumption].
    + constructor; [simpl; unfold len; simpl; lia|].
      eapply Forall_impl; [|exact Hf]. intros m'. unfold len; simpl. lia.
Qed.

Lemma matchAll_increasing (pat : Pattern) (code : jsstring) :
  increasing 0 (matchAll pat code)
  /\ Forall (fun m => Match.index m <= len code) (matchAll pat code).
Proof. apply (matchAllFrom_increasing pat code None 0 0). Qed.

(** ** slice *)

Lemma relIndex_inside size i : 0 <= i <= size -> relIndex size i = i.
Proof. intros H. unfold relIndex. destruct (Z.ltb_spec i 0); lia. Qed.

Lemma slice_length (s : jsstring) i j :
  0 <= i <= j -> j <= len s -> len (slice s i j) = j - i.
Proof.
  intros Hi Hj. unfold slice. rewrite !relIndex_inside by lia.
  unfold len in *. rewrite length_firstn, length_skipn. lia.
Qed.

Lemma slice_sliceFrom (s : jsstring) i j :
  0 <= i <= j -> j <= len s -> slice s i j ++ sliceFrom s j = sliceFrom s i.
Proof.
  intros Hi Hj. unfold slice, sliceFrom. rewrite !relIndex_inside by lia.
  replace (Z.to_nat j) with (Z.to_nat (j - i) + Z.to_nat i)%nat by lia.
  rewrite <- skipn_skipn. apply firstn_skipn.
Qed.

Lemma sliceFrom_end (s : jsstring) : sliceFrom s (len s) = [].
Proof.
  unfold sliceFrom. rewrite relIndex_inside by (unfold len; lia).
  unfold len. rewrite Nat2Z.id. apply skipn_all.
Qed.

(** ** splitFiles *)

Lemma splitLoop_tiles (code root : jsstring) (ms : list RegExpMatch) :
  forall currentFileName index,
    0 <= index <= len code -> increasing index ms ->
    Forall (fun m => Match.index m <= len code) ms ->
    tiles code index (splitLoop code root ms currentFileName index).
Proof.
  induction ms as [|m ms IH]; intros name index Hi Hinc Hall; simpl.
  - destruct (Z.ltb_spec index (len code)).
    + apply tiles_cons with (j := len code); simpl; try lia.
      * rewrite <- (app_nil_r (slice code index (len code))).
        rewrite <- (sliceFrom_end code). symmetry. apply slice_sliceFrom; lia.
      * constructor.
    + replace index with (len code) by lia. constructor.
  - inversion Hinc as [|? ? ? Hle Hinc']; subst.
    inversion Hall as [|? ? Hm Hall']; subst.
    assert (Hnext : tiles code (Match.index m)
                      (splitLoop code root ms (matchedFilename m) (Match.index m))).
    { apply IH; [lia| |assumption].
      eapply increasing_weaken; [|exact Hinc']. lia. }
    pose proof (slice_length code (i := index) (j := Match.index m)) as Hlen.
    destruct (slice code index (Match.index m)) as [|c content] eqn:E.
    + assert (Match.index m = index).
      { specialize (Hlen ltac:(lia) ltac:(lia)). unfold len in Hlen; simpl in Hlen. lia. }
      congruence.
    + assert (index < Match.index m).
      { specialize (Hlen ltac:(lia) ltac:(lia)). unfold len in Hlen; simpl in Hlen. lia. }
      apply tiles_cons with (j := Match.index m); simpl; auto; lia.
Qed.

Lemma tiles_offsets code i fs :
  tiles code i fs -> Forall (fun f => i <= offset f) fs.
Proof.
  induction 1 as [|i j f fs Ho Hc Hij Hj Ht IH]; constructor; [lia|].
  eapply Forall_impl; [|exact IH]. intros; simpl in *; lia.
Qed.

Lemma tiles_partition code i fs :
  tiles code i fs ->
  Forall (fun f => content f <> []
                   /\ content f = slice code (offset f) (offset f + len (content f))) fs
  /\ StronglySorted (fun a b => offset a < offset b) fs
  /\ List.concat (map content fs) = sliceFrom code i.
Proof.
  induction 1 as [|i j f fs Ho Hc Hij Hj Ht (IH1 & IH2 & IH3)]; simpl.
  - split; [constructor|]. split; [constructor|]. symmetry. apply sliceFrom_end.
  - assert (Hlen : len (content f) = j - i) by (rewrite Hc; apply slice_length; lia).
    split; [|split].
    + constructor; [|assumption]. split.
      * intros Hnil. rewrite Hnil in Hlen. unfold len in Hlen; simpl in Hlen. lia.
      * rewrite Ho, Hlen. replace (i + (j - i)) with j by lia. exact Hc.
    + constructor; [assumption|].
      eapply Forall_impl; [|exact (tiles_offsets Ht)]. intros; simpl in *; lia.
    + rewrite IH3, Hc. apply slice_sliceFrom; lia.
Qed.

Lemma sliceFrom_start (s : jsstring) : sliceFrom s 0 = s.
Proof. unfold sliceFrom. rewrite relIndex_inside by (unfold len; lia). reflexivity. Qed.

(** C9: the files [splitFiles] returns partition the text: the content of
    every file is not empty and is the slice of the text that starts at the
    offset of the file, the offsets increase strictly, and the contents,
    one after the other, are the text. *)
Theorem splitFiles_partition (code defaultFileName root : jsstring) :
  Forall (fun f => content f <> []
                   /\ content f = slice code (offset f) (offset f + len (content f)))
         (splitFiles code defaultFileName root)
  /\ StronglySorted (fun a b => offset a < offset b)
                    (splitFiles code defaultFileName root)
  /\ List.concat (map content (splitFiles code defaultFileName root)) = code.
Proof.
  unfold splitFiles.
  destruct (matchAll_increasing reFilenamesMakers code) as [Hinc Hall].
  match goal with
  | |- context [splitLoop code root ?ms ?name 0] =>
      pose proof (@splitLoop_tiles code root ms name 0
                    ltac:(unfold len; lia) Hinc Hall) as Ht
  end.
  apply tiles_partition in Ht. rewrite sliceFrom_start in Ht. exact Ht.
Qed.

(** ** findCutNotations *)

Lemma cutPairs_inverted (cutStart cutEnd : list RegExpMatch) :
  inverted cutStart cutEnd ->
  forall removals, exists s e, cutPairs cutStart cutEnd removals = Throw (mismatchedPair s e).
Proof.
  intros (i & s & e & Hs & He & Hgt). revert cutStart cutEnd Hs He.
  induction i as [|i IH]; intros [|s0 cutStart] [|e0 cutEnd] Hs He removals;
    simpl in *; try discriminate.
  - injection Hs as ->. injection He as ->.
    destruct (Z.gtb_spec (Match.index s) (Match.index e)); [eauto|lia].
  - destruct (Match.index s0 >? Match.index e0); [eauto|].
    now apply IH.
Qed.

Lemma cutPairs_ordered (cutStart : list RegExpMatch) :
  forall cutEnd removals,
    ~ inverted cutStart cutEnd ->
    exists all, cutPairs cutStart cutEnd removals = Ok all.
Proof.
  induction cutStart as [|s cutStart IH]; intros [|e cutEnd] removals Hord;
    simpl; eauto.
  destruct (Z.gtb_spec (Match.index s) (Match.index e)) as [Hgt|Hle].
  - exfalso. apply Hord. exists 0%nat, s, e. simpl. repeat split; lia.
  - apply IH. intros (i & s' & e' & Hs & He & Hgt).
    apply Hord. exists (S i), s', e'. simpl. auto.
Qed.

(** C6: when the numbers of cut-start and cut-end markers differ, or the
    i-th cut-start lies after the i-th cut-end, [findCutNotations] throws
    the error "Mismatched cut markers", whatever the text is; with equal
    numbers and every cut-start at or before its cut-end it returns the
    removals. *)
Theorem findCutNotations_mismatch (reCutBefore reCutAfter reCutStart reCutEnd : RegExp)
    (code : jsstring) :
  (List.length (reCutStart code) <> List.length (reCutEnd code)
   \/ inverted (reCutStart code) (reCutEnd code) ->
   exists e,
     findCutNotations reCutBefore reCutAfter reCutStart reCutEnd code = Throw e
     /\ isTwoslashError (str "Mismatched cut markers") e)
  /\ (List.length (reCutStart code) = List.length (reCutEnd code) ->
      ~ inverted (reCutStart code) (reCutEnd code) ->
      exists removals,
        findCutNotations reCutBefore reCutAfter reCutStart reCutEnd code = Ok removals).
Proof.
  unfold findCutNotations. split.
  - intros Hbad.
    destruct (Nat.eqb_spec (List.length (reCutStart code)) (List.length (reCutEnd code)))
      as [Heq|Hne]; simpl.
    + destruct Hbad as [Hne|Hinv]; [contradiction|].
      match goal with
      | |- context [cutPairs _ _ ?r] =>
          destruct (cutPairs_inverted Hinv r) as (s & e & ->)
      end.
      eexists; split; [reflexivity|reflexivity].
    + eexists; split; reflexivity.
  - intros Heq Hord. rewrite Heq, Nat.eqb_refl; simpl.
    now apply cutPairs_ordered.
Qed.

Lemma findCutNotations_mismatch_witness :
  exists e,
    findCutNotations Sample.noMatch Sample.noMatch
      (Sample.cutMarkerAt 0 "// ---cut-start---") Sample.noMatch
      (str "// ---cut-start---") = Throw e
    /\ isTwoslashError (str "Mismatched cut markers") e.
Proof.
  apply (proj1 (findCutNotations_mismatch Sample.noMatch Sample.noMatch
                  (Sample.cutMarkerAt 0 "// ---cut-start---") Sample.noMatch
                  (str "// ---cut-start---"))).
  left. simpl. discriminate.
Defined.

(** ** parsePrimitive and getOptionValueFromMap *)

Lemma jsstring_eqb_refl s : jsstring_eqb s s = true.
Proof. unfold jsstring_eqb. destruct (list_eq_dec N.eq_dec s s); congruence. Qed.

Lemma jsstring_eqb_eq a b : jsstring_eqb a b = true <-> a = b.
Proof.
  unfold jsstring_eqb. destruct (list_eq_dec N.eq_dec a b); split; congruence.
Qed.

Lemma jsstring_eqb_neq a b : a <> b -> jsstring_eqb a b = false.
Proof.
  intros H. unfold jsstring_eqb. destruct (list_eq_dec N.eq_dec a b); congruence.
Qed.

Lemma mentions_middle (a part b : jsstring) : mentions (a ++ part ++ b) part.
Proof. now exists a, b. Qed.

(** What [parseFlag] gives for a directive that is no custom tag and whose
    name has a compiler option declaration. *)
Lemma parseFlag_declared (rt : Runtime) (defaultHandbookOptions : Obj)
    (name : jsstring) (value : jsvalue) (start end_ : Z)
    (customTags : list jsstring) (tsOptionDeclarations : list Decl.t)
    (compilerDecl : Decl.t) :
  includes name customTags = false ->
  find (fun d => jsstring_eqb (toLocaleLowerCase rt (Decl.name d))
                              (toLocaleLowerCase rt name))
       tsOptionDeclarations = Some compilerDecl ->
  (forall kind,
     Decl.type compilerDecl = KindName kind ->
     kind = str "number" \/ kind = str "string" \/ kind = str "boolean" ->
     parseFlag rt defaultHandbookOptions name value start end_ customTags
       tsOptionDeclarations
     = match parsePrimitive rt value kind with
       | Ok v => Ok (Flag.mk flag_compilerOptions (Decl.name compilerDecl) v start end_)
       | Throw e => Throw e
       end)
  /\ (forall optMap,
        Decl.type compilerDecl = KindMap optMap ->
        parseFlag rt defaultHandbookOptions name value start end_ customTags
          tsOptionDeclarations
        = match getOptionValueFromMap rt (Decl.name compilerDecl) value optMap with
          | Ok v => Ok (Flag.mk flag_compilerOptions (Decl.name compilerDecl) v start end_)
          | Throw e => Throw e
          end).
Proof.
  intros Htag Hdecl. unfold parseFlag. rewrite Htag, Hdecl. split.
  - intros kind Hk [Hn | [Hn | Hn]]; rewrite Hk; subst kind; reflexivity.
  - intros optMap ->. reflexivity.
Qed.

(** C5 (amended): a value outside the [Map] of an enumerated option raises
    the error "Invalid inline compiler value", which names the option and
    the value; a value in the [Map] gives its entry. For the primitive
    kinds [parsePrimitive] raises nothing on a string: [number] gives the
    number the language converts the string to ([NaN] when it is not
    numeric), [string] the string itself, [boolean] [true] exactly for the
    empty string and for a string that is [true] in lower case, and
    [false] otherwise. It raises "Unknown primitive value in compiler flag"
    only for a kind other than these three. A directive with a declared
    compiler option gets exactly these results. *)
Theorem option_value_coercion (rt : Runtime) (name raw : jsstring) (optMap : Obj) :
  (objGet optMap (toLowerCase rt raw) = VUndefined ->
   exists description recommendation,
     getOptionValueFromMap rt name (VString raw) optMap
     = Throw (TwoslashError (str "Invalid inline compiler value")
                description recommendation)
     /\ mentions description name /\ mentions description raw)
  /\ (objGet optMap (toLowerCase rt raw) <> VUndefined ->
      getOptionValueFromMap rt name (VString raw) optMap
      = Ok (objGet optMap (toLowerCase rt raw)))
  /\ parsePrimitive rt (VString raw) (str "number")
     = Ok (VNumber (StringToNumber rt raw))
  /\ parsePrimitive rt (VString raw) (str "string") = Ok (VString raw)
  /\ parsePrimitive rt (VString raw) (str "boolean")
     = Ok (VBool (jsstring_eqb (toLowerCase rt raw) (str "true") || (len raw =? 0)))
  /\ (forall kind,
        kind <> str "number" -> kind <> str "string" -> kind <> str "boolean" ->
        exists description recommendation,
          parsePrimitive rt (VString raw) kind
          = Throw (TwoslashError (str "Unknown primitive value in compiler flag")
                     description recommendation)
          /\ mentions description kind /\ mentions description raw)
  /\ (forall defaultHandbookOptions directive start end_ customTags
             tsOptionDeclarations compilerDecl,
        includes directive customTags = false ->
        find (fun d => jsstring_eqb (toLocaleLowerCase rt (Decl.name d))
                                    (toLocaleLowerCase rt directive))
             tsOptionDeclarations = Some compilerDecl ->
        (Decl.type compilerDecl = KindName (str "number") ->
         parseFlag rt defaultHandbookOptions directive (VString raw) start end_
           customTags tsOptionDeclarations
         = Ok (Flag.mk flag_compilerOptions (Decl.name compilerDecl)
                 (VNumber (StringToNumber rt raw)) start end_))
        /\ (Decl.type compilerDecl = KindName (str "boolean") ->
            parseFlag rt defaultHandbookOptions directive (VString raw) start end_
              customTags tsOptionDeclarations
            = Ok (Flag.mk flag_compilerOptions (Decl.name compilerDecl)
                    (VBool (jsstring_eqb (toLowerCase rt raw) (str "true")
                            || (len raw =? 0))) start end_))
        /\ (Decl.type compilerDecl = KindMap optMap ->
            objGet optMap (toLowerCase rt raw) = VUndefined ->
            exists description recommendation,
              parseFlag rt defaultHandbookOptions directive (VString raw) start end_
                customTags tsOptionDeclarations
              = Throw (TwoslashError (str "Invalid inline compiler value")
                         description recommendation)
              /\ mentions description (Decl.name compilerDecl)
              /\ mentions description raw)).
Proof.
  assert (Hmap : forall option,
             objGet optMap (toLowerCase rt raw) = VUndefined ->
             exists description recommendation,
               getOptionValueFromMap rt option (VString raw) optMap
               = Throw (TwoslashError (str "Invalid inline compiler value")
                          description recommendation)
               /\ mentions description option /\ mentions description raw).
  { intros option Hnone. unfold getOptionValueFromMap. rewrite Hnone.
    do 2 eexists. split; [reflexivity|]. split.
    - replace (str "Got " ++ raw ++ str " for " ++ option
                 ++ str " but it is not a supported value by the TS compiler.")
        with ((str "Got " ++ raw ++ str " for ") ++ option
                 ++ str " but it is not a supported value by the TS compiler.")
        by (rewrite <- !app_assoc; reflexivity).
      apply mentions_middle.
    - apply mentions_middle. }
  split; [|split; [|split; [|split; [|split; [|split]]]]].
  - apply Hmap.
  - intros Hsome. unfold getOptionValueFromMap.
    destruct (objGet optMap (toLowerCase rt raw)); congruence.
  - reflexivity.
  - reflexivity.
  - reflexivity.
  - intros kind Hn Hs Hb. unfold parsePrimitive.
    change (typeOf (VString raw)) with (str "string").
    rewrite (jsstring_eqb_neq (a := str "string") (b := kind)) by congruence.
    rewrite !jsstring_eqb_neq by assumption.
    do 2 eexists. split; [reflexivity|]. split.
    + apply mentions_middle.
    + simpl toStringV.
      match goal with
      | |- mentions (?a ++ kind ++ ?b ++ raw ++ ?c) raw =>
          replace (a ++ kind ++ b ++ raw ++ c) with ((a ++ kind ++ b) ++ raw ++ c)
            by (rewrite <- !app_assoc; reflexivity)
      end.
      apply mentions_middle.
  - intros defaultHandbookOptions directive start end_ customTags
           tsOptionDeclarations compilerDecl Htag Hdecl.
    destruct (parseFlag_declared rt defaultHandbookOptions directive (VString raw)
                start end_ customTags tsOptionDeclarations Htag Hdecl)
      as [Hprim Henum].
    split; [|split].
    + intros Hk. rewrite (Hprim _ Hk) by auto. reflexivity.
    + intros Hk. rewrite (Hprim _ Hk) by auto. reflexivity.
    + intros Hk Hnone. rewrite (Henum _ Hk).
      destruct (Hmap (Decl.name compilerDecl) Hnone) as (d & r & -> & H1 & H2).
      eauto.
Qed.

Lemma option_value_coercion_witness :
  exists description recommendation,
    getOptionValueFromMap Sample.runtime (str "jsx") (VString (str "vue")) Sample.jsxMap
    = Throw (TwoslashError (str "Invalid inline compiler value")
               description recommendation)
    /\ mentions description (str "jsx") /\ mentions description (str "vue").
Proof.
  apply (proj1 (option_value_coercion Sample.runtime (str "jsx") (str "vue")
                  Sample.jsxMap)).
  reflexivity.
Defined.

(** C5, as stated, fails for the primitive kinds: a string that is no number
    becomes [NaN] and a string that is neither [true] nor [false] becomes
    [false], without an error; so does the directive that carries it. *)
Lemma parsePrimitive_does_not_validate :
  parsePrimitive Sample.runtime (VString (str "abc")) (str "number")
  = Ok (VNumber NNaN)
  /\ parsePrimitive Sample.runtime (VString (str "yes")) (str "boolean")
     = Ok (VBool false)
  /\ parseFlag Sample.runtime Sample.handbookDefaults (str "strict")
       (VString (str "yes")) 0 16 []
       [Decl.mk (str "strict") (KindName (str "boolean")) None]
     = Ok (Flag.mk flag_compilerOptions (str "strict") (VBool false) 0 16).
Proof. repeat split. Qed.

(** ** The flags of a run *)

Lemma applyFlag_removals acc flag :
  Meta.removals (fst (applyFlag acc flag))
  = Meta.removals (fst acc) ++ (if isKnown flag then [flagSpan flag] else []).
Proof.
  unfold applyFlag, isKnown, isUnknown, flagSpan.
  destruct (Flag.type flag); simpl; try reflexivity.
  now rewrite app_nil_r.
Qed.

Lemma applyFlag_flagNotations acc flag :
  Meta.flagNotations (fst (applyFlag acc flag)) = Meta.flagNotations (fst acc).
Proof. unfold applyFlag. destruct (Flag.type flag); reflexivity. Qed.

Lemma fold_applyFlag_removals flags :
  forall acc,
    Meta.removals (fst (fold_left applyFlag flags acc))
    = Meta.removals (fst acc) ++ map flagSpan (filter isKnown flags).
Proof.
  induction flags as [|flag flags IH]; intros acc; simpl.
  - now rewrite app_nil_r.
  - rewrite IH, applyFlag_removals.
    destruct (isKnown flag); simpl; now rewrite <- app_assoc.
Qed.

Lemma fold_applyFlag_flagNotations flags :
  forall acc,
    Meta.flagNotations (fst (fold_left applyFlag flags acc))
    = Meta.flagNotations (fst acc).
Proof.
  induction flags as [|flag flags IH]; intros acc; simpl; [reflexivity|].
  now rewrite IH, applyFlag_flagNotations.
Qed.

(** C3, as stated, fails for an unknown directive: with the validation
    switched off, the run on [// @foo] returns the text with the directive
    in it and no removal. *)
Lemma unknown_flag_is_kept :
  match snd (Sample.run Sample.fooDirective [(str "noErrorValidation", VBool true)]
               (str "// @foo")) with
  | Ok r =>
      map Flag.type (Meta.flagNotations (Return.meta r)) = [flag_unknown]
      /\ map flagSpan (Meta.flagNotations (Return.meta r)) = [(0, 8)]
      /\ Meta.removals (Return.meta r) = []
      /\ Return.code r = str "// @foo"
  | Throw _ => False
  end.
Proof. vm_compute. repeat split. Qed.

(** A known directive is erased from the text. *)
Example known_flag_is_erased :
  match snd (Sample.run Sample.noErrorsDirective [] (str "// @noErrors")) with
  | Ok r => Meta.removals (Return.meta r) = [(0, 13)] /\ Return.code r = []
  | Throw _ => False
  end.
Proof. vm_compute. repeat split. Qed.

(** ** The order of the steps of a run *)

Lemma posToIndexLoop_returns (ls : list jsstring) :
  forall n acc,
    (n <= List.length ls)%nat <-> exists x, posToIndexLoop ls n acc = Ok x.
Proof.
  induction ls as [|lineText rest IH]; intros [|n] acc; simpl.
  - split; eauto.
  - split; [lia|intros [x H]; discriminate].
  - split; [eauto|lia].
  - rewrite <- IH. lia.
Qed.

(** [getIndexOfLineAbove] reads no line past the end of the text. *)
Lemma getIndexOfLineAbove_returns (ls : list jsstring) (i : Z) :
  exists j, getIndexOfLineAbove ls i = Ok j.
Proof.
  unfold getIndexOfLineAbove, posToIndex, indexToPos.
  destruct (indexToPosLoop_inverse ls i 0 0) as (n & Hl & Hp).
  assert (Hn : (n <= List.length ls)%nat)
    by (apply (posToIndexLoop_returns ls n 0); eauto).
  rewrite Hl.
  assert (Hm : (Z.to_nat (0 + Z.of_nat n - 1) <= List.length ls)%nat) by lia.
  apply (posToIndexLoop_returns ls _ 0) in Hm as [x ->]. eauto.
Qed.

Lemma annotateMarker_options g meta m meta' :
  annotateMarker g meta m = Ok meta' ->
  Meta.handbookOptions meta' = Meta.handbookOptions meta
  /\ Meta.compilerOptions meta' = Meta.compilerOptions meta
  /\ Meta.extension meta' = Meta.extension meta
  /\ Meta.removals meta'
     = Meta.removals meta
       ++ [(Match.index m, Match.index m + len (Match.matched m) + 1)].
Proof.
  unfold annotateMarker.
  destruct (g _) as [targetIndex|]; [|discriminate].
  repeat match goal with
         | |- context [if ?b then _ else _] => destruct b
         end; intros H; injection H as <-; simpl; auto.
Qed.

Lemma findQueryMarkers_returns reAnnonateMarkers code meta ls :
  exists meta',
    findQueryMarkers reAnnonateMarkers code meta (getIndexOfLineAbove ls) = Ok meta'
    /\ Meta.handbookOptions meta' = Meta.handbookOptions meta
    /\ Meta.compilerOptions meta' = Meta.compilerOptions meta
    /\ Meta.extension meta' = Meta.extension meta
    /\ Meta.removals meta'
       = Meta.removals meta ++ markerSpans reAnnonateMarkers code.
Proof.
  unfold findQueryMarkers, markerSpans.
  destruct (includesText (str "//") code).
  2:{ exists meta. repeat split. now rewrite app_nil_r. }
  generalize (reAnnonateMarkers code) as ms. intros ms. revert meta.
  induction ms as [|m ms IH]; intros meta; simpl.
  { exists meta. repeat split. now rewrite app_nil_r. }
  destruct (annotateMarker (getIndexOfLineAbove ls) meta m) as [meta1|e] eqn:E.
  - destruct (annotateMarker_options _ _ _ E) as (H1 & H2 & H3 & H4).
    destruct (IH meta1) as (meta' & -> & H1' & H2' & H3' & H4').
    exists meta'. repeat split; try congruence.
    rewrite H4', H4. now rewrite <- app_assoc.
  - exfalso. unfold annotateMarker in E.
    destruct (getIndexOfLineAbove_returns ls
                (Match.index m + indexOf (Match.matched m) 94)) as [j Hj].
    rewrite Hj in E.
    repeat match type of E with
           | context [if ?b then _ else _] => destruct b
           end; discriminate.
Qed.

Section Order.
Variable backend : Backend.
Variable createOptions : CreateOptions.t.





Variable rt : Runtime.
Variables reAnnonateMarkers reCutBefore reCutAfter reCutStart reCutEnd : RegExp.
Variable validateCodeForErrors : list Node.t -> Obj -> jsstring -> result unit.


(** A run of these steps that raises nothing adds removals after the ones
    of the flags and leaves the options and the flags as they are. *)
Lemma collect_returns code options meta nodes log log' meta' nodes' :
  collect rt reAnnonateMarkers reCutBefore reCutAfter reCutStart reCutEnd
    validateCodeForErrors backend createOptions code options (meta, nodes) log
  = (log', Ok (meta', nodes')) ->
  Meta.handbookOptions meta' = Meta.handbookOptions meta
  /\ exists cuts,
       findCutNotations reCutBefore reCutAfter reCutStart reCutEnd code = Ok cuts
       /\ Meta.removals meta'
          = Meta.removals meta ++ cuts ++ markerSpans reAnnonateMarkers code.
Proof.
  unfold collect, bind at 1, call. simpl fst. simpl snd.
  unfold bind at 1, lift at 1.
  destruct (findCutNotations reCutBefore reCutAfter reCutStart reCutEnd code)
    as [cuts|e]; [|discriminate].
  unfold bind at 1, lift at 1.
  match goal with
  | |- context [findQueryMarkers ?re ?c ?m ?g] =>
      destruct (@findQueryMarkers_returns re c m (lines code))
        as (meta1 & -> & Hh & _ & _ & Hr)
  end.
  simpl in Hh, Hr.
  unfold bind at 1.
  match goal with
  | |- context [forEach ?f ?s ?l ?g] => destruct (forEach f s l g) as [log1 [nodes1|e]]
  end; [|discriminate].
  unfold bind at 1.
  match goal with
  | |- context [forEach ?f ?s ?l ?g] => destruct (forEach f s l g) as [log2 [errs|e]]
  end; [|discriminate].
  unfold bind, lift, ret.
  match goal with
  | |- context [if ?b then _ else _] => destruct b
  end.
  - match goal with
    | |- context [validateCodeForErrors ?errs ?h ?root] =>
        destruct (validateCodeForErrors errs h root) as [[]|e]
    end; [|discriminate].
    intros H. injection H as _ <- _. simpl. split; [exact Hh|].
    exists cuts. split; [reflexivity|]. rewrite Hr. now rewrite app_assoc.
  - intros H. injection H as _ <- _. simpl. split; [exact Hh|].
    exists cuts. split; [reflexivity|]. rewrite Hr. now rewrite app_assoc.
Qed.

End Order.




Lemma removeCodeRangesOf_text (text : jsstring) (removals : list Range)
    (nodes : list Node.t) :
  Forall (fun r => 0 <= fst r <= snd r) removals ->
  removedCode (removeCodeRangesOf text removals nodes) = erase removals text.
Proof. intros H. unfold removeCodeRangesOf. now apply removeCodeRanges_erases. Qed.

(** ** Ranges that intersect *)

(** X1: [areRangesIntersecting] does not depend on the order of its
    arguments; two ranges whose closed intervals have an offset in common
    intersect, ranges that only touch included; and two ranges with
    [start <= end] that intersect have such an offset in common. *)
Theorem areRangesIntersecting_overlap (a b : Range) :
  areRangesIntersecting a b = areRangesIntersecting b a
  /\ (overlapping a b -> areRangesIntersecting a b = true)
  /\ (valid a -> valid b -> areRangesIntersecting a b = true -> overlapping a b).
Proof.
  unfold areRangesIntersecting, isInRange, overlapping, valid.
  destruct a as [a0 a1], b as [b0 b1]; simpl.
  split; [|split].
  - destruct (Z.leb_spec b0 a0), (Z.leb_spec a0 b1), (Z.leb_spec b0 a1),
      (Z.leb_spec a1 b1), (Z.leb_spec a0 b0), (Z.leb_spec b1 a1);
      simpl; try reflexivity; lia.
  - intros [H1 H2].
    destruct (Z.leb_spec b0 a0), (Z.leb_spec a0 b1), (Z.leb_spec b0 a1),
      (Z.leb_spec a1 b1), (Z.leb_spec a0 b0), (Z.leb_spec b1 a1);
      simpl; try reflexivity; lia.
  - intros Ha Hb.
    destruct (Z.leb_spec b0 a0), (Z.leb_spec a0 b1), (Z.leb_spec b0 a1),
      (Z.leb_spec a1 b1), (Z.leb_spec a0 b0), (Z.leb_spec b1 a1);
      simpl; intros Hx; try discriminate; lia.
Qed.

(** ** mergeRanges on its own result *)

Lemma mergeFrom_fixed (rest : list Range) :
  forall last,
    match mergeFrom last rest with
    | [] => False
    | x :: l => mergeFrom x l = x :: l
    end.
Proof.
  induction rest as [|r rest IH]; intros last; simpl; [reflexivity|].
  destruct (snd last >=? fst r) eqn:E; [apply IH|].
  destruct (mergeFrom_head r rest) as (e & tl & Heq & _).
  specialize (IH r). rewrite Heq in *. simpl. rewrite E. now rewrite IH.
Qed.

Lemma mergeFrom_sorted (rest : list Range) :
  forall last,
    StronglySorted (fun a b => fst a <= fst b) (last :: rest) ->
    StronglySorted (fun a b => fst a <= fst b) (mergeFrom last rest).
Proof.
  induction rest as [|r rest IH]; intros last Hs; simpl.
  - repeat constructor.
  - inversion Hs as [|? ? Hs' Hall]; subst.
    inversion Hs' as [|? ? Hs'' Hall']; subst.
    inversion Hall as [|? ? Hlr Hall'']; subst.
    destruct (snd last >=? fst r).
    + apply IH. constructor; [assumption|]. simpl. assumption.
    + constructor; [now apply IH|].
      apply Forall_forall. intros x Hx.
      assert (H : Forall (fun q => fst r <= fst q) (mergeFrom r rest)).
      { apply mergeFrom_starts; [lia|assumption]. }
      rewrite Forall_forall in H. specialize (H x Hx). lia.
Qed.

(** X2: merging merged ranges changes nothing, whatever the ranges are. *)
Theorem mergeRanges_idempotent (ranges : list Range) :
  mergeRanges (mergeRanges ranges) = mergeRanges ranges.
Proof.
  unfold mergeRanges at 2 3.
  pose proof (sort_by_start_sorted ranges) as Hs.
  destruct (JS.sort byStart ranges) as [|first rest]; [reflexivity|].
  unfold mergeRanges. rewrite sort_id.
  - pose proof (mergeFrom_fixed rest first) as H.
    destruct (mergeFrom first rest); [contradiction|exact H].
  - apply mergeFrom_sorted in Hs.
    eapply StronglySorted_ind with (P := fun l => StronglySorted _ l);
      [constructor | | exact Hs].
    intros a l Hl IH Ha. constructor; [assumption|].
    eapply Forall_impl; [|exact Ha]. unfold byStart. intros; lia.
Qed.

(** ** Extensions *)

(** X3: what [typesToExtension] gives. For a key of its map it returns a
    string, one of the file types the run mounts or [json], and it maps
    that string to itself. For a name that is no key of the map but that
    every object inherits a property for ([constructor], [toString],
    [__proto__], ...) it does not raise: it returns the inherited value.
    It raises for the other names only, with "Unknown TypeScript extension
    given to Twoslash", and the description quotes the name. *)
Theorem typesToExtension_canonical (types : jsstring) :
  (forall ext,
     typesToExtension types = Ok (ext_string ext) ->
     In types (map fst extensionMap)
     /\ (In ext supportedFileTyes \/ ext = str "json")
     /\ typesToExtension ext = Ok (ext_string ext))
  /\ (forall name,
        typesToExtension types = Ok (ext_inherited name)
        <-> name = types /\ In types objectPrototypeNames)
  /\ ((exists e, typesToExtension types = Throw e)
      <-> ~ In types (map fst extensionMap) /\ ~ In types objectPrototypeNames)
  /\ (~ In types (map fst extensionMap) ->
      ~ In types objectPrototypeNames ->
      exists description,
        typesToExtension types
        = Throw (TwoslashError
                   (str "Unknown TypeScript extension given to Twoslash")
                   description [])
        /\ mentions description types).
Proof.
  assert (Hkeys : forall kv,
            find (fun kv => jsstring_eqb (fst kv) types) extensionMap = Some kv ->
            In types (map fst extensionMap)).
  { intros kv E. apply find_some in E as [Hin Heq].
    apply jsstring_eqb_eq in Heq. subst types. now apply in_map. }
  assert (Hnone : find (fun kv => jsstring_eqb (fst kv) types) extensionMap = None ->
                  ~ In types (map fst extensionMap)).
  { intros E Hin. apply in_map_iff in Hin as (kv & Hfst & Hin).
    apply (find_none _ _ E) in Hin. subst types.
    now rewrite jsstring_eqb_refl in Hin. }
  assert (Hinherited : In types objectPrototypeNames ->
                       find (fun kv => jsstring_eqb (fst kv) types) extensionMap
                       = None).
  { intros Hin. unfold objectPrototypeNames in Hin. simpl in Hin.
    repeat (destruct Hin as [<-|Hin]; [reflexivity|]). contradiction. }
  assert (Hincl : includes types objectPrototypeNames = true
                  <-> In types objectPrototypeNames).
  { unfold includes. rewrite existsb_exists. split.
    - intros (x & Hin & Heq). apply jsstring_eqb_eq in Heq. now subst x.
    - intros Hin. exists types. split; [exact Hin|apply jsstring_eqb_refl]. }
  unfold typesToExtension. split; [|split; [|split]].
  - intros ext.
    destruct (find _ extensionMap) as [kv|] eqn:E.
    + intros H. injection H as <-. split; [now apply (Hkeys kv)|].
      apply find_some in E as [Hin _].
      unfold extensionMap in Hin. simpl in Hin.
      repeat (destruct Hin as [<-|Hin];
              [split; [simpl; tauto | reflexivity]|]).
      contradiction.
    + destruct (includes types objectPrototypeNames); discriminate.
  - intros name. split.
    + destruct (find _ extensionMap) as [kv|]; [discriminate|].
      destruct (includes types objectPrototypeNames) eqn:Ei; [|discriminate].
      intros H. injection H as <-. split; [reflexivity|now apply Hincl].
    + intros [-> Hin]. rewrite (Hinherited Hin).
      apply Hincl in Hin. now rewrite Hin.
  - split.
    + intros [e He].
      destruct (find _ extensionMap) as [kv|] eqn:E; [discriminate|].
      destruct (includes types objectPrototypeNames) eqn:Ei; [discriminate|].
      split; [now apply Hnone|].
      intros Hin. apply Hincl in Hin. congruence.
    + intros [Hkey Hproto].
      destruct (find _ extensionMap) as [kv|] eqn:E;
        [exfalso; apply Hkey; now apply (Hkeys kv)|].
      destruct (includes types objectPrototypeNames) eqn:Ei;
        [exfalso; now apply Hproto, Hincl|].
      eexists. reflexivity.
  - intros Hkey Hproto.
    destruct (find _ extensionMap) as [kv|] eqn:E;
      [exfalso; apply Hkey; now apply (Hkeys kv)|].
    destruct (includes types objectPrototypeNames) eqn:Ei;
      [exfalso; now apply Hproto, Hincl|].
    eexists. split; [reflexivity|]. apply mentions_middle.
Qed.

Lemma splitOn_whole (sep : N) (s : jsstring) :
  forall current, ~ In sep s -> splitOn sep s current = [rev current ++ s].
Proof.
  induction s as [|c t IH]; intros current Hs; simpl.
  - now rewrite app_nil_r.
  - destruct (N.eqb_spec c sep) as [->|Hne]; [exfalso; apply Hs; now left|].
    rewrite IH by (intros H; apply Hs; now right).
    simpl. now rewrite <- app_assoc.
Qed.

Lemma splitOn_not_nil (sep : N) (s : jsstring) :
  forall current, splitOn sep s current <> [].
Proof.
  induction s as [|c t IH]; intros current; simpl; [discriminate|].
  destruct (N.eqb c sep); [discriminate|apply IH].
Qed.

Lemma last_cons_not_nil (A : Type) (x d : A) (l : list A) :
  l <> [] -> last (x :: l) d = last l d.
Proof. destruct l; [congruence|reflexivity]. Qed.

Lemma splitOn_last (sep : N) (stem tail : jsstring) :
  forall current,
    last (splitOn sep (stem ++ sep :: tail) current) []
    = last (splitOn sep tail []) [].
Proof.
  induction stem as [|c t IH]; intros current; simpl.
  - rewrite N.eqb_refl. apply last_cons_not_nil, splitOn_not_nil.
  - destruct (N.eqb c sep).
    + rewrite last_cons_not_nil by apply splitOn_not_nil. apply IH.
    + apply IH.
Qed.

(** X4: the extension of a file name is what follows its last [.]: for a
    name [stem.ext], where [ext] holds no [.], [getExtension] gives [ext];
    and a name without a [.] is returned as it is. *)
Theorem getExtension_after_last_dot (stem ext : jsstring) :
  ~ In 46%N ext ->
  getExtension (stem ++ str "." ++ ext) = ext /\ getExtension ext = ext.
Proof.
  intros Hext. unfold getExtension, split. split.
  - change (str "." ++ ext) with (46%N :: ext).
    rewrite splitOn_last, splitOn_whole by assumption. reflexivity.
  - now rewrite splitOn_whole.
Qed.

Lemma getExtension_after_last_dot_witness :
  getExtension (str "index.d" ++ str "." ++ str "ts") = str "ts"
  /\ getExtension (str "ts") = str "ts".
Proof.
  apply getExtension_after_last_dot.
  simpl. intros H. repeat (destruct H as [H|H]; [discriminate|]). exact H.
Defined.

(** ** removeTsExtension *)

Lemma stripPrefix_app (p s : jsstring) : stripPrefix p (p ++ s) = Some s.
Proof.
  induction p as [|a p IH]; simpl; [reflexivity|]. now rewrite N.eqb_refl.
Qed.

Lemma stripPrefix_Some (p : jsstring) :
  forall s r, stripPrefix p s = Some r -> s = p ++ r.
Proof.
  induction p as [|a p IH]; intros s r; simpl.
  - now intros [= ->].
  - destruct s as [|b s]; [discriminate|].
    destruct (N.eqb_spec a b) as [->|]; [|discriminate].
    intros H. now rewrite (IH _ _ H).
Qed.

Lemma replaceSuffix_hit (suffix by_ base : jsstring) :
  replaceSuffix suffix by_ (base ++ suffix) = base ++ by_.
Proof.
  unfold replaceSuffix. rewrite rev_app_distr, stripPrefix_app.
  now rewrite rev_involutive.
Qed.

Lemma replaceSuffix_miss (suffix by_ s : jsstring) :
  (forall stem, s <> stem ++ suffix) -> replaceSuffix suffix by_ s = s.
Proof.
  intros H. unfold replaceSuffix.
  destruct (stripPrefix (rev suffix) (rev s)) as [r|] eqn:E; [|reflexivity].
  exfalso. apply stripPrefix_Some in E. apply (H (rev r)).
  rewrite <- (rev_involutive s), E, rev_app_distr. now rewrite rev_involutive.
Qed.

Lemma takeWhile_stop (A : Type) (f : A -> bool) (a : list A) (x : A) (b : list A) :
  Forall (fun c => f c = true) a -> f x = false ->
  takeWhile f (a ++ x :: b) = a.
Proof.
  induction 1 as [|c a Hc Ha IH]; intros Hx; simpl.
  - now rewrite Hx.
  - now rewrite Hc, IH.
Qed.

(** The parts before and after the last occurrence of a code unit. *)
Lemma last_occurrence_unique (c : N) (a x b y : jsstring) :
  ~ In c x -> ~ In c y -> a ++ c :: x = b ++ c :: y -> a = b /\ x = y.
Proof.
  revert b. induction a as [|h a IH]; intros [|k b] Hx Hy; simpl; intros H.
  - injection H as <-. auto.
  - injection H as <- ->. exfalso. apply Hx, in_or_app. right. now left.
  - injection H as -> <-. exfalso. apply Hy, in_or_app. right. now left.
  - injection H as -> H. destruct (IH b Hx Hy H) as [-> ->]. auto.
Qed.

(** The last [replace] of [removeTsExtension] on a name that ends in [.]
    and a run of code units other than [/] and [.]. *)
Lemma takeWhile_extension (base ext : jsstring) :
  Forall (fun c => c <> 46%N /\ c <> 47%N) ext ->
  takeWhile (fun c => negb (N.eqb c 47 || N.eqb c 46)) (rev (base ++ 46%N :: ext))
  = rev ext
  /\ skipn (List.length (rev ext)) (rev (base ++ 46%N :: ext)) = 46%N :: rev base.
Proof.
  intros Hext.
  assert (Hr : rev (base ++ 46%N :: ext) = rev ext ++ 46%N :: rev base).
  { rewrite rev_app_distr. simpl. now rewrite <- app_assoc. }
  rewrite Hr. split.
  - apply takeWhile_stop; [|reflexivity].
    apply Forall_rev. eapply Forall_impl; [|exact Hext].
    intros c [H1 H2]. simpl.
    destruct (N.eqb_spec c 47), (N.eqb_spec c 46); simpl; congruence.
  - rewrite skipn_app, skipn_all, Nat.sub_diag. reflexivity.
Qed.

Lemma removeTsExtension_last (base ext : jsstring) :
  ext <> [] -> Forall (fun c => c <> 46%N /\ c <> 47%N) ext ->
  (forall stem, base ++ 46%N :: ext <> stem ++ str ".d.ts") ->
  (forall stem, base ++ 46%N :: ext <> stem ++ str ".map") ->
  removeTsExtension (base ++ 46%N :: ext) = base.
Proof.
  intros Hne Hext Hdts Hmap. unfold removeTsExtension.
  rewrite (@replaceSuffix_miss (str ".d.ts")) by assumption.
  rewrite (@replaceSuffix_miss (str ".map")) by assumption.
  cbv zeta.
  destruct (takeWhile_extension base Hext) as [-> Hskip].
  destruct (rev ext) as [|c r] eqn:E.
  - exfalso. apply Hne. rewrite <- (rev_involutive ext), E. reflexivity.
  - rewrite Hskip. now rewrite rev_involutive.
Qed.

Lemma dot_free_suffix (ext : jsstring) :
  Forall (fun c => c <> 46%N /\ c <> 47%N) ext -> ~ In 46%N ext.
Proof.
  intros H Hin. rewrite Forall_forall in H. now destruct (H _ Hin).
Qed.

(** X5: [removeTsExtension] gives the stem of a file name. It takes
    [.d.ts] off a declaration file; it takes [.ext.map] off a source map,
    and [.ext] off any other name, where the extension [ext] is a
    non-empty run of code units other than [.] and [/], other than [map],
    and the name is no declaration file. A name without a [.] is left as
    it is. So a source file, the file emitted for it, its declaration file
    and its source map have the same stem. *)
Theorem removeTsExtension_stem (base ext : jsstring) :
  removeTsExtension (base ++ str ".d.ts") = base
  /\ (ext <> [] -> Forall (fun c => c <> 46%N /\ c <> 47%N) ext ->
      removeTsExtension (base ++ str "." ++ ext ++ str ".map") = base
      /\ (ext <> str "map" ->
          (ext = str "ts" -> forall stem, base <> stem ++ str ".d") ->
          removeTsExtension (base ++ str "." ++ ext) = base))
  /\ (~ In 46%N base -> removeTsExtension base = base).
Proof.
  split; [|split].
  - unfold removeTsExtension. rewrite replaceSuffix_hit.
    rewrite replaceSuffix_miss.
    + change (str ".ts") with (46%N :: str "ts"). cbv zeta.
      assert (Hts : Forall (fun c => c <> 46%N /\ c <> 47%N) (str "ts"))
        by (repeat constructor; discriminate).
      destruct (takeWhile_extension base Hts) as [-> Hskip].
      change (rev (str "ts")) with [115%N; 116%N] in *.
      cbv iota beta. rewrite Hskip. now rewrite rev_involutive.
    + intros stem H.
      apply (f_equal (@rev N)) in H. rewrite !rev_app_distr in H.
      simpl in H. discriminate.
  - intros Hne Hext.
    assert (Hdot : ~ In 46%N ext) by now apply dot_free_suffix.
    split.
    + (* a source map *)
      unfold removeTsExtension.
      rewrite (@replaceSuffix_miss (str ".d.ts")).
      2:{ intros stem H. apply (f_equal (@rev N)) in H.
          rewrite !rev_app_distr in H. simpl in H. discriminate. }
      replace (base ++ str "." ++ ext ++ str ".map")
        with ((base ++ str "." ++ ext) ++ str ".map")
        by (rewrite <- !app_assoc; reflexivity).
      rewrite replaceSuffix_hit, app_nil_r.
      change (str "." ++ ext) with (46%N :: ext). cbv zeta.
      destruct (takeWhile_extension base Hext) as [-> Hskip].
      destruct (rev ext) as [|c r] eqn:E.
      * exfalso. apply Hne. rewrite <- (rev_involutive ext), E. reflexivity.
      * rewrite Hskip. now rewrite rev_involutive.
    + intros Hmap Hts. change (str "." ++ ext) with (46%N :: ext).
      apply removeTsExtension_last; try assumption.
      * intros stem H.
        change (str ".d.ts") with (str ".d" ++ 46%N :: str "ts") in H.
        rewrite app_assoc in H.
        apply last_occurrence_unique in H as [Hb He]; try assumption.
        -- now apply (Hts He stem).
        -- simpl. intros F. repeat (destruct F as [F|F]; [discriminate|]). exact F.
      * intros stem H.
        change (str ".map") with (46%N :: str "map") in H.
        apply last_occurrence_unique in H as [Hb He]; try assumption.
        -- now apply Hmap.
        -- simpl. intros F. repeat (destruct F as [F|F]; [discriminate|]). exact F.
  - intros Hdot. unfold removeTsExtension.
    assert (Hmiss : forall suffix stem,
               In 46%N suffix -> base <> stem ++ suffix).
    { intros suffix stem Hin ->. apply Hdot, in_or_app. now right. }
    rewrite (@replaceSuffix_miss (str ".d.ts"))
      by (intros stem; apply Hmiss; simpl; auto).
    rewrite (@replaceSuffix_miss (str ".map"))
      by (intros stem; apply Hmiss; simpl; auto).
    cbv zeta.
    assert (Hrev : ~ In 46%N (rev base)) by (now rewrite <- in_rev).
    generalize dependent (rev base). intros r Hr.
    assert (Hskip : forall l : jsstring,
               ~ In 46%N l ->
               match skipn (List.length
                              (takeWhile (fun c => negb (N.eqb c 47 || N.eqb c 46)) l)) l
               with
               | 46%N :: _ => False
               | _ => True
               end).
    { induction l as [|c l IH]; intros Hl; simpl; [exact I|].
      destruct (N.eqb_spec c 47) as [->|H47]; simpl; [exact I|].
      destruct (N.eqb_spec c 46) as [->|H46]; simpl.
      - apply Hl. now left.
      - apply IH. intros H. apply Hl. now right. }
    specialize (Hskip r Hr).
    destruct (takeWhile _ r) as [|c run]; [reflexivity|].
    destruct (skipn _ r) as [|d rest]; [reflexivity|].
    destruct d as [|p]; [reflexivity|].
    repeat (destruct p as [p|p|]; try reflexivity).
    contradiction.
Qed.

(** ** Where removeCodeRanges leaves a record *)

Lemma removedBefore_none (m : list Range) (s : Z) :
  Forall (fun r => s < snd r) m -> removedBefore m s = 0.
Proof.
  induction 1 as [|r m Hr Hm IH]; simpl; [reflexivity|].
  destruct (Z.leb_spec (snd r) s); lia.
Qed.

Lemma apart_after (r : Range) (m : list Range) :
  Forall (apart r) m -> Forall valid m -> Forall (fun q => snd r < snd q) m.
Proof.
  intros Ha Hv. rewrite Forall_forall in *. intros q Hq.
  specialize (Ha q Hq). specialize (Hv q Hq). unfold apart, valid in *. lia.
Qed.

(** Ranges that lie apart, from [lo] on, and end at or before [s] are not
    longer together than the distance from [lo] to [s]. *)
Lemma removedBefore_bound (m : list Range) :
  StronglySorted apart m -> Forall valid m ->
  forall lo s, Forall (fun r => lo <= fst r) m -> lo <= s ->
               0 <= removedBefore m s <= s - lo.
Proof.
  induction 1 as [|r m Hs IH Hr]; intros Hv lo s Hlo Hle; simpl; [lia|].
  inversion Hv as [|? ? Hvr Hvm]; subst.
  inversion Hlo as [|? ? Hlr Hlm]; subst.
  unfold valid in Hvr.
  destruct (Z.leb_spec (snd r) s).
  - assert (Hb : Forall (fun q => snd r <= fst q) m).
    { eapply Forall_impl; [|exact Hr]. unfold apart. intros; lia. }
    specialize (IH Hvm (snd r) s Hb ltac:(lia)). lia.
  - rewrite removedBefore_none; [lia|].
    eapply Forall_impl; [|exact (apart_after Hr Hvm)]. simpl. intros; lia.
Qed.

Lemma reconciledAll_app (a b : list Range) (s l : Z) :
  reconciledAll (a ++ b) s l = reconciledAll b (reconciledAll a s l) l.
Proof. unfold reconciledAll. now rewrite fold_left_app. Qed.

Lemma reconciledAll_one (r : Range) (s l : Z) :
  reconciledAll [r] s l = reconciled (fst r) (snd r) s l.
Proof. reflexivity. Qed.

(** The rule, applied for ranges that lie apart from the last one to the
    first: a record that one of them touches ends at -1, and a record that
    none touches moves down by the length of the ranges before it. *)
Lemma reconciledAll_apart (m : list Range) :
  StronglySorted apart m -> Forall (fun r => 0 <= fst r <= snd r) m ->
  forall s l,
    0 <= l ->
    ((exists r, In r m /\ touches r s l) -> reconciledAll (rev m) s l = -1)
    /\ ((forall r, In r m -> ~ touches r s l) ->
        reconciledAll (rev m) s l = s - removedBefore m s).
Proof.
  induction 1 as [|r m Hs IH Hr]; intros Hv s l Hl.
  - split.
    + intros (r & [] & _).
    + intros _. simpl. unfold reconciledAll. simpl. lia.
  - inversion Hv as [|? ? Hvr Hvm]; subst.
    assert (Hvalid : Forall valid m)
      by (eapply Forall_impl; [|exact Hvm]; unfold valid; simpl; intros; lia).
    destruct (IH Hvm s l Hl) as [IHt IHn].
    simpl rev. rewrite reconciledAll_app, reconciledAll_one.
    assert (Hafter : s < snd r -> removedBefore m s = 0).
    { intros Hlt. apply removedBefore_none.
      eapply Forall_impl; [|exact (apart_after Hr Hvalid)]. simpl. intros; lia. }
    assert (Hdec : (exists q, In q m /\ touches q s l)
                   \/ (forall q, In q m -> ~ touches q s l)).
    { destruct (Exists_dec (fun q => touches q s l) m) as [He|Hn].
      - intros q. unfold touches.
        destruct (Z_lt_dec (fst q) (s + l)), (Z_lt_dec s (snd q));
          [left|right|right|right]; lia.
      - left. apply Exists_exists in He. exact He.
      - right. intros q Hq Ht. apply Hn, Exists_exists. eauto. }
    split.
    + intros (q & [<-|Hq] & Ht).
      * destruct Ht as [Ht1 Ht2].
        destruct Hdec as [Hsome|Hnone].
        -- rewrite IHt by assumption. unfold reconciled.
           destruct (Z.leb_spec (-1 + l) (fst r)); [reflexivity|].
           destruct (Z.ltb_spec (-1) (snd r)); [reflexivity|lia].
        -- rewrite (IHn Hnone), (Hafter Ht2).
           unfold reconciled.
           destruct (Z.leb_spec (s - 0 + l) (fst r)); [lia|].
           destruct (Z.ltb_spec (s - 0) (snd r)); [reflexivity|lia].
      * rewrite IHt by eauto. unfold reconciled.
        destruct (Z.leb_spec (-1 + l) (fst r)); [reflexivity|].
        destruct (Z.ltb_spec (-1) (snd r)); [reflexivity|lia].
    + intros Hn.
      assert (Hnr : ~ touches r s l) by (apply Hn; now left).
      assert (Hnm : forall q, In q m -> ~ touches q s l)
        by (intros q Hq; apply Hn; now right).
      rewrite (IHn Hnm). simpl removedBefore. unfold touches in Hnr.
      destruct (Z.leb_spec (snd r) s) as [Hb|Hb]; cbv iota.
      * assert (Hbound : 0 <= removedBefore m s <= s - snd r).
        { apply (removedBefore_bound Hs Hvalid); [|lia].
          eapply Forall_impl; [|exact Hr]. unfold apart. intros; lia. }
        unfold reconciled.
        destruct (Z.leb_spec (s - removedBefore m s + l) (fst r)); [lia|].
        destruct (Z.ltb_spec (s - removedBefore m s) (snd r)); lia.
      * rewrite (Hafter Hb). unfold reconciled.
        destruct (Z.leb_spec (s - 0 + l) (fst r)); lia.
Qed.

Lemma len_app (a b : jsstring) : len (a ++ b) = len a + len b.
Proof. unfold len. rewrite length_app. lia. Qed.

Lemma len_cons (c : N) (a : jsstring) : len (c :: a) = len a + 1.
Proof. unfold len. simpl List.length. lia. Qed.

Lemma eraseFrom_app (m : list Range) (p q : jsstring) :
  forall i, eraseFrom m (p ++ q) i = eraseFrom m p i ++ eraseFrom m q (i + len p).
Proof.
  induction p as [|c p IH]; intros i; simpl.
  - unfold len; simpl. now rewrite Z.add_0_r.
  - rewrite IH, len_cons.
    replace (i + 1 + len p) with (i + (len p + 1)) by lia.
    now destruct (covered m i).
Qed.

Lemma eraseFrom_uncovered (m : list Range) (w : jsstring) :
  forall i,
    (forall x, i <= x < i + len w -> covered m x = false) ->
    eraseFrom m w i = w.
Proof.
  induction w as [|c w IH]; intros i H; simpl; [reflexivity|].
  pose proof (len_nonneg w). rewrite len_cons in H.
  rewrite H by lia. rewrite IH; [reflexivity|].
  intros x Hx. apply H. lia.
Qed.

(** What is left of a text that starts at offset [i], when no range starts
    before [i] and none reaches over the end of the text. *)
Lemma eraseFrom_length (m : list Range) :
  StronglySorted apart m ->
  forall (p : jsstring) i,
    Forall (fun r => i <= fst r <= snd r) m ->
    Forall (fun r => snd r <= i + len p \/ i + len p <= fst r) m ->
    len (eraseFrom m p i) = len p - removedBefore m (i + len p).
Proof.
  induction 1 as [|r m Hs IH Hr]; intros p i Hv Hn.
  - rewrite eraseFrom_none. simpl. lia.
  - inversion Hv as [|? ? Hvr Hvm]; subst.
    inversion Hn as [|? ? Hnr Hnm]; subst.
    pose proof (len_nonneg p) as Hp.
    assert (Hvalid : Forall valid m)
      by (eapply Forall_impl; [|exact Hvm]; unfold valid; simpl; intros; lia).
    simpl removedBefore.
    destruct (Z.leb_spec (snd r) (i + len p)) as [Hb|Hb].
    + (* the range lies inside the text *)
      set (A := Z.to_nat (fst r - i)). set (B := Z.to_nat (snd r - fst r)).
      set (p1 := firstn A p). set (p2 := firstn B (skipn A p)).
      set (p3 := skipn B (skipn A p)).
      assert (Ep : p = p1 ++ p2 ++ p3).
      { unfold p1, p2, p3. now rewrite !firstn_skipn. }
      assert (L1 : len p1 = fst r - i).
      { unfold len, p1, A. rewrite length_firstn. unfold len in *. lia. }
      assert (L2 : len p2 = snd r - fst r).
      { unfold len, p2, B, A. rewrite length_firstn, length_skipn.
        unfold len in *. lia. }
      assert (L3 : len p = len p1 + len p2 + len p3).
      { rewrite Ep at 1. rewrite !len_app. lia. }
      rewrite Ep at 1.
      rewrite eraseFrom_keep.
      2:{ constructor; [lia|].
          eapply Forall_impl; [|exact Hr]. unfold apart. intros; lia. }
      rewrite eraseFrom_drop by lia.
      rewrite eraseFrom_past by lia.
      rewrite len_app.
      rewrite (IH p3 (i + len p1 + len p2)).
      * replace (i + len p1 + len p2 + len p3) with (i + len p) by lia. lia.
      * rewrite Forall_forall in *. intros q Hq.
        specialize (Hr q Hq). specialize (Hvm q Hq). unfold apart in Hr. lia.
      * replace (i + len p1 + len p2 + len p3) with (i + len p) by lia.
        assumption.
    + (* the text ends before the range *)
      rewrite <- (app_nil_r p) at 1.
      rewrite eraseFrom_keep.
      2:{ constructor; [lia|].
          eapply Forall_impl; [|exact Hr]. unfold apart. intros; lia. }
      rewrite eraseFrom_nil, app_nil_r.
      rewrite removedBefore_none; [lia|].
      eapply Forall_impl; [|exact (apart_after Hr Hvalid)]. simpl. intros; lia.
Qed.

Lemma slice_middle (a w b : jsstring) :
  slice (a ++ w ++ b) (len a) (len a + len w) = w.
Proof.
  pose proof (len_nonneg a). pose proof (len_nonneg w). pose proof (len_nonneg b).
  unfold slice. rewrite !len_app.
  rewrite !relIndex_inside by lia.
  replace (len a + len w - len a) with (len w) by lia.
  unfold len. rewrite !Nat2Z.id.
  rewrite skipn_app, skipn_all, Nat.sub_diag. simpl.
  rewrite firstn_app, firstn_all, Nat.sub_diag. simpl. apply app_nil_r.
Qed.

(** A text with the part of a given length at a given offset set apart. *)
Lemma text_parts (code : jsstring) (s l : Z) :
  0 <= s -> 0 <= l -> s + l <= len code ->
  exists p w q, code = p ++ w ++ q /\ len p = s /\ len w = l.
Proof.
  intros Hs Hl Hle.
  exists (firstn (Z.to_nat s) code), (firstn (Z.to_nat l) (skipn (Z.to_nat s) code)),
    (skipn (Z.to_nat l) (skipn (Z.to_nat s) code)).
  split; [now rewrite !firstn_skipn|].
  unfold len in *. rewrite !length_firstn, length_skipn. lia.
Qed.

(** X6: what [removeCodeRanges] does to a record that lies inside the
    text, for removals with [0 <= start <= end]. The record keeps
    everything but its [start]. If a merged range touches it (the record
    neither ends at or before the start of the range nor starts at or
    after its end), its [start] is -1 in the end. If no merged range
    touches it, its [start] goes down by the total length of the merged
    ranges that end at or before it, stays non-negative, and the text the
    record spans in the returned code is the text it spanned in the
    input. *)
Theorem removeCodeRanges_keeps_node_text (code : jsstring)
    (removals : list Range) (nodes : list Node.t) (n : nat) (node : Node.t) :
  Forall (fun r => 0 <= fst r <= snd r) removals ->
  nth_error nodes n = Some node ->
  0 <= Node.start node -> 0 <= Node.length node ->
  Node.start node + Node.length node <= len code ->
  exists start',
    nth_error (removedStore (removeCodeRangesOf code removals nodes)) n
    = Some (Node.setStart node start')
    /\ ((exists r, In r (mergeRanges removals)
                   /\ touches r (Node.start node) (Node.length node)) ->
        start' = -1)
    /\ ((forall r, In r (mergeRanges removals) ->
                   ~ touches r (Node.start node) (Node.length node)) ->
        start' = Node.start node
                 - removedBefore (mergeRanges removals) (Node.start node)
        /\ 0 <= start'
        /\ slice (removedCode (removeCodeRangesOf code removals nodes))
                 start' (start' + Node.length node)
           = slice code (Node.start node) (Node.start node + Node.length node)).
Proof.
  intros Hv Hnth Hs Hl Hin.
  assert (Hvalid : Forall valid removals)
    by (eapply Forall_impl; [|exact Hv]; unfold valid; simpl; intros; lia).
  assert (Hpos : Forall (fun r => 0 <= fst r) removals)
    by (eapply Forall_impl; [|exact Hv]; simpl; intros; lia).
  destruct (mergeRanges_apart Hvalid) as [Hap Hva].
  pose proof (mergeRanges_starts Hpos) as Hst.
  assert (Hm : Forall (fun r => 0 <= fst r <= snd r) (mergeRanges removals)).
  { rewrite Forall_forall in *. intros r Hr.
    specialize (Hst r Hr). specialize (Hva r Hr). unfold valid in Hva. lia. }
  assert (Hrev : JS.sort byStartDescending (mergeRanges removals)
                 = rev (mergeRanges removals))
    by (apply sort_descending_rev; now apply apart_ascending).
  destruct (reconciledAll_apart Hap Hm (Node.start node) Hl) as [Ht Hn].
  exists (reconciledAll (rev (mergeRanges removals)) (Node.start node)
            (Node.length node)).
  split; [|split].
  - rewrite removeCodeRangesOf_nodes, Hrev.
    now rewrite (map_nth_error _ _ _ Hnth).
  - exact Ht.
  - intros Hfree. rewrite (Hn Hfree).
    set (s := Node.start node) in *. set (l := Node.length node) in *.
    set (m := mergeRanges removals) in *.
    destruct (removedBefore_bound Hap Hva (lo := 0) (s := s) Hst Hs) as [Hb0 Hb1].
    split; [reflexivity|]. split; [lia|].
    unfold removeCodeRangesOf.
    rewrite (proj1 (removeCodeRanges_erases code _ _ Hv)).
    unfold erase. rewrite (eraseFrom_ext code (m := removals) (n := m))
      by (intros x; symmetry; apply mergeRanges_covers).
    destruct (text_parts code Hs Hl Hin) as (p & w & q & Ecode & Lp & Lw).
    rewrite Ecode at 1. rewrite !eraseFrom_app.
    rewrite (eraseFrom_uncovered m w).
    2:{ intros x Hx. apply not_true_is_false. intros Hc.
        apply covered_covers in Hc as (r & Hr & Hrx).
        apply (Hfree r Hr). unfold touches. lia. }
    assert (Lerased : len (eraseFrom m p 0) = s - removedBefore m s).
    { rewrite (eraseFrom_length Hap).
      - rewrite Lp. simpl. reflexivity.
      - exact Hm.
      - rewrite Forall_forall. intros r Hr. simpl. rewrite Lp.
        pose proof (Hfree r Hr) as Hf. unfold touches in Hf. lia. }
    rewrite <- Lerased. rewrite <- Lw at 1. rewrite slice_middle.
    rewrite Ecode, <- Lp, <- Lw. now rewrite slice_middle.
Qed.

Lemma removeCodeRanges_keeps_node_text_witness :
  exists start',
    nth_error (removedStore (removeCodeRangesOf (str "abcdefghij") [(2, 5); (4, 6)]
                               [Sample.nodeAt 7 2])) 0
    = Some (Node.setStart (Sample.nodeAt 7 2) start')
    /\ ((exists r, In r (mergeRanges [(2, 5); (4, 6)]) /\ touches r 7 2) ->
        start' = -1)
    /\ ((forall r, In r (mergeRanges [(2, 5); (4, 6)]) -> ~ touches r 7 2) ->
        start' = 7 - removedBefore (mergeRanges [(2, 5); (4, 6)]) 7
        /\ 0 <= start'
        /\ slice (removedCode (removeCodeRangesOf (str "abcdefghij") [(2, 5); (4, 6)]
                                 [Sample.nodeAt 7 2]))
                 start' (start' + 2)
           = slice (str "abcdefghij") 7 (7 + 2)).
Proof.
  apply (@removeCodeRanges_keeps_node_text (str "abcdefghij") [(2, 5); (4, 6)]
           [Sample.nodeAt 7 2] 0 (Sample.nodeAt 7 2)).
  - repeat constructor; simpl; lia.
  - reflexivity.
  - simpl; lia.
  - simpl; lia.
  - unfold len; simpl; lia.
Defined.

(** ** The lines of a text *)

(** After a match, [matchAll] looks for the next one where the match
    ended. *)
Lemma matchAllFrom_skip (pat : Pattern) (a b : jsstring) :
  forall prev idx,
    matchAllFrom pat prev (a ++ b) idx (List.length a)
    = matchAllFrom pat (match rev a with [] => prev | c :: _ => Some c end)
                   b (idx + len a) 0.
Proof.
  induction a as [|c a IH]; intros prev idx.
  - simpl. unfold len. simpl. now rewrite Z.add_0_r.
  - simpl app. simpl List.length. cbn [matchAllFrom]. rewrite IH.
    rewrite len_cons. replace (idx + 1 + len a) with (idx + (len a + 1)) by lia.
    simpl rev. destruct (rev a); reflexivity.
Qed.

Lemma reLine_prev (prev prev' : option N) (s : jsstring) (idx : Z) :
  matchAllFrom reLine prev s idx 0 = matchAllFrom reLine prev' s idx 0.
Proof. destruct s; reflexivity. Qed.

(** What [/.*?($|\n)/] matches at the start of a text whose line
    terminators are line feeds: the text up to its first line feed, that
    one included, or all of it. *)
Lemma lineAt_first (s : jsstring) :
  lineFeedsOnly s = true ->
  exists m g rest,
    lineAt s = Some (m, g) /\ s = m ++ rest
    /\ ~ In 10%N (removelast m)
    /\ (s <> [] -> m <> [])
    /\ (rest <> [] -> last m 0%N = 10%N).
Proof.
  induction s as [|c t IH]; intros Hs.
  - exists [], [], []. simpl. repeat split; auto; congruence.
  - simpl in Hs. apply andb_true_iff in Hs as [Hc Ht].
    specialize (IH Ht). destruct IH as (m & g & rest & Hm & Et & Hbody & Hne & Hlast).
    simpl lineAt.
    destruct (N.eqb_spec c 10) as [->|Hc10].
    + exists [10%N], [10%N], t. simpl. repeat split; auto; discriminate.
    + simpl in Hc. rewrite orb_false_r in Hc. apply negb_true_iff in Hc.
      rewrite Hc, Hm.
      exists (c :: m), g, rest. split; [reflexivity|].
      split; [simpl; now rewrite Et|].
      split; [|split; [discriminate|]].
      * destruct m as [|x m]; [simpl; tauto|].
        change (removelast (c :: x :: m)) with (c :: removelast (x :: m)).
        intros [H|H]; [congruence|contradiction].
      * intros Hrest. specialize (Hlast Hrest).
        destruct m as [|x m]; [|exact Hlast].
        exfalso. simpl in Et. subst t. now apply Hne.
Qed.

(** Past the end of the lines, the line is the number of lines. *)
Lemma indexToPosLoop_past (ls : list jsstring) :
  forall i line0,
    len (List.concat ls) <= i ->
    indexToPosLoop ls i line0
    = mkPosition (line0 + Z.of_nat (List.length ls)) (i - len (List.concat ls)).
Proof.
  induction ls as [|l ls IH]; intros i line0 Hi;
    cbn [indexToPosLoop List.concat List.length] in *.
  - unfold len. simpl. f_equal; lia.
  - rewrite len_app in *.
    pose proof (len_nonneg l). pose proof (len_nonneg (List.concat ls)).
    destruct (Z.ltb_spec i (len l)); [lia|].
    rewrite IH by lia. f_equal; lia.
Qed.

Lemma takeWhile_app_stop (A : Type) (f : A -> bool) (a : list A) (x : A) (b : list A) :
  f x = false -> takeWhile f (a ++ x :: b) = takeWhile f a.
Proof.
  intros Hx. induction a as [|c a IH]; simpl.
  - now rewrite Hx.
  - destruct (f c); [now rewrite IH|reflexivity].
Qed.

Lemma takeWhile_all (A : Type) (f : A -> bool) (a : list A) :
  Forall (fun c => f c = true) a -> takeWhile f a = a.
Proof.
  induction 1 as [|c a Hc Ha IH]; simpl; [reflexivity|]. now rewrite Hc, IH.
Qed.

Lemma filter_none (A : Type) (f : A -> bool) (a : list A) :
  Forall (fun c => f c = false) a -> filter f a = [].
Proof.
  induction 1 as [|c a Hc Ha IH]; simpl; [reflexivity|]. now rewrite Hc.
Qed.

Lemma firstn_removelast (A : Type) (n : nat) (l : list A) :
  (n < List.length l)%nat -> firstn n l = firstn n (removelast l).
Proof.
  revert n. induction l as [|x l IH]; intros n Hn; simpl in Hn; [lia|].
  destruct l as [|y l].
  - simpl in Hn. assert (n = 0%nat) by lia. subst. reflexivity.
  - change (removelast (x :: y :: l)) with (x :: removelast (y :: l)).
    destruct n as [|n]; [reflexivity|]. simpl firstn. f_equal.
    apply IH. simpl in *. lia.
Qed.

Lemma not_line_feed (l : jsstring) :
  ~ In 10%N l -> Forall (fun c => notLineFeed c = true) l
                 /\ Forall (fun c => N.eqb 10 c = false) l.
Proof.
  intros H. split; apply Forall_forall; intros c Hc; unfold notLineFeed.
  - destruct (N.eqb_spec c 10) as [->|]; [contradiction|reflexivity].
  - destruct (N.eqb_spec 10 c) as [<-|]; [contradiction|reflexivity].
Qed.

Lemma line_and_column_first (m rest : jsstring) (i : Z) :
  ~ In 10%N (removelast m) -> 0 <= i < len m ->
  lineFeedsBefore (m ++ rest) i = 0 /\ columnOf (m ++ rest) i = i.
Proof.
  intros Hbody Hi. unfold lineFeedsBefore, columnOf.
  rewrite slice_firstn by lia.
  assert (Hn : (Z.to_nat i < List.length m)%nat) by (unfold len in Hi; lia).
  rewrite firstn_app.
  replace (Z.to_nat i - List.length m)%nat with 0%nat by lia.
  simpl firstn. rewrite app_nil_r, (@firstn_removelast _ _ _ Hn).
  assert (Hfree : ~ In 10%N (firstn (Z.to_nat i) (removelast m))).
  { intros H. apply Hbody. rewrite <- (firstn_skipn (Z.to_nat i) (removelast m)).
    apply in_or_app. now left. }
  destruct (@not_line_feed _ Hfree) as [Hcol Hline].
  split.
  - now rewrite (filter_none _ Hline).
  - rewrite takeWhile_all by (now apply Forall_rev).
    unfold len. rewrite length_rev, length_firstn.
    assert (List.length (removelast m) = (List.length m - 1)%nat).
    { destruct m as [|x m] using rev_ind; [reflexivity|].
      rewrite removelast_last, length_app. simpl. lia. }
    lia.
Qed.

Lemma line_and_column_later (body rest : jsstring) (i : Z) :
  ~ In 10%N body -> len body + 1 <= i ->
  lineFeedsBefore ((body ++ [10%N]) ++ rest) i
  = 1 + lineFeedsBefore rest (i - (len body + 1))
  /\ columnOf ((body ++ [10%N]) ++ rest) i = columnOf rest (i - (len body + 1)).
Proof.
  intros Hbody Hi. pose proof (len_nonneg body) as Hb.
  unfold lineFeedsBefore, columnOf. rewrite !slice_firstn by lia.
  assert (Hlen : List.length (body ++ [10%N]) = Z.to_nat (len body + 1)).
  { rewrite length_app. unfold len. simpl. lia. }
  rewrite firstn_app, Hlen.
  rewrite firstn_all2 by lia.
  replace (Z.to_nat i - Z.to_nat (len body + 1))%nat
    with (Z.to_nat (i - (len body + 1))) by lia.
  destruct (@not_line_feed _ Hbody) as [Hcol Hline].
  split.
  - rewrite !filter_app, (filter_none _ Hline).
    change (filter (N.eqb 10) [10%N]) with [10%N].
    change ([] ++ [10%N]) with [10%N].
    rewrite len_app. change (len [10%N]) with 1. reflexivity.
  - rewrite rev_app_distr, rev_app_distr. simpl rev at 2. simpl app at 2.
    now rewrite takeWhile_app_stop by reflexivity.
Qed.

(** The matches of [/.*?($|\n)/g] from some offset of a text on, and what
    [indexToPos] makes of them. *)
Lemma lines_from (n : nat) :
  forall s : jsstring,
    (List.length s <= n)%nat -> lineFeedsOnly s = true ->
    forall prev idx,
    exists ls,
      map Match.matched (matchAllFrom reLine prev s idx 0) = ls ++ [[]]
      /\ List.concat ls = s
      /\ Forall (fun l => l <> [] /\ ~ In 10%N (removelast l)) ls
      /\ Forall (fun l => last l 0%N = 10%N) (removelast ls)
      /\ (forall i line0,
            0 <= i < len s ->
            indexToPosLoop (ls ++ [[]]) i line0
            = mkPosition (line0 + lineFeedsBefore s i) (columnOf s i)).
Proof.
  induction n as [|n IH]; intros s Hn Hs prev idx.
  - destruct s; [|simpl in Hn; lia].
    exists []. repeat split; try constructor.
    intros i line0 Hi. unfold len in Hi. simpl in Hi. lia.
  - destruct s as [|c t].
    { exists []. repeat split; try constructor.
      intros i line0 Hi. unfold len in Hi. simpl in Hi. lia. }
    destruct (lineAt_first _ Hs) as (m & g & rest & Hm & Es & Hbody & Hne & Hlast).
    destruct m as [|c' m']; [exfalso; apply Hne; [discriminate|reflexivity]|].
    simpl in Es. injection Es as <- Et.
    assert (Hrest : lineFeedsOnly rest = true).
    { unfold lineFeedsOnly in *. rewrite Et in Hs. simpl in Hs.
      apply andb_true_iff in Hs as [_ Hs]. rewrite forallb_app in Hs.
      now apply andb_true_iff in Hs as [_ Hs]. }
    assert (Hshort : (List.length rest <= n)%nat).
    { simpl in Hn. rewrite Et, length_app in Hn. lia. }
    cbn [matchAllFrom]. unfold reLine at 1. rewrite Hm.
    cbn [List.length pred]. rewrite Et, matchAllFrom_skip.
    destruct (IH rest Hshort Hrest
                (match rev m' with [] => Some c | x :: _ => Some x end)
                (idx + 1 + len m'))
      as (ls & Els & Econcat & Hlines & Hends & Hpos).
    exists ((c :: m') :: ls). cbn [map Match.matched]. rewrite Els.
    split; [reflexivity|].
    split; [simpl; now rewrite Econcat|].
    split; [constructor; [split; [discriminate|assumption]|assumption]|].
    split.
    + destruct ls as [|l ls]; [constructor|].
      change (removelast ((c :: m') :: l :: ls))
        with ((c :: m') :: removelast (l :: ls)).
      constructor; [|assumption].
      apply Hlast. intros ->. simpl in Econcat.
      inversion Hlines as [|? ? [Hl _] _]; subst.
      destruct l; [now apply Hl|discriminate].
    + intros i line0 Hi.
      change (((c :: m') :: ls) ++ [[]]) with ((c :: m') :: (ls ++ [[]])).
      cbn [indexToPosLoop].
      change (c :: m' ++ rest) with ((c :: m') ++ rest) in *.
      rewrite len_app in Hi.
      destruct (Z.ltb_spec i (len (c :: m'))) as [Hin|Hout].
      * destruct (@line_and_column_first (c :: m') rest i Hbody ltac:(lia))
          as [-> ->].
        now rewrite Z.add_0_r.
      * assert (Hnonempty : rest <> []).
        { intros ->. change (len []) with 0 in Hi. lia. }
        specialize (Hlast Hnonempty).
        assert (Em : c :: m' = removelast (c :: m') ++ [10%N]).
        { rewrite <- Hlast. apply app_removelast_last. discriminate. }
        assert (Lm : len (c :: m') = len (removelast (c :: m')) + 1).
        { rewrite Em at 1. rewrite len_app. reflexivity. }
        rewrite Em at 2 3.
        destruct (@line_and_column_later (removelast (c :: m')) rest i Hbody
                    ltac:(lia)) as [-> ->].
        rewrite <- Lm. rewrite Hpos by lia. f_equal. lia.
Qed.

(** X7: the lines [createPositionConverter] keeps of a text whose line
    terminators are line feeds. Put together they are the text; every line
    is cut after a line feed, apart from the last one with text in it,
    which ends where the text ends; and an empty string follows them. *)
Theorem lines_cut_at_line_feeds (code : jsstring) :
  lineFeedsOnly code = true ->
  exists ls,
    lines code = ls ++ [[]]
    /\ List.concat ls = code
    /\ Forall (fun l => l <> [] /\ ~ In 10%N (removelast l)) ls
    /\ Forall (fun l => last l 0%N = 10%N) (removelast ls).
Proof.
  intros Hcode.
  destruct (@lines_from (List.length code) code (le_n _) Hcode None 0)
    as (ls & Els & Econcat & Hlines & Hends & _).
  exists ls. unfold lines, matchAll. auto.
Qed.

Lemma lines_cut_at_line_feeds_witness :
  exists ls,
    lines Sample.twoLines = ls ++ [[]]
    /\ List.concat ls = Sample.twoLines
    /\ Forall (fun l => l <> [] /\ ~ In 10%N (removelast l)) ls
    /\ Forall (fun l => last l 0%N = 10%N) (removelast ls).
Proof. apply (lines_cut_at_line_feeds Sample.twoLines). reflexivity. Defined.

(** X8: in a text whose line terminators are line feeds, [indexToPos]
    gives for an offset inside the text the number of line feeds before
    it as the line, and the number of code units between the last of them
    and the offset as the character. A negative offset stays on line 0.
    An offset at or past the end of the text is put on the line after the
    last element of [lines], and so on no line of the text. *)
Theorem indexToPos_line_and_column (code : jsstring) (i : Z) :
  lineFeedsOnly code = true ->
  (0 <= i < len code ->
   indexToPos (lines code) i
   = mkPosition (lineFeedsBefore code i) (columnOf code i))
  /\ (i < 0 -> indexToPos (lines code) i = mkPosition 0 i)
  /\ (len code <= i ->
      indexToPos (lines code) i
      = mkPosition (Z.of_nat (List.length (lines code))) (i - len code)).
Proof.
  intros Hcode.
  destruct (@lines_from (List.length code) code (le_n _) Hcode None 0)
    as (ls & Els & Econcat & Hlines & Hends & Hpos).
  unfold lines, matchAll, indexToPos. rewrite Els.
  split; [|split].
  - intros Hi. now rewrite Hpos.
  - intros Hi. destruct ls as [|l ls]; simpl.
    + destruct (Z.ltb_spec i (len [])); [reflexivity|].
      unfold len in *. simpl in *. lia.
    + pose proof (len_nonneg l).
      destruct (Z.ltb_spec i (len l)); [reflexivity|lia].
  - intros Hi.
    assert (Hc : List.concat (ls ++ [[]]) = code).
    { rewrite concat_app. simpl. now rewrite app_nil_r. }
    rewrite indexToPosLoop_past; rewrite Hc; [reflexivity|assumption].
Qed.

Lemma indexToPos_line_and_column_witness :
  (0 <= 4 < len Sample.twoLines ->
   indexToPos (lines Sample.twoLines) 4
   = mkPosition (lineFeedsBefore Sample.twoLines 4) (columnOf Sample.twoLines 4))
  /\ (4 < 0 -> indexToPos (lines Sample.twoLines) 4 = mkPosition 0 4)
  /\ (len Sample.twoLines <= 4 ->
      indexToPos (lines Sample.twoLines) 4
      = mkPosition (Z.of_nat (List.length (lines Sample.twoLines)))
                   (4 - len Sample.twoLines)).
Proof. apply (indexToPos_line_and_column Sample.twoLines 4). reflexivity. Defined.

(** ** The files of a text and its filename markers *)

Lemma includesText_here (needle s r : jsstring) :
  stripPrefix needle s = Some r -> includesText needle s = true.
Proof. intros H. destruct s; simpl; now rewrite H. Qed.

Lemma includesText_later (needle : jsstring) (c : N) (t : jsstring) :
  includesText needle t = true -> includesText needle (c :: t) = true.
Proof. intros H. simpl. now destruct (stripPrefix needle (c :: t)). Qed.

Lemma includesText_app (needle a b : jsstring) :
  includesText needle b = true -> includesText needle (a ++ b) = true.
Proof.
  intros H. induction a as [|c a IH]; [exact H|].
  now apply includesText_later.
Qed.

Lemma dotRun_prefix (s : jsstring) :
  exists rest,
    s = dotRun s ++ rest
    /\ Forall (fun c => isLineTerminator c = false) (dotRun s)
    /\ (rest = [] \/ exists c rest', rest = c :: rest' /\ isLineTerminator c = true).
Proof.
  induction s as [|c t (rest & Et & Hrun & Hrest)]; simpl.
  - exists []. repeat split; auto.
  - destruct (isLineTerminator c) eqn:E.
    + exists (c :: t). repeat split; [constructor|]. right. eauto.
    + exists rest. split; [simpl; now rewrite <- Et|]. split; [|assumption].
      now constructor.
Qed.

Lemma filenameTail_shape (s m name : jsstring) :
  filenameTail s = Some (m, name) ->
  m = str "@filename: " ++ name /\ name <> []
  /\ Forall (fun c => isLineTerminator c = false) name
  /\ exists rest,
       s = m ++ rest
       /\ (rest = [] \/ exists c rest', rest = c :: rest' /\ isLineTerminator c = true).
Proof.
  unfold filenameTail.
  destruct (stripPrefix (str "@filename: ") s) as [s'|] eqn:E; [|discriminate].
  apply stripPrefix_Some in E.
  destruct (dotRun_prefix s') as (rest & Es' & Hrun & Hrest).
  destruct (dotRun s') as [|c run] eqn:Er; [discriminate|].
  intros H. injection H as <- <-.
  split; [reflexivity|]. split; [discriminate|]. split; [assumption|].
  exists rest. split; [|assumption].
  rewrite E, Es'. apply app_assoc.
Qed.

Lemma reFilenamesMakers_shape (prev : option N) (s m : jsstring)
    (gs : list (option jsstring)) :
  reFilenamesMakers prev s = Some (m, gs) ->
  exists name rest, gs = [Some name] /\ s = m ++ rest /\ markerOf m name rest.
Proof.
  unfold reFilenamesMakers.
  destruct (match prev with None => true | Some c => isLineTerminator c end);
    [|discriminate].
  destruct (stripPrefix (str "//") s) as [s1|] eqn:E; [|discriminate].
  apply stripPrefix_Some in E.
  assert (Hplain : forall m0 name,
             filenameTail s1 = Some (m0, name) ->
             exists name' rest,
               [Some name] = [Some name'] /\ s = (str "//" ++ m0) ++ rest
               /\ markerOf (str "//" ++ m0) name' rest).
  { intros m0 name H.
    apply filenameTail_shape in H as (-> & Hne & Hrun & rest & Es1 & Hrest).
    exists name, rest. split; [reflexivity|].
    split; [rewrite E, Es1; apply app_assoc|].
    exists []. repeat split; auto. }
  assert (Hwithout :
            match filenameTail s1 with
            | Some (m0, name) => Some (str "//" ++ m0, [Some name])
            | None => None
            end = Some (m, gs) ->
            exists name rest, gs = [Some name] /\ s = m ++ rest /\ markerOf m name rest).
  { destruct (filenameTail s1) as [[m0 name]|] eqn:Et; [|discriminate].
    intros H. injection H as <- <-.
    destruct (Hplain _ _ eq_refl) as (name' & rest & Hn & Hs & Hm).
    injection Hn as <-. eauto. }
  destruct s1 as [|c s2]; [exact Hwithout|].
  destruct (isSpace c) eqn:Ec; [|exact Hwithout].
  destruct (filenameTail s2) as [[m0 name]|] eqn:Et; [|exact Hwithout].
  intros H. injection H as <- <-.
  apply filenameTail_shape in Et as (-> & Hne & Hrun & rest & Es2 & Hrest).
  exists name, rest. split; [reflexivity|].
  split; [rewrite E, Es2; reflexivity|].
  exists [c]. repeat split; eauto.
Qed.

Lemma reFilenamesMakers_needs (prev : option N) (s : jsstring)
    (x : jsstring * list (option jsstring)) :
  reFilenamesMakers prev s = Some x -> includesText (str "@filename: ") s = true.
Proof.
  destruct x as [m gs]. intros H.
  apply reFilenamesMakers_shape in H as (name & rest & _ & -> & sp & -> & _).
  rewrite <- !app_assoc.
  apply (@includesText_app (str "@filename: ") (str "//")).
  apply (@includesText_app (str "@filename: ") sp).
  apply includesText_here with (r := name ++ rest).
  apply (stripPrefix_app (str "@filename: ")).
Qed.

Lemma includesText_tail (needle : jsstring) (c : N) (t : jsstring) :
  includesText needle (c :: t) = false -> includesText needle t = false.
Proof.
  intros H. destruct (includesText needle t) eqn:E; [|reflexivity].
  now rewrite (includesText_later _ _ _ E) in H.
Qed.

Lemma matchAllFrom_nothing (s : jsstring) :
  includesText (str "@filename: ") s = false ->
  forall prev idx skip, matchAllFrom reFilenamesMakers prev s idx skip = [].
Proof.
  induction s as [|c t IH]; intros Hs prev idx skip.
  - destruct skip; [|reflexivity]. simpl.
    destruct (reFilenamesMakers prev []) as [x|] eqn:E; [|reflexivity].
    apply reFilenamesMakers_needs in E. congruence.
  - pose proof (includesText_tail _ _ _ Hs) as Ht.
    destruct skip; simpl; [|now apply IH].
    destruct (reFilenamesMakers prev (c :: t)) as [x|] eqn:E; [|now apply IH].
    apply reFilenamesMakers_needs in E. congruence.
Qed.

(** X9: a text that nowhere holds [@filename: ] is one file, named by the
    default file name, at offset 0 and with all the text as its content;
    an empty text gives no file. *)
Theorem splitFiles_without_marker (code defaultFileName root : jsstring) :
  includesText (str "@filename: ") code = false ->
  splitFiles code defaultFileName root
  = match code with
    | [] => []
    | _ => [mkFile 0 defaultFileName (root ++ defaultFileName) code
                   (getExtension defaultFileName)]
    end.
Proof.
  intros H. unfold splitFiles, matchAll.
  rewrite (matchAllFrom_nothing code H). simpl.
  destruct code as [|c t]; [reflexivity|].
  destruct (Z.ltb_spec 0 (len (c :: t))) as [_|Hl].
  - now rewrite sliceFrom_start.
  - rewrite len_cons in Hl. pose proof (len_nonneg t). lia.
Qed.

Lemma splitFiles_without_marker_witness :
  splitFiles (str "let a = 1") (str "index.ts") (str "/")
  = [mkFile 0 (str "index.ts") (str "/" ++ str "index.ts") (str "let a = 1")
            (getExtension (str "index.ts"))].
Proof.
  apply (@splitFiles_without_marker (str "let a = 1") (str "index.ts") (str "/")).
  reflexivity.
Defined.

(** Every match [matchAll] returns is what the pattern gives at the offset
    of the match, and a match starts where the one before it ends, or
    later. *)
Lemma matchAllFrom_matches (pat : Pattern) (s : jsstring) :
  forall prev idx k pre,
    len pre = idx ->
    Forall (fun m =>
              idx + Z.of_nat k <= Match.index m
              /\ exists prev' pre' s',
                   pre ++ s = pre' ++ s' /\ len pre' = Match.index m
                   /\ pat prev' s' = Some (Match.matched m, Match.groups m))
           (matchAllFrom pat prev s idx k)
    /\ StronglySorted
         (fun a b => Match.index a + len (Match.matched a) <= Match.index b)
         (matchAllFrom pat prev s idx k).
Proof.
  induction s as [|c t IH]; intros prev idx k pre Hpre.
  - destruct k; simpl; [|split; constructor].
    destruct (pat prev []) as [[m gs]|] eqn:E; [|split; constructor].
    split; repeat constructor; simpl; [lia|]. exists prev, pre, []. auto.
  - assert (Hstep : forall k',
               Forall (fun m =>
                         idx + 1 + Z.of_nat k' <= Match.index m
                         /\ exists prev' pre' s',
                              pre ++ c :: t = pre' ++ s' /\ len pre' = Match.index m
                              /\ pat prev' s' = Some (Match.matched m, Match.groups m))
                      (matchAllFrom pat (Some c) t (idx + 1) k')
               /\ StronglySorted
                    (fun a b => Match.index a + len (Match.matched a) <= Match.index b)
                    (matchAllFrom pat (Some c) t (idx + 1) k')).
    { intros k'.
      destruct (IH (Some c) (idx + 1) k' (pre ++ [c])) as [Hf Hs].
      - rewrite len_app. change (len [c]) with 1. lia.
      - split; [|exact Hs]. eapply Forall_impl; [|exact Hf].
        intros m [Hle (prev' & pre' & s' & Hcode & Hrest)].
        split; [exact Hle|]. exists prev', pre', s'.
        rewrite <- app_assoc in Hcode. auto. }
    destruct k as [|k]; cbn [matchAllFrom].
    + destruct (pat prev (c :: t)) as [[m gs]|] eqn:E.
      * destruct (Hstep (pred (List.length m))) as [Hf Hs].
        split.
        -- constructor.
           ++ simpl. split; [lia|]. exists prev, pre, (c :: t). auto.
           ++ eapply Forall_impl; [|exact Hf]. intros m' [Hle Hm']. split; [lia|exact Hm'].
        -- constructor; [exact Hs|].
           eapply Forall_impl; [|exact Hf]. intros m' [Hle _]. simpl.
           unfold len. lia.
      * destruct (Hstep 0%nat) as [Hf Hs]. split; [|exact Hs].
        eapply Forall_impl; [|exact Hf]. intros m' [Hle Hm']. split; [lia|exact Hm'].
    + destruct (Hstep k) as [Hf Hs]. split; [|exact Hs].
      eapply Forall_impl; [|exact Hf]. intros m' [Hle Hm']. split; [lia|exact Hm'].
Qed.

Lemma slice_of_sliceFrom (s : jsstring) (i j : Z) :
  0 <= i <= j -> j <= len s ->
  slice s i j = firstn (Z.to_nat (j - i)) (sliceFrom s i).
Proof.
  intros Hi Hj. unfold slice, sliceFrom. now rewrite !relIndex_inside by lia.
Qed.

Lemma splitLoop_files (code root : jsstring) (ms : list RegExpMatch) :
  forall name index,
    0 <= index ->
    StronglySorted
      (fun a b => Match.index a + len (Match.matched a) <= Match.index b) ms ->
    Forall (fun m => index <= Match.index m <= len code) ms ->
    forall f,
      In f (splitLoop code root ms name index) ->
      filepath f = root ++ filename f
      /\ extension f = getExtension (filename f)
      /\ ((offset f = index /\ filename f = name
           /\ content f = match ms with
                          | [] => sliceFrom code index
                          | m :: _ => slice code index (Match.index m)
                          end)
          \/ exists m n,
               In m ms /\ offset f = Match.index m
               /\ filename f = matchedFilename m
               /\ (List.length (Match.matched m) <= n)%nat
               /\ content f = firstn n (sliceFrom code (Match.index m))).
Proof.
  induction ms as [|m ms IH]; intros name index Hidx Hs Hall f Hf.
  - simpl in Hf. destruct (index <? len code); [|contradiction].
    destruct Hf as [<-|[]]. unfold virtualFile; simpl.
    split; [reflexivity|]. split; [reflexivity|]. left. auto.
  - inversion Hs as [|? ? Hs' Hnext]; subst.
    inversion Hall as [|? ? Hm Hall']; subst.
    assert (Hrec : forall g,
               In g (splitLoop code root ms (matchedFilename m) (Match.index m)) ->
               filepath g = root ++ filename g
               /\ extension g = getExtension (filename g)
               /\ exists m' n,
                    In m' (m :: ms) /\ offset g = Match.index m'
                    /\ filename g = matchedFilename m'
                    /\ (List.length (Match.matched m') <= n)%nat
                    /\ content g = firstn n (sliceFrom code (Match.index m'))).
    { intros g Hg.
      assert (Hall'' : Forall (fun m' => Match.index m <= Match.index m' <= len code) ms).
      { rewrite Forall_forall in *. intros m' Hm'.
        specialize (Hall' m' Hm'). specialize (Hnext m' Hm').
        pose proof (len_nonneg (Match.matched m)). lia. }
      destruct (IH (matchedFilename m) (Match.index m) ltac:(lia) Hs' Hall'' g Hg)
        as (Hp & He & [(Ho & Hn & Hc)|(m' & n & Hin & Ho & Hn & Hlen & Hc)]).
      - split; [exact Hp|]. split; [exact He|].
        exists m. destruct ms as [|m' ms'].
        + exists (Nat.max (List.length (Match.matched m))
                          (List.length (sliceFrom code (Match.index m)))).
          split; [now left|]. split; [exact Ho|]. split; [exact Hn|].
          split; [lia|]. rewrite Hc. symmetry. apply firstn_all2. lia.
        + inversion Hnext as [|? ? Hle _]; subst.
          inversion Hall' as [|? ? Hb' _]; subst.
          pose proof (len_nonneg (Match.matched m)) as Hlen.
          rewrite slice_of_sliceFrom in Hc by lia.
          exists (Z.to_nat (Match.index m' - Match.index m)).
          split; [now left|]. split; [exact Ho|]. split; [exact Hn|].
          split; [unfold len in Hle; lia|exact Hc].
      - split; [exact Hp|]. split; [exact He|].
        exists m', n. auto using in_cons. }
    cbn [splitLoop] in Hf.
    destruct (slice code index (Match.index m)) as [|c content] eqn:E.
    + destruct (Hrec f Hf) as (Hp & He & Hx). auto.
    + destruct Hf as [<-|Hf].
      * unfold virtualFile; simpl.
        split; [reflexivity|]. split; [reflexivity|]. left. auto.
      * destruct (Hrec f Hf) as (Hp & He & Hx). auto.
Qed.

Lemma skipn_len_app (pre s : jsstring) :
  sliceFrom (pre ++ s) (len pre) = s.
Proof.
  unfold sliceFrom. pose proof (len_nonneg pre). pose proof (len_nonneg s).
  rewrite relIndex_inside by (rewrite len_app; lia).
  unfold len. rewrite Nat2Z.id, skipn_app, skipn_all, Nat.sub_diag. reflexivity.
Qed.

(** X10: every file [splitFiles] returns has the root and its name as
    path and what follows the last [.] of the name as extension. A file
    either starts at offset 0 and has the default name ([__index__.ts]
    when a marker names the default file), or its content starts with a
    filename marker: two slashes, at most one white space, [@filename: ]
    and the rest of the line, which, without the white space at its end,
    is the name of the file. *)
Theorem splitFiles_files_start_at_markers (code defaultFileName root : jsstring)
    (f : VirtualFile) :
  In f (splitFiles code defaultFileName root) ->
  filepath f = root ++ filename f
  /\ extension f = getExtension (filename f)
  /\ ((offset f = 0
       /\ filename f
          = if includes defaultFileName
                 (map matchedFilename (matchAll reFilenamesMakers code))
            then str "__index__.ts" else defaultFileName)
      \/ exists marker name more,
           content f = marker ++ more
           /\ markerOf marker name more
           /\ filename f = trimEnd name).
Proof.
  unfold splitFiles. intros Hf.
  destruct (@matchAllFrom_matches reFilenamesMakers code None 0 0 [] eq_refl)
    as [Hall Hsorted].
  fold (matchAll reFilenamesMakers code) in *. simpl app in Hall.
  assert (Hshape : Forall (fun m =>
                             exists name rest,
                               Match.groups m = [Some name]
                               /\ sliceFrom code (Match.index m) = Match.matched m ++ rest
                               /\ 0 <= Match.index m <= len code
                               /\ markerOf (Match.matched m) name rest)
                          (matchAll reFilenamesMakers code)).
  { eapply Forall_impl; [|exact Hall].
    intros m [Hle (prev' & pre' & s' & Hcode & Hlen & Hpat)].
    apply reFilenamesMakers_shape in Hpat as (name & rest & Hg & Hs' & Hmark).
    exists name, rest. split; [exact Hg|].
    split; [rewrite Hcode, <- Hlen, skipn_len_app; exact Hs'|].
    split; [|exact Hmark].
    rewrite Hcode, len_app, <- Hlen. pose proof (len_nonneg pre').
    pose proof (len_nonneg s'). lia. }
  assert (Hpre : Forall (fun m => 0 <= Match.index m <= len code)
                        (matchAll reFilenamesMakers code)).
  { eapply Forall_impl; [|exact Hshape].
    intros m (name & rest & _ & Hs & Hb & _). exact Hb. }
  destruct (@splitLoop_files code root _ _ 0 ltac:(lia) Hsorted Hpre f Hf)
    as (Hp & He & [(Ho & Hn & _)|(m & n & Hin & Ho & Hn & Hlen & Hc)]).
  - auto.
  - split; [exact Hp|]. split; [exact He|]. right.
    rewrite Forall_forall in Hshape.
    destruct (Hshape m Hin) as (name & rest & Hg & Hs & Hb & Hmark).
    rewrite Hs, firstn_app, firstn_all2 in Hc by assumption.
    exists (Match.matched m), name,
      (firstn (n - List.length (Match.matched m)) rest).
    split; [exact Hc|]. split.
    + destruct Hmark as (sp & Hm & Hsp & Hne & Hrun & Hrest).
      exists sp. repeat split; try assumption.
      destruct Hrest as [->|(c & rest' & -> & Hc')].
      * left. apply firstn_nil.
      * destruct (n - List.length (Match.matched m))%nat; simpl; eauto.
    + rewrite Hn. unfold matchedFilename, group. now rewrite Hg.
Qed.

Lemma splitFiles_files_start_at_markers_witness :
  filepath Sample.secondFile = str "/" ++ filename Sample.secondFile
  /\ extension Sample.secondFile = getExtension (filename Sample.secondFile)
  /\ ((offset Sample.secondFile = 0
       /\ filename Sample.secondFile
          = if includes (str "index.ts")
                 (map matchedFilename (matchAll reFilenamesMakers Sample.twoFiles))
            then str "__index__.ts" else str "index.ts")
      \/ exists marker name more,
           content Sample.secondFile = marker ++ more
           /\ markerOf marker name more
           /\ filename Sample.secondFile = trimEnd name).
Proof.
  apply (@splitFiles_files_start_at_markers Sample.twoFiles (str "index.ts") (str "/")
           Sample.secondFile).
  vm_compute. right. left. reflexivity.
Defined.

(** ** The kinds of a directive *)



(** ** The directives of a text *)


Section Notations.
Variable rt : Runtime.
Variable defaultHandbookOptions : Obj.
Variables customTags : list jsstring.
Variable tsOptionDeclarations : list Decl.t.



End Notations.



(** ** The loop over the flags *)

Lemma objGet_objSet_same (o : Obj) (key : jsstring) (v : jsvalue) :
  objGet (objSet o key v) key = v.
Proof.
  induction o as [|[k w] o IH]; simpl.
  - now rewrite jsstring_eqb_refl.
  - destruct (jsstring_eqb k key) eqn:E; simpl; now rewrite E.
Qed.

Lemma objGet_objSet_other (o : Obj) (key key' : jsstring) (v : jsvalue) :
  key <> key' -> objGet (objSet o key v) key' = objGet o key'.
Proof.
  intros Hne. induction o as [|[k w] o IH]; simpl.
  - now rewrite jsstring_eqb_neq.
  - destruct (jsstring_eqb k key) eqn:E; simpl.
    + apply jsstring_eqb_eq in E. subst k.
      now rewrite jsstring_eqb_neq.
    + destruct (jsstring_eqb k key'); [reflexivity|exact IH].
Qed.

Lemma objGet_objSpread (a b : Obj) (key : jsstring) :
  objGet (objSpread a b) key
  = match property b key with
    | Some v => v
    | None => objGet a key
    end.
Proof.
  unfold objSpread, property.
  induction b as [|[k v] b IH] using rev_ind; [reflexivity|].
  rewrite fold_left_app, rev_app_distr. simpl.
  destruct (jsstring_eqb k key) eqn:E.
  - apply jsstring_eqb_eq in E. subst k. simpl. apply objGet_objSet_same.
  - rewrite objGet_objSet_other; [exact IH|].
    intros ->. now rewrite jsstring_eqb_refl in E.
Qed.

Lemma fold_applyFlag_nodes (flags : list Flag.t) :
  forall acc,
    snd (fold_left applyFlag flags acc)
    = snd acc ++ map tagNode (filter isTag flags).
Proof.
  induction flags as [|flag flags IH]; intros acc; simpl.
  - now rewrite app_nil_r.
  - rewrite IH. unfold applyFlag, isTag, tagNode.
    destruct (Flag.type flag); simpl; try reflexivity.
    now rewrite <- app_assoc.
Qed.

Lemma FlagType_eqb_eq (a b : FlagType) : FlagType_eqb a b = true <-> a = b.
Proof. destruct a, b; simpl; split; congruence. Qed.

Lemma fold_applyFlag_options (flags : list Flag.t) (key : jsstring) :
  forall acc,
    objGet (Meta.compilerOptions (fst (fold_left applyFlag flags acc))) key
    = match find (setsCompilerOption key) (rev flags) with
      | Some flag => Flag.value flag
      | None => objGet (Meta.compilerOptions (fst acc)) key
      end
    /\ objGet (Meta.handbookOptions (fst (fold_left applyFlag flags acc))) key
       = match find (setsHandbookOption key) (rev flags) with
         | Some flag => Flag.value flag
         | None => objGet (Meta.handbookOptions (fst acc)) key
         end.
Proof.
  induction flags as [|flag flags IH] using rev_ind; intros acc.
  - split; reflexivity.
  - rewrite fold_left_app, rev_app_distr. simpl.
    destruct (IH acc) as [IHc IHh].
    unfold applyFlag at 1 3, setsCompilerOption at 1, setsHandbookOption at 1.
    destruct (Flag.type flag); simpl; try (split; assumption).
    + split; [|assumption].
      destruct (jsstring_eqb (Flag.name flag) key) eqn:E.
      * apply jsstring_eqb_eq in E. rewrite <- E. apply objGet_objSet_same.
      * rewrite objGet_objSet_other; [exact IHc|].
        intros H. rewrite H, jsstring_eqb_refl in E. discriminate.
    + split; [assumption|].
      destruct (jsstring_eqb (Flag.name flag) key) eqn:E.
      * apply jsstring_eqb_eq in E. rewrite <- E. apply objGet_objSet_same.
      * rewrite objGet_objSet_other; [exact IHh|].
        intros H. rewrite H, jsstring_eqb_refl in E. discriminate.
Qed.

Section Scan.
Variable rt : Runtime.
Variables defaultCompilerOptions defaultHandbookOptions : Obj.
Variables reConfigBoolean reConfigValue : RegExp.
Variable createOptions : CreateOptions.t.
Variables code extension : jsstring.
Variable options : ExecuteOptions.t.

(** What a scan that raised nothing returns. *)
Lemma scan_returns (meta : Meta.t) (nodes : list Node.t) :
  scan rt defaultCompilerOptions defaultHandbookOptions reConfigBoolean
       reConfigValue createOptions code extension options = Ok (meta, nodes) ->
  exists ext flags meta0,
    typesToExtension extension = Ok ext
    /\ findFlagNotations rt defaultHandbookOptions reConfigBoolean reConfigValue
         code
         (orElse (ExecuteOptions.customTags options)
                 (orElse (CreateOptions.customTags createOptions) []))
         (CreateOptions.tsOptionDeclarations createOptions) = Ok flags
    /\ Meta.extension meta0 = ext
    /\ Meta.compilerOptions meta0
       = objSpread (objSpread defaultCompilerOptions
                      (CreateOptions.compilerOptions createOptions))
                   (ExecuteOptions.compilerOptions options)
    /\ Meta.handbookOptions meta0
       = objSpread (objSpread defaultHandbookOptions
                      (CreateOptions.handbookOptions createOptions))
                   (ExecuteOptions.handbookOptions options)
    /\ Meta.flagNotations meta0 = flags
    /\ Meta.removals meta0 = []
    /\ (meta, nodes) = fold_left applyFlag flags (meta0, []).
Proof.
  unfold scan.
  destruct (typesToExtension extension) as [ext|]; [|discriminate].
  destruct (findFlagNotations _ _ _ _ _ _ _) as [flags|]; [|discriminate].
  destruct (negb _ && negb _); [discriminate|].
  intros H. injection H as H.
  eexists ext, flags, _. split; [reflexivity|]. split; [reflexivity|].
  unfold applyFlags in H. simpl in H.
  repeat split; [..|symmetry; exact H]; reflexivity.
Qed.

End Scan.

(** X13: the values of the options after the scan of a text. An option a
    directive of the text sets has the value of the last such directive;
    any other option has the value the options of the call give it, else
    the one the options of the instance give it, else its default. This
    holds for the compiler options and for the behavior options. The
    nodes the scan returns are the tags of the custom tag directives, each
    at the end of its directive and of length 0, in their order. *)
Theorem scan_option_sources (rt : Runtime)
    (defaultCompilerOptions defaultHandbookOptions : Obj)
    (reConfigBoolean reConfigValue : RegExp)
    (createOptions : CreateOptions.t) (code extension : jsstring)
    (options : ExecuteOptions.t) (meta : Meta.t) (nodes : list Node.t)
    (key : jsstring) :
  scan rt defaultCompilerOptions defaultHandbookOptions reConfigBoolean
       reConfigValue createOptions code extension options = Ok (meta, nodes) ->
  objGet (Meta.compilerOptions meta) key
  = optionValue (find (setsCompilerOption key) (rev (Meta.flagNotations meta)))
                (ExecuteOptions.compilerOptions options)
                (CreateOptions.compilerOptions createOptions)
                defaultCompilerOptions key
  /\ objGet (Meta.handbookOptions meta) key
     = optionValue (find (setsHandbookOption key) (rev (Meta.flagNotations meta)))
                   (ExecuteOptions.handbookOptions options)
                   (CreateOptions.handbookOptions createOptions)
                   defaultHandbookOptions key
  /\ nodes = map tagNode (filter isTag (Meta.flagNotations meta)).
Proof.
  intros Hscan.
  apply scan_returns in Hscan
    as (ext & flags & meta0 & _ & _ & _ & Hc & Hh & Hf & _ & Hfold).
  assert (Hmeta : meta = fst (fold_left applyFlag flags (meta0, [])))
    by now rewrite <- Hfold.
  assert (Hnodes : nodes = snd (fold_left applyFlag flags (meta0, [])))
    by now rewrite <- Hfold.
  assert (Hflags : Meta.flagNotations meta = flags).
  { rewrite Hmeta, fold_applyFlag_flagNotations. exact Hf. }
  rewrite Hflags.
  destruct (fold_applyFlag_options flags key (meta0, [])) as [Hco Hho].
  rewrite <- Hmeta in Hco, Hho. simpl in Hco, Hho.
  unfold optionValue. split; [|split].
  - rewrite Hco. destruct (find (setsCompilerOption key) (rev flags));
      [reflexivity|].
    now rewrite Hc, !objGet_objSpread.
  - rewrite Hho. destruct (find (setsHandbookOption key) (rev flags));
      [reflexivity|].
    now rewrite Hh, !objGet_objSpread.
  - rewrite Hnodes, fold_applyFlag_nodes. reflexivity.
Qed.

Lemma scan_option_sources_witness :
  exists meta nodes,
    Sample.scanned Sample.noErrorsDirective [] (str "// @noErrors") = Ok (meta, nodes)
    /\ objGet (Meta.handbookOptions meta) (str "noErrors") = VBool true
    /\ nodes = [].
Proof.
  eexists. eexists. split; [reflexivity|].
  match goal with
  | |- objGet (Meta.handbookOptions ?m) _ = _ /\ ?n = _ =>
      destruct (@scan_option_sources Sample.runtime [] Sample.handbookDefaults
                  Sample.noErrorsDirective Sample.noMatch Sample.createOptions
                  (str "// @noErrors") (str "ts") (Sample.executeOptions [])
                  m n (str "noErrors") eq_refl) as (_ & Hh & Hn)
  end.
  split; [rewrite Hh; reflexivity | rewrite Hn; reflexivity].
Defined.

(** ** Unknown directives *)

Lemma mentions_join (sep x : jsstring) (l : list jsstring) :
  In x l -> mentions (join sep l) x.
Proof.
  induction l as [|y l IH]; [contradiction|].
  intros [->|Hin].
  - destruct l as [|z l]; simpl.
    + exists [], []. now rewrite app_nil_r.
    + exists [], (sep ++ join sep (z :: l)). reflexivity.
  - destruct (IH Hin) as (before & after & E).
    destruct l as [|z l]; [contradiction|].
    change (join sep (y :: z :: l)) with (y ++ sep ++ join sep (z :: l)).
    rewrite E. exists (y ++ sep ++ before), after.
    now rewrite <- !app_assoc.
Qed.

Lemma mentions_after (a s part : jsstring) :
  mentions s part -> mentions (a ++ s) part.
Proof.
  intros (before & after & ->). exists (a ++ before), after.
  now rewrite <- app_assoc.
Qed.

(** X14: a text with a directive that is neither a custom tag, nor a
    compiler option, nor a behavior option. Its scan either raises the
    error "Unknown inline compiler flags" for the unknown directives of
    the text, in their order, or it returns with [noErrorValidation] on.
    The description of the error holds [@] and the name of every unknown
    directive. *)
Theorem scan_unknown_flags (rt : Runtime)
    (defaultCompilerOptions defaultHandbookOptions : Obj)
    (reConfigBoolean reConfigValue : RegExp)
    (createOptions : CreateOptions.t) (code extension : jsstring)
    (options : ExecuteOptions.t) (ext : Extension) (flags : list Flag.t)
    (flag : Flag.t) :
  typesToExtension extension = Ok ext ->
  findFlagNotations rt defaultHandbookOptions reConfigBoolean reConfigValue code
    (orElse (ExecuteOptions.customTags options)
            (orElse (CreateOptions.customTags createOptions) []))
    (CreateOptions.tsOptionDeclarations createOptions) = Ok flags ->
  In flag flags -> Flag.type flag = flag_unknown ->
  match scan rt defaultCompilerOptions defaultHandbookOptions reConfigBoolean
             reConfigValue createOptions code extension options with
  | Throw e =>
      e = unknownFlagsError (filter isUnknown flags)
      /\ exists description recommendation,
           e = TwoslashError (str "Unknown inline compiler flags")
                 description recommendation
           /\ mentions description (str "@" ++ Flag.name flag)
  | Ok (meta, _) => truthy (handbook meta "noErrorValidation") = true
  end.
Proof.
  intros Hext Hflags Hin Hunknown. unfold scan. rewrite Hext, Hflags.
  match goal with
  | |- context [applyFlags ?m ?n] => set (applied := applyFlags m n)
  end.
  assert (Ef : Meta.flagNotations (fst applied) = flags).
  { unfold applied, applyFlags. now rewrite fold_applyFlag_flagNotations. }
  rewrite Ef.
  assert (Hu : In flag (filter isUnknown flags)).
  { apply filter_In. split; [assumption|].
    unfold isUnknown. now rewrite Hunknown. }
  destruct (truthy (objGet (Meta.handbookOptions (fst applied))
                           (str "noErrorValidation"))) eqn:Ev; simpl.
  - destruct applied as [meta nodes]. exact Ev.
  - destruct (filter isUnknown flags) as [|u us] eqn:Eu; [contradiction|].
    simpl. split; [reflexivity|].
    unfold unknownFlagsError. do 2 eexists. split; [reflexivity|].
    apply mentions_after, mentions_after, mentions_join.
    apply (in_map (fun i => str "@" ++ Flag.name i)) in Hu. exact Hu.
Qed.

Lemma scan_unknown_flags_witness :
  unknownFlagsError [Flag.mk flag_unknown (str "foo") (VBool true) 0 8]
  = unknownFlagsError
      (filter isUnknown [Flag.mk flag_unknown (str "foo") (VBool true) 0 8])
  /\ exists description recommendation,
    unknownFlagsError [Flag.mk flag_unknown (str "foo") (VBool true) 0 8]
    = TwoslashError (str "Unknown inline compiler flags") description recommendation
    /\ mentions description (str "@" ++ str "foo").
Proof.
  apply (@scan_unknown_flags Sample.runtime [] Sample.handbookDefaults
           Sample.fooDirective Sample.noMatch Sample.createOptions
           (str "// @foo") (str "ts") (Sample.executeOptions []) (ext_string (str "ts"))
           [Flag.mk flag_unknown (str "foo") (VBool true) 0 8]
           (Flag.mk flag_unknown (str "foo") (VBool true) 0 8)
           eq_refl eq_refl (or_introl eq_refl) eq_refl).
Defined.

(** ** The cuts of a text *)

Lemma cutPairs_removals (cutStart : list RegExpMatch) :
  forall cutEnd removals out,
    cutPairs cutStart cutEnd removals = Ok out ->
    out = removals
          ++ map (fun p => (Match.index (fst p), snd (matchSpan (snd p))))
                 (combine cutStart cutEnd)
    /\ Forall (fun p => Match.index (fst p) <= Match.index (snd p))
              (combine cutStart cutEnd).
Proof.
  induction cutStart as [|s cutStart IH]; intros [|e cutEnd] removals out; simpl;
    try (intros H; injection H as <-; rewrite app_nil_r; split; [reflexivity|constructor]).
  destruct (Z.gtb_spec (Match.index s) (Match.index e)) as [Hgt|Hle];
    [discriminate|].
  intros Hc. destruct (IH _ _ _ Hc) as [-> Hall].
  split; [now rewrite <- app_assoc|].
  constructor; [simpl; lia|assumption].
Qed.

(** X15: the removals [findCutNotations] returns, when it returns: first
    the range from offset 0 to the end of the last cut-before marker, if
    there is one; then the range from the first cut-after marker to the
    end of the text, if there is one; then, for every cut-start marker
    and the cut-end marker of the same rank, the range from the
    cut-start marker to the end of the cut-end marker. The end of a
    marker is one code unit after its match. No cut-start marker comes
    after its cut-end marker. *)
Theorem findCutNotations_removals
    (reCutBefore reCutAfter reCutStart reCutEnd : RegExp)
    (code : jsstring) (removals : list Range) :
  findCutNotations reCutBefore reCutAfter reCutStart reCutEnd code = Ok removals ->
  removals
  = match rev (reCutBefore code) with
    | last :: _ => [(0, snd (matchSpan last))]
    | [] => []
    end
    ++ match reCutAfter code with
       | first :: _ => [(Match.index first, len code)]
       | [] => []
       end
    ++ map (fun p => (Match.index (fst p), snd (matchSpan (snd p))))
           (combine (reCutStart code) (reCutEnd code))
  /\ List.length (reCutStart code) = List.length (reCutEnd code)
  /\ Forall (fun p => Match.index (fst p) <= Match.index (snd p))
            (combine (reCutStart code) (reCutEnd code)).
Proof.
  unfold findCutNotations.
  destruct (Nat.eqb_spec (List.length (reCutStart code))
                         (List.length (reCutEnd code))) as [Hlen|];
    [|discriminate].
  simpl negb. cbv iota. intros H.
  apply cutPairs_removals in H as [-> Hall].
  split; [|split; assumption].
  destruct (rev (reCutBefore code)), (reCutAfter code); simpl;
    rewrite <- ?app_assoc; reflexivity.
Qed.

Lemma findCutNotations_removals_witness :
  [(4, 9 + len (str "// ---cut-end---") + 1)]
  = match rev (Sample.noMatch (str "a")) with
    | last :: _ => [(0, snd (matchSpan last))]
    | [] => []
    end
    ++ match Sample.noMatch (str "a") with
       | first :: _ => [(Match.index first, len (str "a"))]
       | [] => []
       end
    ++ map (fun p => (Match.index (fst p), snd (matchSpan (snd p))))
           (combine (Sample.cutMarkerAt 4 "// ---cut-start---" (str "a"))
                    (Sample.cutMarkerAt 9 "// ---cut-end---" (str "a")))
  /\ List.length (Sample.cutMarkerAt 4 "// ---cut-start---" (str "a"))
     = List.length (Sample.cutMarkerAt 9 "// ---cut-end---" (str "a"))
  /\ Forall (fun p => Match.index (fst p) <= Match.index (snd p))
            (combine (Sample.cutMarkerAt 4 "// ---cut-start---" (str "a"))
                     (Sample.cutMarkerAt 9 "// ---cut-end---" (str "a"))).
Proof.
  apply (@findCutNotations_removals Sample.noMatch Sample.noMatch
           (Sample.cutMarkerAt 4 "// ---cut-start---")
           (Sample.cutMarkerAt 9 "// ---cut-end---") (str "a")).
  reflexivity.
Defined.

(** ** The position markers of a text *)

Lemma annotateMarker_adds (ls : list jsstring) (meta : Meta.t) (m : RegExpMatch) :
  exists meta' queries completions highlights,
    annotateMarker (getIndexOfLineAbove ls) meta m = Ok meta'
    /\ Meta.positionQueries meta' = Meta.positionQueries meta ++ queries
    /\ Meta.positionCompletions meta' = Meta.positionCompletions meta ++ completions
    /\ Meta.positionHighlights meta' = Meta.positionHighlights meta ++ highlights
    /\ (List.length queries + List.length completions + List.length highlights
        = 1)%nat
    /\ Meta.removals meta' = Meta.removals meta ++ [matchSpan m]
    /\ Meta.flagNotations meta' = Meta.flagNotations meta
    /\ Meta.virtualFiles meta' = Meta.virtualFiles meta.
Proof.
  unfold annotateMarker.
  destruct (getIndexOfLineAbove_returns ls
              (Match.index m + indexOf (Match.matched m) 94)) as [j ->].
  repeat match goal with
         | |- context [if ?b then _ else _] => destruct b
         end.
  - eexists _, [j], [], []. simpl. rewrite !app_nil_r. repeat split.
  - eexists _, [], [j], []. simpl. rewrite !app_nil_r. repeat split.
  - eexists _, [], [], [_]. simpl. rewrite !app_nil_r. repeat split.
Qed.

(** X16: [findQueryMarkers], called as the run calls it, raises nothing,
    whatever the markers are. Every marker adds its span, the match and
    one code unit more, to the removals and one position to the queries,
    to the completions or to the highlights; the entries that were there
    stay, before the new ones. In a text without [//] no marker is looked
    for. *)
Theorem findQueryMarkers_accounts (reAnnonateMarkers : RegExp) (code : jsstring)
    (meta : Meta.t) :
  exists meta' queries completions highlights,
    findQueryMarkers reAnnonateMarkers code meta (getIndexOfLineAbove (lines code))
    = Ok meta'
    /\ Meta.positionQueries meta' = Meta.positionQueries meta ++ queries
    /\ Meta.positionCompletions meta' = Meta.positionCompletions meta ++ completions
    /\ Meta.positionHighlights meta' = Meta.positionHighlights meta ++ highlights
    /\ (List.length queries + List.length completions + List.length highlights
        = List.length (markerSpans reAnnonateMarkers code))%nat
    /\ Meta.removals meta' = Meta.removals meta ++ markerSpans reAnnonateMarkers code
    /\ (includesText (str "//") code = false -> meta' = meta).
Proof.
  unfold findQueryMarkers, markerSpans.
  destruct (includesText (str "//") code).
  2:{ exists meta, [], [], []. rewrite !app_nil_r. repeat split. }
  generalize (reAnnonateMarkers code) as ms. intros ms. revert meta.
  induction ms as [|m ms IH]; intros meta.
  { exists meta, [], [], []. simpl. rewrite !app_nil_r.
    repeat split. }
  destruct (annotateMarker_adds (lines code) meta m)
    as (meta1 & q1 & c1 & h1 & E1 & Hq1 & Hc1 & Hh1 & Hn1 & Hr1 & _).
  destruct (IH meta1) as (meta' & q & c & h & E & Hq & Hc & Hh & Hn & Hr & _).
  exists meta', (q1 ++ q), (c1 ++ c), (h1 ++ h).
  cbn [foldResult]. rewrite E1, E.
  split; [reflexivity|].
  split; [rewrite Hq, Hq1; now rewrite app_assoc|].
  split; [rewrite Hc, Hc1; now rewrite app_assoc|].
  split; [rewrite Hh, Hh1; now rewrite app_assoc|].
  split; [rewrite !length_app; simpl; lia|].
  split; [rewrite Hr, Hr1; simpl; now rewrite <- app_assoc|].
  discriminate.
Qed.

(** ** The steps of a run that returns *)

Lemma annotateMarker_flags g meta m meta' :
  annotateMarker g meta m = Ok meta' ->
  Meta.flagNotations meta' = Meta.flagNotations meta.
Proof.
  unfold annotateMarker.
  destruct (g _) as [targetIndex|]; [|discriminate].
  repeat match goal with
         | |- context [if ?b then _ else _] => destruct b
         end; intros H; injection H as <-; reflexivity.
Qed.

Lemma findQueryMarkers_flags reAnnonateMarkers code meta g meta' :
  findQueryMarkers reAnnonateMarkers code meta g = Ok meta' ->
  Meta.flagNotations meta' = Meta.flagNotations meta.
Proof.
  unfold findQueryMarkers.
  destruct (includesText (str "//") code); [|now intros [= <-]].
  generalize (reAnnonateMarkers code) as ms. intros ms. revert meta.
  induction ms as [|m ms IH]; intros meta; simpl; [now intros [= <-]|].
  destruct (annotateMarker g meta m) as [meta1|] eqn:E; [|discriminate].
  intros H. rewrite (IH _ H). now apply annotateMarker_flags in E.
Qed.

Section Steps.
Variable rt : Runtime.
Variables defaultCompilerOptions defaultHandbookOptions : Obj.
Variables reConfigBoolean reConfigValue reAnnonateMarkers : RegExp.
Variables reCutBefore reCutAfter reCutStart reCutEnd : RegExp.
Variable validateCodeForErrors : list Node.t -> Obj -> jsstring -> result unit.
Variable backend : Backend.
Variable createOptions : CreateOptions.t.
Variables code extension : jsstring.
Variable options : ExecuteOptions.t.

Lemma collect_flags scanned log log' meta' nodes' :
  collect rt reAnnonateMarkers reCutBefore reCutAfter reCutStart reCutEnd
    validateCodeForErrors backend createOptions code options scanned log
  = (log', Ok (meta', nodes')) ->
  Meta.flagNotations meta' = Meta.flagNotations (fst scanned).
Proof.
  unfold collect, bind at 1, call.
  unfold bind at 1, lift at 1.
  destruct (findCutNotations reCutBefore reCutAfter reCutStart reCutEnd code)
    as [cuts|e]; [|discriminate].
  unfold bind at 1, lift at 1.
  match goal with
  | |- context [findQueryMarkers ?re ?c ?m ?g] =>
      destruct (findQueryMarkers re c m g) as [meta1|] eqn:Em; [|discriminate]
  end.
  apply findQueryMarkers_flags in Em. simpl in Em.
  unfold bind at 1.
  match goal with
  | |- context [forEach ?f ?s ?l ?g] => destruct (forEach f s l g) as [log1 [nodes1|e]]
  end; [|discriminate].
  unfold bind at 1.
  match goal with
  | |- context [forEach ?f ?s ?l ?g] => destruct (forEach f s l g) as [log2 [errs|e]]
  end; [|discriminate].
  unfold bind, lift, ret.
  match goal with
  | |- context [if ?b then _ else _] => destruct b
  end.
  - match goal with
    | |- context [validateCodeForErrors ?errs ?h ?root] =>
        destruct (validateCodeForErrors errs h root) as [[]|e]
    end; [|discriminate].
    intros H. injection H as _ <- _. simpl. exact Em.
  - intros H. injection H as _ <- _. simpl. exact Em.
Qed.

(** A run that returns went through its four steps. *)
Lemma twoslasher_returns log log' r :
  twoslasher rt defaultCompilerOptions defaultHandbookOptions reConfigBoolean
    reConfigValue reAnnonateMarkers reCutBefore reCutAfter reCutStart reCutEnd
    validateCodeForErrors backend createOptions code extension options log
  = (log', Ok r) ->
  exists scanned log1 meta nodes emitted,
    scan rt defaultCompilerOptions defaultHandbookOptions reConfigBoolean
         reConfigValue createOptions code extension options = Ok scanned
    /\ collect rt reAnnonateMarkers reCutBefore reCutAfter reCutStart reCutEnd
         validateCodeForErrors backend createOptions code options scanned log
       = (log1, Ok (meta, nodes))
    /\ emit rt backend createOptions code meta nodes log1 = (log', Ok emitted)
    /\ r = finish code emitted.
Proof.
  unfold twoslasher, bind at 1, lift at 1.
  destruct (scan _ _ _ _ _ _ _ _ _) as [scanned|]; [|discriminate].
  unfold bind at 1.
  destruct (collect _ _ _ _ _ _ _ _ _ _ _ _ _) as [log1 [[meta nodes]|]] eqn:Ec;
    [|discriminate].
  unfold bind at 1. cbn [fst snd].
  destruct (emit _ _ _ _ _ _ _) as [log2 [emitted|]] eqn:Ee; [|discriminate].
  unfold ret. intros H. injection H as <- <-.
  exists scanned, log1, meta, nodes, emitted. auto.
Qed.

End Steps.

(** ** The nodes of the result *)

Lemma finish_nodes (code : jsstring) (emitted : jsstring * Meta.t * list Node.t) :
  Forall (fun n => 0 <= Node.start (node n)
                   /\ position n
                      = indexToPos (lines (Return.code (finish code emitted)))
                                   (Node.start (node n)))
         (Return.nodes (finish code emitted)).
Proof.
  unfold finish. cbn [Return.nodes Return.code].
  match goal with
  | |- context [removedCode ?x] => generalize x as removed
  end.
  intros removed.
  assert (Hidx : (if jsstring_eqb (removedCode removed) code
                  then indexToPos (lines code)
                  else indexToPos (lines (removedCode removed)))
                 = indexToPos (lines (removedCode removed))).
  { destruct (jsstring_eqb (removedCode removed) code) eqn:E; [|reflexivity].
    apply jsstring_eqb_eq in E. now rewrite E. }
  rewrite Hidx. unfold resolveNodePositions.
  apply Forall_forall. intros n Hn.
  apply in_map_iff in Hn as (x & <- & Hx). simpl. split; [|reflexivity].
  apply (Permutation_in _ (sort_perm compareNodes _)) in Hx.
  apply filter_In in Hx as [_ Hx]. lia.
Qed.

(** X17: every node a run returns has a non-negative [start], and its
    position is the one [indexToPos] gives for that [start] in the code
    the run returns. *)
Theorem returned_nodes_positions (rt : Runtime)
    (defaultCompilerOptions defaultHandbookOptions : Obj)
    (reConfigBoolean reConfigValue reAnnonateMarkers : RegExp)
    (reCutBefore reCutAfter reCutStart reCutEnd : RegExp)
    (validateCodeForErrors : list Node.t -> Obj -> jsstring -> result unit)
    (backend : Backend) (createOptions : CreateOptions.t)
    (code extension : jsstring) (options : ExecuteOptions.t)
    (log log' : Log) (r : TwoSlashReturn) :
  twoslasher rt defaultCompilerOptions defaultHandbookOptions reConfigBoolean
    reConfigValue reAnnonateMarkers reCutBefore reCutAfter reCutStart reCutEnd
    validateCodeForErrors backend createOptions code extension options log
  = (log', Ok r) ->
  Forall (fun n => 0 <= Node.start (node n)
                   /\ position n
                      = indexToPos (lines (Return.code r)) (Node.start (node n)))
         (Return.nodes r).
Proof.
  intros Hrun.
  apply twoslasher_returns in Hrun as (_ & _ & _ & _ & emitted & _ & _ & _ & ->).
  apply finish_nodes.
Qed.

Lemma returned_nodes_positions_witness :
  exists log' r,
    Sample.runTagged Sample.fooDirective (str "// @foo") = (log', Ok r)
    /\ map (fun n => Node.start (node n)) (Return.nodes r) = [0]
    /\ Forall (fun n => 0 <= Node.start (node n)
                        /\ position n
                           = indexToPos (lines (Return.code r)) (Node.start (node n)))
              (Return.nodes r).
Proof.
  eexists. eexists. split; [vm_compute; reflexivity|]. split; [reflexivity|].
  eapply (@returned_nodes_positions Sample.runtime [] Sample.handbookDefaults
           Sample.fooDirective Sample.noMatch Sample.noMatch Sample.noMatch
           Sample.noMatch Sample.noMatch Sample.noMatch Sample.accept Sample.silent
           Sample.createOptions (str "// @foo") (str "ts")
           (ExecuteOptions.mk [] [] (Some [str "foo"]) None None None None None)
           [] _ _).
  vm_compute. reflexivity.
Defined.

(** ** keepNotations and showEmit *)

Section Emit.
Variable rt : Runtime.
Variable backend : Backend.
Variable createOptions : CreateOptions.t.

Lemma updateFiles_returns (files : list VirtualFile) :
  forall log,
    exists rest,
      forEach (fun (_ : unit) file =>
                 call (UpdateFile (filepath file) (content file)) (fun _ => tt))
              tt files log
      = (log ++ rest, Ok tt).
Proof.
  induction files as [|file files IH]; intros log; simpl.
  - exists []. now rewrite app_nil_r.
  - unfold bind at 1. unfold call at 1.
    destruct (IH (log ++ [UpdateFile (filepath file) (content file)])) as [rest ->].
    exists (UpdateFile (filepath file) (content file) :: rest).
    now rewrite <- app_assoc.
Qed.

(** Without [showEmit] the emit block does nothing. *)
Lemma emit_off code meta nodes log :
  truthy (handbook meta "showEmit") = false ->
  emit rt backend createOptions code meta nodes log = (log, Ok (code, meta, nodes)).
Proof. intros H. unfold emit. now rewrite H. Qed.

(** With [showEmit], the emit block returns the text of an output file,
    the last thing it asked the backend for. *)
Lemma emit_on code meta nodes log log' emitted :
  truthy (handbook meta "showEmit") = true ->
  emit rt backend createOptions code meta nodes log = (log', Ok emitted) ->
  truthy (handbook meta "keepNotations") = false
  /\ exists outfile log0 path,
       log' = log0 ++ [GetEmitOutput path]
       /\ In outfile (getEmitOutput backend log0 path)
       /\ emitted
          = (OutputFile.text outfile,
             Meta.setRemovals
               (Meta.setExtension meta
                  (ext_string (getExtension (OutputFile.name outfile)))) [],
             []).
Proof.
  intros Hemit. unfold emit. rewrite Hemit.
  destruct (truthy (handbook meta "keepNotations")); [discriminate|].
  split; [reflexivity|]. revert H.
  unfold bind at 1.
  match goal with
  | |- context [forEach ?f tt ?files log] =>
      destruct (updateFiles_returns files log) as [rest ->]
  end.
  unfold bind at 1, lift at 1.
  destruct (findEmitSource _ _) as [emitSource|]; [|discriminate].
  match goal with
  | |- context [if ?b then throw _ else _] => destruct b
  end; [discriminate|].
  unfold bind at 1.
  match goal with
  | |- context [if ?b then _ else ret _] => destruct b
  end.
  - destruct (Meta.virtualFiles meta) as [|first files]; [discriminate|].
    unfold ret at 1. unfold bind at 1, call at 1.
    match goal with
    | |- context [find ?f ?l] => destruct (find f l) as [outfile|] eqn:E
    end; [|discriminate].
    unfold ret. intros H. injection H as <- <-.
    apply find_some in E as [Hin _]. eauto 6.
  - unfold ret at 1. unfold bind at 1, call at 1.
    match goal with
    | |- context [find ?f ?l] => destruct (find f l) as [outfile|] eqn:E
    end; [|discriminate].
    unfold ret. intros H. injection H as <- <-.
    apply find_some in E as [Hin _]. eauto 6.
Qed.

End Emit.

Lemma finish_meta (code : jsstring) (emitted : jsstring * Meta.t * list Node.t) :
  Meta.handbookOptions (Return.meta (finish code emitted))
  = Meta.handbookOptions (snd (fst emitted))
  /\ Meta.flagNotations (Return.meta (finish code emitted))
     = Meta.flagNotations (snd (fst emitted))
  /\ Meta.extension (Return.meta (finish code emitted))
     = Meta.extension (snd (fst emitted)).
Proof. unfold finish. simpl. auto. Qed.

(** X18: a run that returns with [keepNotations] on returns the code it
    was given, and [showEmit] is off. The removals of the result are then
    the spans of the known directives, of the cuts and of the position
    markers, in this order and as they were found, not merged; none of
    them is taken out of the code. *)
Theorem keepNotations_keeps_code (rt : Runtime)
    (defaultCompilerOptions defaultHandbookOptions : Obj)
    (reConfigBoolean reConfigValue reAnnonateMarkers : RegExp)
    (reCutBefore reCutAfter reCutStart reCutEnd : RegExp)
    (validateCodeForErrors : list Node.t -> Obj -> jsstring -> result unit)
    (backend : Backend) (createOptions : CreateOptions.t)
    (code extension : jsstring) (options : ExecuteOptions.t)
    (log log' : Log) (r : TwoSlashReturn) :
  twoslasher rt defaultCompilerOptions defaultHandbookOptions reConfigBoolean
    reConfigValue reAnnonateMarkers reCutBefore reCutAfter reCutStart reCutEnd
    validateCodeForErrors backend createOptions code extension options log
  = (log', Ok r) ->
  truthy (handbook (Return.meta r) "keepNotations") = true ->
  Return.code r = code
  /\ truthy (handbook (Return.meta r) "showEmit") = false
  /\ exists cuts,
       findCutNotations reCutBefore reCutAfter reCutStart reCutEnd code = Ok cuts
       /\ Meta.removals (Return.meta r)
          = map flagSpan (filter isKnown (Meta.flagNotations (Return.meta r)))
            ++ cuts ++ markerSpans reAnnonateMarkers code.
Proof.
  intros Hrun Hkeep.
  apply twoslasher_returns in Hrun
    as ([meta0 nodes0] & log1 & meta & nodes & emitted & Hscan & Hcollect & Hemit & ->).
  pose proof (collect_flags _ _ _ _ _ _ _ _ _ _ _ _ _ Hcollect) as Hflags.
  apply collect_returns in Hcollect as (Hh & cuts & Hcuts & Hrem).
  simpl in Hflags.
  apply scan_returns in Hscan
    as (ext & flags & meta00 & _ & _ & _ & _ & _ & Hf & Hr0 & Hfold).
  assert (Hmeta0 : meta0 = fst (fold_left applyFlag flags (meta00, [])))
    by now rewrite <- Hfold.
  assert (Hrem0 : Meta.removals meta0
                  = map flagSpan (filter isKnown (Meta.flagNotations meta0))).
  { rewrite Hmeta0, fold_applyFlag_removals, fold_applyFlag_flagNotations.
    simpl. now rewrite Hr0, Hf. }
  destruct (finish_meta code emitted) as (Fh & Ff & _).
  unfold handbook in *. rewrite Fh in *. rewrite Ff.
  destruct (truthy (objGet (Meta.handbookOptions meta) (str "showEmit"))) eqn:Es.
  - (* [showEmit] and [keepNotations] together raise *)
    exfalso.
    destruct (emit_on rt backend createOptions code meta nodes log1 Es Hemit)
      as (Hk & outfile & log0 & path & _ & _ & ->).
    unfold handbook in Hk.
    cbn [fst snd Meta.handbookOptions Meta.setRemovals Meta.setExtension] in Hkeep.
    congruence.
  - rewrite emit_off in Hemit by exact Es. injection Hemit as _ <-.
    cbn [fst snd] in *. rewrite Es.
    split; [|split; [reflexivity|]].
    + unfold finish, handbook. cbn [fst snd]. rewrite Hkeep. reflexivity.
    + exists cuts. split; [exact Hcuts|].
      unfold finish, handbook. cbn [fst snd]. rewrite Hkeep. cbn.
      now rewrite Hrem, Hrem0, Hflags.
Qed.

Lemma keepNotations_keeps_code_witness :
  exists log' r,
    Sample.run Sample.noErrorsDirective [(str "keepNotations", VBool true)]
      (str "// @noErrors") = (log', Ok r)
    /\ Return.code r = str "// @noErrors"
    /\ Meta.removals (Return.meta r) = [(0, 13)].
Proof.
  eexists. eexists. split; [vm_compute; reflexivity|].
  destruct (@keepNotations_keeps_code Sample.runtime [] Sample.handbookDefaults
              Sample.noErrorsDirective Sample.noMatch Sample.noMatch Sample.noMatch
              Sample.noMatch Sample.noMatch Sample.noMatch Sample.accept
              Sample.silent Sample.createOptions (str "// @noErrors") (str "ts")
              (Sample.executeOptions [(str "keepNotations", VBool true)])
              [] _ _ ltac:(vm_compute; reflexivity) eq_refl)
    as (Hcode & _ & cuts & Hcuts & Hrem).
  split; [exact Hcode|].
  rewrite Hrem. injection Hcuts as <-. reflexivity.
Defined.

(** X19: a run that returns with [showEmit] on returns no node and no
    removal. Its code is the text of an output file the backend gave for
    the last call of the run, [getEmitOutput], and the extension of the
    result is the extension of the name of that output file. *)
Theorem showEmit_returns_output (rt : Runtime)
    (defaultCompilerOptions defaultHandbookOptions : Obj)
    (reConfigBoolean reConfigValue reAnnonateMarkers : RegExp)
    (reCutBefore reCutAfter reCutStart reCutEnd : RegExp)
    (validateCodeForErrors : list Node.t -> Obj -> jsstring -> result unit)
    (backend : Backend) (createOptions : CreateOptions.t)
    (code extension : jsstring) (options : ExecuteOptions.t)
    (log log' : Log) (r : TwoSlashReturn) :
  twoslasher rt defaultCompilerOptions defaultHandbookOptions reConfigBoolean
    reConfigValue reAnnonateMarkers reCutBefore reCutAfter reCutStart reCutEnd
    validateCodeForErrors backend createOptions code extension options log
  = (log', Ok r) ->
  truthy (handbook (Return.meta r) "showEmit") = true ->
  Return.nodes r = []
  /\ Meta.removals (Return.meta r) = []
  /\ truthy (handbook (Return.meta r) "keepNotations") = false
  /\ exists outfile log0 path,
       log' = log0 ++ [GetEmitOutput path]
       /\ In outfile (getEmitOutput backend log0 path)
       /\ Return.code r = OutputFile.text outfile
       /\ Meta.extension (Return.meta r)
          = ext_string (getExtension (OutputFile.name outfile)).
Proof.
  intros Hrun Hshow.
  apply twoslasher_returns in Hrun
    as (scanned & log1 & meta & nodes & emitted & _ & _ & Hemit & ->).
  destruct (finish_meta code emitted) as (Fh & _ & Fx).
  unfold handbook in *. rewrite Fh in *. rewrite Fx.
  destruct (truthy (objGet (Meta.handbookOptions meta) (str "showEmit"))) eqn:Es.
  - destruct (emit_on rt backend createOptions code meta nodes log1 Es Hemit)
      as (Hk & outfile & log0 & path & Hlog & Hin & ->).
    unfold handbook in Hk. cbn [fst snd] in *.
    assert (Hfin : finish code
                     (OutputFile.text outfile,
                      Meta.setRemovals
                        (Meta.setExtension meta
                           (ext_string (getExtension (OutputFile.name outfile))))
                        [],
                      [])
                   = Return.mk (OutputFile.text outfile) []
                       (Meta.setRemovals
                          (Meta.setExtension meta
                             (ext_string (getExtension (OutputFile.name outfile))))
                          [])).
    { unfold finish, handbook. cbn [fst snd].
      change (Meta.handbookOptions (Meta.setRemovals (Meta.setExtension meta _) []))
        with (Meta.handbookOptions meta).
      rewrite Hk. reflexivity. }
    rewrite Hfin. cbn. split; [reflexivity|]. split; [reflexivity|].
    split; [exact Hk|]. exists outfile, log0, path. auto.
  - rewrite emit_off in Hemit by exact Es. injection Hemit as _ <-.
    cbn [fst snd] in Hshow. congruence.
Qed.

Lemma showEmit_returns_output_witness :
  exists log' r,
    Sample.runEmit (str "let a = 1") = (log', Ok r)
    /\ Return.nodes r = []
    /\ Meta.removals (Return.meta r) = []
    /\ Return.code r = str "var a = 1".
Proof.
  eexists. eexists. split; [vm_compute; reflexivity|].
  destruct (@showEmit_returns_output Sample.runtime [] Sample.handbookDefaults
              Sample.noMatch Sample.noMatch Sample.noMatch Sample.noMatch
              Sample.noMatch Sample.noMatch Sample.noMatch Sample.accept
              Sample.emitting Sample.createOptions (str "let a = 1") (str "ts")
              (Sample.executeOptions [(str "showEmit", VBool true)])
              [] _ _ ltac:(vm_compute; reflexivity) eq_refl)
    as (Hnodes & Hrem & _ & _).
  split; [exact Hnodes|]. split; [exact Hrem|]. reflexivity.
Defined.

(** ** The getters of the result *)

Lemma typeName_cases (t : NodeType) :
  t = type_tag \/ t = type_hover \/ t = type_query \/ t = type_highlight
  \/ t = type_completion \/ t = type_error.
Proof. destruct t; auto 6. Qed.

(** X20: the six getters of the result share out its nodes: every node is
    in the list of exactly one getter, so the six lists together are a
    rearrangement of the nodes; and every getter keeps the order of the
    nodes. *)
Theorem getters_share_out_nodes (r : TwoSlashReturn) :
  Permutation (Return.nodes r)
              (Result.queries r ++ Result.completions r ++ Result.errors r
               ++ Result.highlights r ++ Result.hovers r ++ Result.tags r)
  /\ (forall n,
        In n (Return.nodes r) ->
        (if jsstring_eqb (typeName (Node.type (node n))) (str "query") then 1 else 0)
        + (if jsstring_eqb (typeName (Node.type (node n))) (str "completion") then 1 else 0)
        + (if jsstring_eqb (typeName (Node.type (node n))) (str "error") then 1 else 0)
        + (if jsstring_eqb (typeName (Node.type (node n))) (str "highlight") then 1 else 0)
        + (if jsstring_eqb (typeName (Node.type (node n))) (str "hover") then 1 else 0)
        + (if jsstring_eqb (typeName (Node.type (node n))) (str "tag") then 1 else 0)
        = 1)
  /\ (List.length (Result.queries r) + List.length (Result.completions r)
      + List.length (Result.errors r) + List.length (Result.highlights r)
      + List.length (Result.hovers r) + List.length (Result.tags r)
      = List.length (Return.nodes r))%nat.
Proof.
  unfold Result.queries, Result.completions, Result.errors, Result.highlights,
    Result.hovers, Result.tags.
  assert (Hperm : Permutation (Return.nodes r)
              (filter (fun i => jsstring_eqb (typeName (Node.type (node i))) (str "query"))
                      (Return.nodes r)
               ++ filter (fun i => jsstring_eqb (typeName (Node.type (node i))) (str "completion"))
                         (Return.nodes r)
               ++ filter (fun i => jsstring_eqb (typeName (Node.type (node i))) (str "error"))
                         (Return.nodes r)
               ++ filter (fun i => jsstring_eqb (typeName (Node.type (node i))) (str "highlight"))
                         (Return.nodes r)
               ++ filter (fun i => jsstring_eqb (typeName (Node.type (node i))) (str "hover"))
                         (Return.nodes r)
               ++ filter (fun i => jsstring_eqb (typeName (Node.type (node i))) (str "tag"))
                         (Return.nodes r))).
  { induction (Return.nodes r) as [|n l IH]; [constructor|].
    cbn [filter].
    destruct (Node.type (node n)); cbn [typeName];
      repeat match goal with
             | |- context [jsstring_eqb (str ?a) (str ?b)] =>
                 let v := eval vm_compute in (jsstring_eqb (str a) (str b)) in
                 change (jsstring_eqb (str a) (str b)) with v
             end; cbv iota.
    all: cbn [app].
    - (* tag *)
      do 4 (rewrite app_assoc). apply Permutation_cons_app.
      rewrite <- !app_assoc. exact IH.
    - (* hover *)
      do 3 (rewrite app_assoc). apply Permutation_cons_app.
      rewrite <- !app_assoc. exact IH.
    - (* query *)
      constructor. exact IH.
    - (* highlight *)
      do 2 (rewrite app_assoc). apply Permutation_cons_app.
      rewrite <- !app_assoc. exact IH.
    - (* completion *)
      apply Permutation_cons_app. exact IH.
    - (* error *)
      rewrite app_assoc. apply Permutation_cons_app.
      rewrite <- !app_assoc. exact IH. }
  split; [exact Hperm|]. split.
  - intros n _. destruct (Node.type (node n)); reflexivity.
  - apply Permutation_length in Hperm. rewrite !length_app in Hperm. lia.
Qed.

(** ** The cache of environments *)

Lemma envGet_envSet_same (m : EnvMap) (key : jsstring) (env : Env.t) :
  envGet (envSet m key env) key = Some env.
Proof.
  induction m as [|[k e] m IH]; simpl.
  - now rewrite jsstring_eqb_refl.
  - destruct (jsstring_eqb k key) eqn:E; simpl; now rewrite E.
Qed.

Lemma envGet_envSet_other (m : EnvMap) (key key' : jsstring) (env : Env.t) :
  key <> key' -> envGet (envSet m key env) key' = envGet m key'.
Proof.
  intros Hne. induction m as [|[k e] m IH]; simpl.
  - now rewrite jsstring_eqb_neq.
  - destruct (jsstring_eqb k key) eqn:E; simpl.
    + apply jsstring_eqb_eq in E. subst k. now rewrite jsstring_eqb_neq.
    + destruct (jsstring_eqb k key'); [reflexivity|exact IH].
Qed.

(** X21: the environments of an instance. With a cache, a call of
    [getEnv] leaves an environment under the hash of its compiler
    options; a later call with compiler options of the same hash gets
    that environment, creates none and leaves the cache as it is; and the
    entries under other hashes are not touched. Without a cache
    ([cache: false], as the stand-alone [twoslasher] sets it), every call
    creates an environment of its own. *)
Theorem getEnv_caches (objectHash : Obj -> jsstring) (compilerOptions : Obj)
    (instance : Instance) :
  (forall m,
     cache instance = Some m ->
     exists m',
       cache (snd (getEnv objectHash compilerOptions instance)) = Some m'
       /\ envGet m' (objectHash compilerOptions)
          = Some (fst (getEnv objectHash compilerOptions instance))
       /\ (forall key, key <> objectHash compilerOptions ->
                       envGet m' key = envGet m key)
       /\ (forall env, envGet m (objectHash compilerOptions) = Some env ->
                       getEnv objectHash compilerOptions instance = (env, instance))
       /\ forall other,
            objectHash other = objectHash compilerOptions ->
            getEnv objectHash other (snd (getEnv objectHash compilerOptions instance))
            = (fst (getEnv objectHash compilerOptions instance),
               snd (getEnv objectHash compilerOptions instance)))
  /\ (cache instance = None ->
      getEnv objectHash compilerOptions instance
      = (Env.mk compilerOptions (created instance),
         mkInstance None (S (created instance)))
      /\ forall other,
           fst (getEnv objectHash other
                  (snd (getEnv objectHash compilerOptions instance)))
           <> fst (getEnv objectHash compilerOptions instance))
  /\ cache (createTwoSlasher cache_false) = None
  /\ cache (createTwoSlasher cache_default) = Some [].
Proof.
  split; [|split; [|split; reflexivity]].
  - intros m Hm. unfold getEnv. rewrite Hm.
    destruct (envGet m (objectHash compilerOptions)) as [env|] eqn:E; simpl.
    + exists m. rewrite Hm. repeat split; auto.
      * intros env' [= <-]. reflexivity.
      * intros other ->. now rewrite E.
    + eexists. split; [reflexivity|].
      split; [apply envGet_envSet_same|].
      split; [intros key Hk; apply envGet_envSet_other; congruence|].
      split; [discriminate|].
      intros other ->. now rewrite envGet_envSet_same.
  - intros Hm. unfold getEnv. rewrite Hm. simpl. split; [reflexivity|].
    intros other H. injection H as _ H. lia.
Qed.

(** ** The file of a position *)

Lemma tiles_find (code : jsstring) (i : Z) (fs : list VirtualFile) :
  tiles code i fs ->
  forall pos,
    i <= pos <= len code -> i < len code ->
    exists f,
      find (fun f => isInRange pos (offset f, offset f + len (content f))) fs = Some f
      /\ In f fs
      /\ offset f <= pos <= offset f + len (content f)
      /\ (offset f < pos \/ pos = i).
Proof.
  induction 1 as [|i j f fs Ho Hc Hij Hj Ht IH]; intros pos Hpos Hlt; [lia|].
  assert (Hlen : len (content f) = j - i) by (rewrite Hc; apply slice_length; lia).
  cbn [find]. unfold isInRange at 1. cbn [fst snd]. rewrite Ho, Hlen.
  destruct (Z.leb_spec i pos) as [_|]; [|lia].
  destruct (Z.leb_spec pos (i + (j - i))) as [Hin|Hout]; cbn [andb].
  - exists f. split; [reflexivity|]. split; [now left|].
    rewrite Ho, Hlen. split; lia.
  - destruct (IH pos ltac:(lia) ltac:(lia)) as (g & Hg & Hing & Hb & Hs).
    exists g. split; [exact Hg|]. split; [now right|]. split; [exact Hb|].
    left. lia.
Qed.

Lemma tiles_bounds (code : jsstring) (i : Z) (fs : list VirtualFile) :
  tiles code i fs ->
  Forall (fun f => i <= offset f /\ offset f + len (content f) <= len code) fs.
Proof.
  induction 1 as [|i j f fs Ho Hc Hij Hj Ht IH]; constructor.
  - assert (Hlen : len (content f) = j - i) by (rewrite Hc; apply slice_length; lia).
    lia.
  - eapply Forall_impl; [|exact IH]. simpl. intros; lia.
Qed.

Lemma find_nothing (A : Type) (f : A -> bool) (l : list A) :
  (forall x, In x l -> f x = false) -> find f l = None.
Proof.
  induction l as [|a l IH]; intros H; simpl; [reflexivity|].
  rewrite (H a (or_introl eq_refl)). apply IH. intros x Hx. apply H. now right.
Qed.

(** X22: the file [getFileAtPosition] finds among the files of a text. For
    a position from 0 to the length of a text that is not empty it is the
    first file that holds the position between its offset and its end,
    both included; so for the position where one file ends and the next
    one starts it is the file that ends there. For a position outside
    the text there is no file. *)
Theorem getFileAtPosition_in_text (code defaultFileName root : jsstring)
    (meta : Meta.t) (pos : Z) :
  Meta.virtualFiles meta = splitFiles code defaultFileName root ->
  (0 <= pos <= len code -> code <> [] ->
   exists f,
     getFileAtPosition meta pos = Some f
     /\ In f (splitFiles code defaultFileName root)
     /\ offset f <= pos <= offset f + len (content f)
     /\ (offset f < pos \/ pos = 0))
  /\ (pos < 0 \/ len code < pos -> getFileAtPosition meta pos = None).
Proof.
  intros Hfiles. unfold getFileAtPosition. rewrite Hfiles.
  assert (Ht : tiles code 0 (splitFiles code defaultFileName root)).
  { unfold splitFiles.
    destruct (matchAll_increasing reFilenamesMakers code) as [Hinc Hall].
    apply splitLoop_tiles; [unfold len; lia|assumption|assumption]. }
  split.
  - intros Hpos Hcode. apply (tiles_find Ht); [assumption|].
    destruct code; [congruence|]. rewrite len_cons.
    pose proof (len_nonneg code). lia.
  - intros Hpos. apply find_nothing. intros f Hf.
    pose proof (tiles_bounds Ht) as Hb. rewrite Forall_forall in Hb.
    specialize (Hb f Hf). unfold isInRange. cbn [fst snd].
    destruct (Z.leb_spec (offset f) pos), (Z.leb_spec pos (offset f + len (content f)));
      simpl; try reflexivity.
    pose proof (len_nonneg (content f)). lia.
Qed.

Lemma getFileAtPosition_in_text_witness :
  (0 <= 10 <= len Sample.twoFiles -> Sample.twoFiles <> [] ->
   exists f,
     getFileAtPosition
       (Meta.mk (ext_string (str "ts")) [] [] [] []
          (splitFiles Sample.twoFiles (str "index.ts") (str "/")) [] [] []) 10
     = Some f
     /\ In f (splitFiles Sample.twoFiles (str "index.ts") (str "/"))
     /\ offset f <= 10 <= offset f + len (content f)
     /\ (offset f < 10 \/ 10 = 0))
  /\ (10 < 0 \/ len Sample.twoFiles < 10 ->
      getFileAtPosition
        (Meta.mk (ext_string (str "ts")) [] [] [] []
           (splitFiles Sample.twoFiles (str "index.ts") (str "/")) [] [] []) 10
      = None).
Proof.
  apply (@getFileAtPosition_in_text Sample.twoFiles (str "index.ts") (str "/")
           (Meta.mk (ext_string (str "ts")) [] [] [] []
              (splitFiles Sample.twoFiles (str "index.ts") (str "/")) [] [] []) 10).
  reflexivity.
Defined.

(** ** posToIndex and the end of the lines *)

Lemma posToIndexLoop_sum (ls : list jsstring) :
  forall n acc,
    (n <= List.length ls)%nat ->
    posToIndexLoop ls n acc = Ok (acc + len (List.concat (firstn n ls))).
Proof.
  induction ls as [|l ls IH]; intros [|n] acc Hn; simpl in *.
  - f_equal. unfold len. simpl. lia.
  - lia.
  - f_equal. unfold len. simpl. lia.
  - rewrite IH by lia. f_equal. rewrite len_app. lia.
Qed.

Lemma posToIndexLoop_past (ls : list jsstring) :
  forall n acc,
    (List.length ls < n)%nat -> posToIndexLoop ls n acc = Throw TypeError.
Proof.
  induction ls as [|l ls IH]; intros [|n] acc Hn; simpl in *; try lia.
  - reflexivity.
  - apply IH. lia.
Qed.

(** X23: [posToIndex(line, character)] adds to [character] the lengths of
    the first [line - 1] lines, and nothing for a line of 1 or less. It
    reads no line past the last one when [line - 1] is at most the number
    of lines; for a greater [line] it raises a [TypeError]. *)
Theorem posToIndex_within_lines (ls : list jsstring) (line character : Z) :
  (line - 1 <= Z.of_nat (List.length ls) ->
   posToIndex ls line character
   = Ok (len (List.concat (firstn (Z.to_nat (line - 1)) ls)) + character))
  /\ (line <= 1 -> posToIndex ls line character = Ok character)
  /\ (Z.of_nat (List.length ls) < line - 1 ->
      posToIndex ls line character = Throw TypeError).
Proof.
  unfold posToIndex. split; [|split].
  - intros H. rewrite posToIndexLoop_sum by lia. reflexivity.
  - intros H. replace (Z.to_nat (line - 1)) with 0%nat by lia. reflexivity.
  - intros H. rewrite posToIndexLoop_past by lia. reflexivity.
Qed.

(** ** Directives without a value *)

(** X24: a directive without a value, read by [reConfigBoolean], that is
    no custom tag and names a declared compiler option. The flag carries
    [true] for an option of kind [boolean], and also for one of kind
    [string]; it carries the number 1 for an option of kind [number]. For
    an option of kind [list] and for an enumerated option the directive
    raises a [TypeError], as there is no string to split or to look
    up. *)
Theorem directive_without_value (rt : Runtime) (defaultHandbookOptions : Obj)
    (customTags : list jsstring) (tsOptionDeclarations : list Decl.t)
    (m : RegExpMatch) (name : jsstring) (compilerDecl : Decl.t) :
  group m 1 = Some name ->
  includes name customTags = false ->
  find (fun d => jsstring_eqb (toLocaleLowerCase rt (Decl.name d))
                              (toLocaleLowerCase rt name))
       tsOptionDeclarations = Some compilerDecl ->
  let flag value :=
    Ok [Flag.mk flag_compilerOptions (Decl.name compilerDecl) value
          (Match.index m) (Match.index m + len (Match.matched m) + 1)] in
  let notation :=
    booleanNotation rt defaultHandbookOptions customTags tsOptionDeclarations m in
  (Decl.type compilerDecl = KindName (str "boolean") ->
   notation = flag (VBool true))
  /\ (Decl.type compilerDecl = KindName (str "string") ->
      notation = flag (VBool true))
  /\ (Decl.type compilerDecl = KindName (str "number") ->
      notation = flag (VNumber (NNum 1%Q)))
  /\ (Decl.type compilerDecl = KindName (str "list") ->
      notation = Throw TypeError)
  /\ (forall optMap, Decl.type compilerDecl = KindMap optMap ->
                     notation = Throw TypeError).
Proof.
  intros Hname Htag Hdecl flag notation.
  unfold notation, flag, booleanNotation, parseFlag.
  rewrite Hname, Htag, Hdecl.
  repeat split.
  - intros ->. reflexivity.
  - intros ->. reflexivity.
  - intros ->. reflexivity.
  - intros ->. simpl. now destruct (Decl.element compilerDecl).
  - intros optMap ->. reflexivity.
Qed.

Lemma directive_without_value_witness :
  let decl := Decl.mk (str "outDir") (KindName (str "string")) None in
  let m := Match.mk 0 (str "// @outdir") [Some (str "outdir")] in
  let flag value :=
    Ok [Flag.mk flag_compilerOptions (Decl.name decl) value
          (Match.index m) (Match.index m + len (Match.matched m) + 1)] in
  let notation :=
    booleanNotation Sample.runtime Sample.handbookDefaults [] [decl] m in
  (Decl.type decl = KindName (str "boolean") -> notation = flag (VBool true))
  /\ (Decl.type decl = KindName (str "string") -> notation = flag (VBool true))
  /\ (Decl.type decl = KindName (str "number") -> notation = flag (VNumber (NNum 1%Q)))
  /\ (Decl.type decl = KindName (str "list") -> notation = Throw TypeError)
  /\ (forall optMap, Decl.type decl = KindMap optMap -> notation = Throw TypeError).
Proof.
  exact (@directive_without_value Sample.runtime Sample.handbookDefaults [] 
           [Decl.mk (str "outDir") (KindName (str "string")) None]
           (Match.mk 0 (str "// @outdir") [Some (str "outdir")]) (str "outdir")
           (Decl.mk (str "outDir") (KindName (str "string")) None)
           eq_refl eq_refl eq_refl).
Defined.

(** ** Files the run passes over *)

(** X25: a file whose extension is none of [js], [jsx], [ts], [tsx] is
    passed over by the loop that asks for the diagnostics, a [json] file
    included: no call is made and no error node added. The loop that
    mounts the files passes over it as well, unless the file is a [json]
    file and [resolveJsonModule] is set; and with [noErrors: true] no
    diagnostics are asked for at all. *)
Theorem unsupported_files_are_passed_over (backend : Backend)
    (createOptions : CreateOptions.t) (code : jsstring)
    (options : ExecuteOptions.t) (meta : Meta.t) (pc : list jsstring)
    (nodes errorNodes : list Node.t) (file : VirtualFile) (log : Log) :
  (includes (extension file) supportedFileTyes = false ->
   diagnose backend createOptions meta errorNodes file log = (log, Ok errorNodes)
   /\ (extension file <> str "json"
       \/ truthy (objGet (Meta.compilerOptions meta) (str "resolveJsonModule")) = false ->
       populate backend createOptions code options meta pc nodes file log
       = (log, Ok nodes)))
  /\ (handbook meta "noErrors" = VBool true ->
      diagnose backend createOptions meta errorNodes file log = (log, Ok errorNodes)).
Proof.
  split.
  - intros Hext. split.
    + unfold diagnose. now rewrite Hext.
    + intros Hjson. unfold populate.
      destruct (jsstring_eqb (extension file) (str "json")) eqn:E.
      * apply jsstring_eqb_eq in E.
        destruct Hjson as [Hjson|Hjson]; [contradiction|].
        now rewrite Hjson.
      * now rewrite Hext.
  - intros Hno. unfold diagnose.
    destruct (negb (includes (extension file) supportedFileTyes)); [reflexivity|].
    now rewrite Hno.
Qed.

(** ** The error nodes of a file *)

Lemma find_existsb (A : Type) (f : A -> bool) (l : list A) :
  match find f l with Some _ => true | None => false end = existsb f l.
Proof.
  induction l as [|a l IH]; simpl; [reflexivity|].
  destruct (f a); [reflexivity|exact IH].
Qed.

Lemma diagnosed_reported (createOptions : CreateOptions.t) (meta : Meta.t)
    (file : VirtualFile) (errorNodes : list Node.t) (d : Diagnostic.t) :
  diagnosed createOptions meta file errorNodes d
  = errorNodes
    ++ (if reported createOptions meta file d
        then [errorNode file d (Diagnostic.start d + offset file)]
        else []).
Proof.
  unfold diagnosed, reported, handbook, isInRemoval, isInRanges, fsRoot.
  rewrite find_existsb.
  destruct (Diagnostic.fileName d) as [fileName|];
    [|now rewrite app_nil_r].
  destruct (jsstring_eqb fileName _); cbn [negb andb]; [|now rewrite app_nil_r].
  destruct (objGet (Meta.handbookOptions meta) (str "noErrors"));
    cbn [negb andb];
    try (destruct (truthy _ && existsb _ _);
         cbn [negb]; [now rewrite app_nil_r|reflexivity]).
  destruct (existsb (isNumber (Diagnostic.code d)) items);
    cbn [negb andb]; [now rewrite app_nil_r|].
  destruct (truthy _ && existsb _ _);
    cbn [negb]; [now rewrite app_nil_r|reflexivity].
Qed.

Lemma diagnosed_adds (createOptions : CreateOptions.t) (meta : Meta.t)
    (file : VirtualFile) (ds : list Diagnostic.t) :
  forall errorNodes,
    fold_left (diagnosed createOptions meta file) ds errorNodes
    = errorNodes
      ++ map (fun d => errorNode file d (Diagnostic.start d + offset file))
             (filter (reported createOptions meta file) ds).
Proof.
  induction ds as [|d ds IH]; intros errorNodes; simpl.
  - now rewrite app_nil_r.
  - rewrite IH, diagnosed_reported.
    destruct (reported createOptions meta file d); simpl.
    + now rewrite <- app_assoc.
    + now rewrite app_nil_r.
Qed.

(** X26: the step that asks for the diagnostics of one file never raises.
    For a file whose extension is not supported, or with [noErrors] set to
    [true], it asks for nothing and leaves the error nodes as they are.
    Otherwise it asks for the semantic and then the syntactic diagnostics
    of the path of the file, keeps the error nodes it has and appends, in
    the order of the diagnostics (the semantic ones first), exactly one
    error node for every diagnostic that is of that very path, whose code
    is not listed in [noErrors] and, with [noErrorsCutted], whose start is
    in no removal; the node is at the start of the diagnostic moved by the
    offset of the file. *)
Theorem diagnose_error_nodes (backend : Backend) (createOptions : CreateOptions.t)
    (meta : Meta.t) (errorNodes : list Node.t) (file : VirtualFile) (log : Log) :
  let filepath := fsRoot createOptions ++ filename file in
  let semantic := getSemanticDiagnostics backend log filepath in
  let syntactic :=
    getSyntacticDiagnostics backend (log ++ [GetSemanticDiagnostics filepath])
      filepath in
  (includes (extension file) supportedFileTyes = false
   \/ handbook meta "noErrors" = VBool true ->
   diagnose backend createOptions meta errorNodes file log = (log, Ok errorNodes))
  /\ (includes (extension file) supportedFileTyes = true ->
      handbook meta "noErrors" <> VBool true ->
      diagnose backend createOptions meta errorNodes file log
      = (log ++ [GetSemanticDiagnostics filepath; GetSyntacticDiagnostics filepath],
         Ok (errorNodes
             ++ map (fun d => errorNode file d (Diagnostic.start d + offset file))
                    (filter (reported createOptions meta file)
                            (semantic ++ syntactic)))))
  /\ (forall d,
        reported createOptions meta file d = true ->
        Diagnostic.fileName d = Some filepath
        /\ (forall items, handbook meta "noErrors" = VArray items ->
                          existsb (isNumber (Diagnostic.code d)) items = false)
        /\ (truthy (handbook meta "noErrorsCutted") = true ->
            isInRemoval meta (Diagnostic.start d + offset file) = None)).
Proof.
  intros filepath semantic syntactic.
  assert (Hasks :
            bind (call (GetSemanticDiagnostics filepath)
                    (fun log => getSemanticDiagnostics backend log filepath))
              (fun semantic =>
                 bind (call (GetSyntacticDiagnostics filepath)
                         (fun log => getSyntacticDiagnostics backend log filepath))
                   (fun syntactic =>
                      ret (fold_left (diagnosed createOptions meta file)
                             (semantic ++ syntactic) errorNodes))) log
            = (log ++ [GetSemanticDiagnostics filepath;
                       GetSyntacticDiagnostics filepath],
               Ok (errorNodes
                   ++ map (fun d => errorNode file d
                                      (Diagnostic.start d + offset file))
                          (filter (reported createOptions meta file)
                                  (semantic ++ syntactic))))).
  { unfold bind, call, ret. fold semantic. fold syntactic.
    rewrite diagnosed_adds, <- app_assoc. reflexivity. }
  split; [|split].
  - unfold diagnose. intros [Hext|Hno].
    + now rewrite Hext.
    + destruct (negb (includes (extension file) supportedFileTyes));
        [reflexivity|].
      now rewrite Hno.
  - unfold diagnose. intros Hext Hno. rewrite Hext. cbn [negb].
    fold filepath.
    destruct (handbook meta "noErrors") as [|[|]| | |]; try exact Hasks.
    now contradiction Hno.
  - intros d. unfold reported, handbook, isInRemoval, isInRanges.
    fold (fsRoot createOptions). fold filepath.
    intros Hd. apply andb_true_iff in Hd as [Hd Hcut].
    apply andb_true_iff in Hd as [Hname Hcode].
    split; [|split].
    + destruct (Diagnostic.fileName d) as [fileName|]; [|discriminate].
      apply jsstring_eqb_eq in Hname. now subst fileName.
    + intros items Hitems. rewrite Hitems in Hcode.
      now apply negb_true_iff in Hcode.
    + intros Hon. rewrite Hon in Hcut. cbn [andb] in Hcut.
      apply negb_true_iff in Hcut.
      pose proof (find_existsb (isInRange (Diagnostic.start d + offset file))
                    (Meta.removals meta)) as Hfind.
      rewrite Hcut in Hfind.
      destruct (find _ (Meta.removals meta)); [discriminate|reflexivity].
Qed.

(** ** The prefix of a completion *)

Lemma takeWhile_split (A : Type) (f : A -> bool) (l : list A) :
  exists rest,
    l = takeWhile f l ++ rest
    /\ Forall (fun c => f c = true) (takeWhile f l)
    /\ (rest = [] \/ exists c rest', rest = c :: rest' /\ f c = false).
Proof.
  induction l as [|c l (rest & El & Hall & Hrest)]; simpl.
  - exists []. repeat split; auto.
  - destruct (f c) eqn:E.
    + exists rest. split; [simpl; now rewrite <- El|]. split; [|exact Hrest].
      now constructor.
    + exists (c :: l). repeat split; [constructor|]. right. eauto.
Qed.

Lemma lastWord_suffix (s : jsstring) :
  exists before,
    s = before ++ lastWord s
    /\ Forall (fun c => isSpace c = false) (lastWord s)
    /\ (before = [] \/ exists b c, before = b ++ [c] /\ isSpace c = true).
Proof.
  unfold lastWord.
  destruct (takeWhile_split (fun c => negb (isSpace c)) (rev s))
    as (rest & Er & Hall & Hrest).
  exists (rev rest). split; [|split].
  - rewrite <- rev_app_distr, <- Er. now rewrite rev_involutive.
  - apply Forall_rev. eapply Forall_impl; [|exact Hall].
    intros c Hc. now apply negb_true_iff in Hc.
  - destruct Hrest as [->|(c & rest' & -> & Hc)]; [now left|].
    right. exists (rev rest'), c. split; [reflexivity|].
    now apply negb_false_iff in Hc.
Qed.

Lemma last_occurrence (c : N) (s : jsstring) :
  ~ In c s \/ exists stem tail, s = stem ++ c :: tail /\ ~ In c tail.
Proof.
  induction s as [|x s [IH|(stem & tail & -> & Ht)]].
  - left. intros [].
  - destruct (N.eq_dec x c) as [->|Hne].
    + right. exists [], s. auto.
    + left. intros [H|H]; [congruence|contradiction].
  - right. exists (x :: stem), tail. auto.
Qed.

Lemma last_piece_suffix (s : jsstring) :
  exists before,
    s = before ++ last (split s 46) []
    /\ ~ In 46%N (last (split s 46) [])
    /\ (before = [] \/ exists b, before = b ++ [46%N]).
Proof.
  unfold split.
  destruct (last_occurrence 46 s) as [Hfree|(stem & tail & -> & Ht)].
  - exists []. rewrite splitOn_whole by assumption. simpl. auto.
  - exists (stem ++ [46%N]).
    rewrite splitOn_last, splitOn_whole by assumption. simpl.
    split; [now rewrite <- app_assoc|]. split; [assumption|]. right. eauto.
Qed.

(** X27: the node [completionOf] adds for a completion target, when it
    adds one: a completion node at the target, of length 0. Its prefix is
    the run of code units other than white space and [.] that ends at the
    target: the text up to the target ends with the prefix, and what is
    before the prefix is empty or ends with a white space or a [.]. The
    node lists only completions whose name starts with the prefix. *)
Theorem completion_prefix (backend : Backend) (createOptions : CreateOptions.t)
    (code : jsstring) (meta : Meta.t) (file : VirtualFile) (nodes : list Node.t)
    (target : Z) (log log' : Log) (out : list Node.t) :
  completionOf backend createOptions code meta file nodes target log
  = (log', Ok out) ->
  out = nodes
  \/ exists completions prefix before,
       out = nodes ++ [Node.mk type_completion target 0
                         (CompletionInfo completions prefix)]
       /\ slice code 0 (target - 1 + 1) = before ++ prefix
       /\ Forall (fun c => isSpace c = false /\ c <> 46%N) prefix
       /\ (before = []
           \/ exists b c, before = b ++ [c] /\ (isSpace c = true \/ c = 46%N))
       /\ Forall (fun name => startsWith name prefix = true) completions.
Proof.
  unfold completionOf.
  destruct (negb (isInFile file target)); [intros [= _ <-]; now left|].
  destruct (isInRemoval meta target); [intros [= _ <-]; now left|].
  unfold bind at 1, call at 1.
  set (answer := getCompletionsAtPosition backend log _ _).
  assert (Hnode : forall log1,
             bind (ret tt)
               (fun _ =>
                  ret (nodes ++
                       [Node.mk type_completion target 0
                          (CompletionInfo
                             (filter (fun name =>
                                        startsWith name
                                          (last (split (lastWord (slice code 0 (target - 1 + 1))) 46) []))
                                     (orElse answer []))
                             (last (split (lastWord (slice code 0 (target - 1 + 1))) 46) []))]))
               log1
             = (log', Ok out) ->
             out = nodes
             \/ exists completions prefix before,
                  out = nodes ++ [Node.mk type_completion target 0
                                    (CompletionInfo completions prefix)]
                  /\ slice code 0 (target - 1 + 1) = before ++ prefix
                  /\ Forall (fun c => isSpace c = false /\ c <> 46%N) prefix
                  /\ (before = []
                      \/ exists b c,
                           before = b ++ [c] /\ (isSpace c = true \/ c = 46%N))
                  /\ Forall (fun name => startsWith name prefix = true) completions).
  { intros log1. unfold bind, ret. intros H. injection H as _ <-. right.
    destruct (lastWord_suffix (slice code 0 (target - 1 + 1)))
      as (b1 & Es & Hword & Hb1).
    destruct (last_piece_suffix (lastWord (slice code 0 (target - 1 + 1))))
      as (b2 & Ew & Hdot & Hb2).
    do 2 eexists. exists (b1 ++ b2).
    split; [reflexivity|]. split; [|split; [|split]].
    - rewrite Es at 1. rewrite Ew at 1. now rewrite app_assoc.
    - rewrite Forall_forall in *. intros c Hc. split.
      + apply Hword. rewrite Ew. apply in_or_app. now right.
      + intros ->. contradiction.
    - destruct Hb2 as [->|(b & ->)].
      + rewrite app_nil_r.
        destruct Hb1 as [->|(b & c & -> & Hc)]; [now left|].
        right. exists b, c. auto.
      + right. exists (b1 ++ b), 46%N. split; [now rewrite app_assoc|]. now right.
    - apply Forall_forall. intros name Hname.
      now apply filter_In in Hname as [_ Hname]. }
  destruct answer as [names|].
  - apply Hnode.
  - destruct (negb (truthy (handbook meta "noErrorValidation"))).
    + unfold bind, throw. discriminate.
    + apply Hnode.
Qed.

Lemma completion_prefix_witness :
  [Node.mk type_completion 7 0 (CompletionInfo [] (str "abc"))] = []
  \/ exists completions prefix before,
       [Node.mk type_completion 7 0 (CompletionInfo [] (str "abc"))]
       = [] ++ [Node.mk type_completion 7 0 (CompletionInfo completions prefix)]
       /\ slice (str "let abc = 1") 0 (7 - 1 + 1) = before ++ prefix
       /\ Forall (fun c => isSpace c = false /\ c <> 46%N) prefix
       /\ (before = []
           \/ exists b c, before = b ++ [c] /\ (isSpace c = true \/ c = 46%N))
       /\ Forall (fun name => startsWith name prefix = true) completions.
Proof.
  eapply (@completion_prefix Sample.silent Sample.createOptions (str "let abc = 1")
            (Meta.mk (ext_string (str "ts")) [] [(str "noErrorValidation", VBool true)] [] []
               [Sample.file] [] [] [])
            Sample.file [] 7 [] _ _).
  vm_compute. reflexivity.
Defined.

(** ** The nodes that are left after the removals *)

Lemma touched_touches (ranges : list Range) (m : Node.t) :
  touched ranges m = true
  <-> exists r, In r ranges /\ touches r (Node.start m) (Node.length m).
Proof.
  unfold touched, touches. rewrite existsb_exists.
  split; intros (r & Hin & Hr); exists r; split; auto.
  - apply andb_true_iff in Hr as [H1 H2].
    apply Z.ltb_lt in H1. apply Z.ltb_lt in H2. lia.
  - apply andb_true_iff. split; apply Z.ltb_lt; lia.
Qed.

Lemma untouched_moved (ranges : list Range) (nodes : list Node.t) :
  StronglySorted apart ranges -> Forall valid ranges ->
  Forall (fun r => 0 <= fst r) ranges ->
  Forall (fun m => 0 <= Node.start m /\ 0 <= Node.length m) nodes ->
  filter (fun n => Node.start n >=? 0)
         (map (fun m => Node.setStart m
                          (reconciledAll (rev ranges) (Node.start m) (Node.length m)))
              nodes)
  = map (moved ranges) (filter (fun m => negb (touched ranges m)) nodes).
Proof.
  intros Hap Hva Hst Hnodes.
  assert (Hm : Forall (fun r => 0 <= fst r <= snd r) ranges).
  { rewrite Forall_forall in *. intros r Hr.
    specialize (Hst r Hr). specialize (Hva r Hr). unfold valid in Hva. lia. }
  induction Hnodes as [|m nodes [Hs Hl] Hrest IH]; [reflexivity|].
  cbn [map filter]. rewrite IH.
  destruct (reconciledAll_apart Hap Hm (Node.start m) Hl) as [Ht Hn].
  destruct (touched ranges m) eqn:E; cbn [negb].
  - apply touched_touches in E. rewrite (Ht E). reflexivity.
  - assert (Hfree : forall r, In r ranges ->
                              ~ touches r (Node.start m) (Node.length m)).
    { intros r Hr Htouch.
      assert (touched ranges m = true) by (apply touched_touches; eauto).
      congruence. }
    rewrite (Hn Hfree).
    destruct (removedBefore_bound Hap Hva (lo := 0) (s := Node.start m) Hst Hs)
      as [Hb0 Hb1].
    cbn [Node.start Node.setStart].
    destruct (Z.geb_spec (Node.start m - removedBefore ranges (Node.start m)) 0);
      [reflexivity|lia].
Qed.

(** X28: the nodes of the result, when [keepNotations] is off and the
    removals have [0 <= start <= end]. Of the nodes the run collected,
    each with a non-negative [start] and [length], the result holds
    exactly those that no merged removal touches, and each of them moved
    down by the total length of the merged removals that end at or before
    it; a node that a merged removal touches is not in the result. *)
Theorem finish_keeps_untouched_nodes (code text : jsstring) (meta : Meta.t)
    (nodes : list Node.t) :
  truthy (handbook meta "keepNotations") = false ->
  Forall (fun r => 0 <= fst r <= snd r) (Meta.removals meta) ->
  Forall (fun m => 0 <= Node.start m /\ 0 <= Node.length m) nodes ->
  Permutation
    (map node (Return.nodes (finish code (text, meta, nodes))))
    (map (moved (mergeRanges (Meta.removals meta)))
         (filter (fun m => negb (touched (mergeRanges (Meta.removals meta)) m))
                 nodes)).
Proof.
  intros Hkeep Hv Hnodes.
  assert (Hvalid : Forall valid (Meta.removals meta))
    by (eapply Forall_impl; [|exact Hv]; unfold valid; simpl; intros; lia).
  assert (Hpos : Forall (fun r => 0 <= fst r) (Meta.removals meta))
    by (eapply Forall_impl; [|exact Hv]; simpl; intros; lia).
  destruct (mergeRanges_apart Hvalid) as [Hap Hva].
  pose proof (mergeRanges_starts Hpos) as Hst.
  assert (Hrev : JS.sort byStartDescending (mergeRanges (Meta.removals meta))
                 = rev (mergeRanges (Meta.removals meta)))
    by (apply sort_descending_rev; now apply apart_ascending).
  unfold finish, handbook in *. cbn [fst snd]. rewrite Hkeep. cbn [negb].
  cbn [Return.nodes]. unfold resolveNodePositions.
  rewrite map_map. cbn [node]. rewrite map_id.
  rewrite removeCodeRangesOf_nodes, Hrev.
  rewrite sort_perm. now rewrite (untouched_moved Hap Hva Hst Hnodes).
Qed.

Lemma finish_keeps_untouched_nodes_witness :
  Permutation
    (map node (Return.nodes
                 (finish (str "let abc = 1")
                    (str "let abc = 1", Sample.metaWithRemovals [(0, 4)],
                     [Sample.nodeAt 4 3; Sample.nodeAt 2 3]))))
    (map (moved (mergeRanges (Meta.removals (Sample.metaWithRemovals [(0, 4)]))))
         (filter (fun m =>
                    negb (touched
                            (mergeRanges (Meta.removals (Sample.metaWithRemovals [(0, 4)])))
                            m))
                 [Sample.nodeAt 4 3; Sample.nodeAt 2 3])).
Proof.
  apply (@finish_keeps_untouched_nodes (str "let abc = 1") (str "let abc = 1")
           (Sample.metaWithRemovals [(0, 4)])
           [Sample.nodeAt 4 3; Sample.nodeAt 2 3]).
  - reflexivity.
  - repeat constructor; simpl; lia.
  - repeat constructor; simpl; lia.
Defined.

(** ** The values of the behavior options *)

(** X29: the value a directive gives to a behavior option, for a name
    that is no custom tag and no compiler option. The string of [errors]
    is split at the spaces into a list of numbers; the string of
    [noErrors] becomes [true] or [false] when it is [true] or [false],
    and a list of numbers otherwise; the string of any other option is
    kept as it is; and a value that is no string, as the [true] of a
    directive without a value, is kept for every option. *)
Theorem handbook_option_values (rt : Runtime) (defaultHandbookOptions : Obj)
    (name : jsstring) (value : jsvalue) (start end_ : Z)
    (customTags : list jsstring) (tsOptionDeclarations : list Decl.t) :
  includes name customTags = false ->
  find (fun d => jsstring_eqb (toLocaleLowerCase rt (Decl.name d))
                              (toLocaleLowerCase rt name))
       tsOptionDeclarations = None ->
  includes name (objKeys defaultHandbookOptions) = true ->
  exists v,
    parseFlag rt defaultHandbookOptions name value start end_ customTags
      tsOptionDeclarations
    = Ok (Flag.mk flag_handbookOptions name v start end_)
    /\ (forall s, value = VString s -> name = str "errors" ->
                  v = VArray (map (fun x => VNumber (StringToNumber rt x))
                                  (split s 32)))
    /\ (forall s, value = VString s -> name = str "noErrors" ->
                  (s = str "true" -> v = VBool true)
                  /\ (s = str "false" -> v = VBool false)
                  /\ (s <> str "true" -> s <> str "false" ->
                      v = VArray (map (fun x => VNumber (StringToNumber rt x))
                                      (split s 32))))
    /\ (name <> str "errors" -> name <> str "noErrors" -> v = value)
    /\ ((forall s, value <> VString s) -> v = value).
Proof.
  intros Htag Hdecl Hhand. unfold parseFlag. rewrite Htag, Hdecl, Hhand.
  eexists. split; [reflexivity|].
  split; [|split; [|split]].
  - intros s -> ->. reflexivity.
  - intros s -> ->. cbn.
    split; [intros ->; reflexivity|].
    split; [intros ->; reflexivity|].
    intros Ht Hf.
    rewrite (jsstring_eqb_neq Ht), (jsstring_eqb_neq Hf). reflexivity.
  - intros He Hn. destruct value; try reflexivity.
    rewrite (jsstring_eqb_neq He), (jsstring_eqb_neq Hn). reflexivity.
  - intros Hs. destruct value; try reflexivity. exfalso. now apply (Hs s).
Qed.

Lemma handbook_option_values_witness :
  exists v,
    parseFlag Sample.runtime Sample.handbookDefaults (str "errors")
      (VString (str "2304 2307")) 0 20 [] []
    = Ok (Flag.mk flag_handbookOptions (str "errors") v 0 20)
    /\ v = VArray [VInt 2304; VInt 2307].
Proof.
  destruct (@handbook_option_values Sample.runtime Sample.handbookDefaults
              (str "errors") (VString (str "2304 2307")) 0 20 [] []
              eq_refl eq_refl eq_refl) as (v & Hflag & Herrors & _).
  exists v. split; [exact Hflag|].
  rewrite (Herrors _ eq_refl eq_refl). reflexivity.
Defined.

(** ** The round trip of the position converter *)

Lemma lineAt_prefix (s : jsstring) :
  forall m g,
    lineAt s = Some (m, g) ->
    (List.length m <= List.length s)%nat /\ (s <> [] -> m <> []).
Proof.
  induction s as [|c t IH]; intros m g; simpl.
  - intros H. injection H as <- _. split; [simpl; lia|congruence].
  - destruct (N.eqb c 10).
    + intros H. injection H as <- _. split; [simpl; lia|discriminate].
    + destruct (isLineTerminator c); [discriminate|].
      destruct (lineAt t) as [[m' g']|]; [|discriminate].
      intros H. injection H as <- _.
      destruct (IH _ _ eq_refl) as [Hlen _].
      split; [simpl; lia|discriminate].
Qed.

(** The lines of a text: lines that are not empty, and the empty string
    the regular expression matches at the end. *)
Lemma lines_end (s : jsstring) :
  forall prev idx skip,
    (skip <= List.length s)%nat ->
    exists ls,
      map Match.matched (matchAllFrom reLine prev s idx skip) = ls ++ [[]]
      /\ Forall (fun l => l <> []) ls.
Proof.
  induction s as [|c t IH]; intros prev idx skip Hskip.
  - simpl in Hskip. assert (skip = 0%nat) as -> by lia.
    exists []. split; [reflexivity|constructor].
  - destruct skip as [|k].
    + cbn [matchAllFrom].
      assert (Hre : reLine prev (c :: t)
                    = match lineAt (c :: t) with
                      | Some (m, g) => Some (m, [Some g])
                      | None => None
                      end) by reflexivity.
      rewrite Hre. clear Hre.
      destruct (lineAt (c :: t)) as [[m g]|] eqn:E.
      * destruct (lineAt_prefix _ E) as [Hlen Hne].
        destruct (IH (Some c) (idx + 1) (pred (List.length m))) as (ls & Hls & Hall).
        { simpl in Hlen. lia. }
        exists (m :: ls). cbn [map Match.matched]. rewrite Hls.
        split; [reflexivity|]. constructor; [apply Hne; discriminate|exact Hall].
      * apply IH. lia.
    + cbn [matchAllFrom]. apply IH. simpl in Hskip. lia.
Qed.

Lemma len_concat_cons (l : jsstring) (ls : list jsstring) :
  len (List.concat (l :: ls)) = len l + len (List.concat ls).
Proof. simpl. apply len_app. Qed.

Lemma indexToPosLoop_inside (ls : list jsstring) :
  forall i line0,
    ls <> [] -> i < len (List.concat ls) ->
    line (indexToPosLoop ls i line0) < line0 + Z.of_nat (List.length ls).
Proof.
  induction ls as [|lineText rest IH]; intros i line0 Hne Hi; [congruence|].
  rewrite len_concat_cons in Hi. cbn [indexToPosLoop].
  destruct (Z.ltb_spec i (len lineText)) as [Hlt|Hge].
  - cbn [line List.length]. lia.
  - assert (Hrest : rest <> []).
    { intros ->. change (len (List.concat [])) with 0 in Hi. lia. }
    specialize (IH (i - len lineText) (line0 + 1) Hrest).
    cbn [List.length]. lia.
Qed.

Lemma posToIndexLoop_length (n : nat) :
  forall (ls : list jsstring) acc y,
    posToIndexLoop ls n acc = Ok y -> (n <= List.length ls)%nat.
Proof.
  induction n as [|n IH]; intros ls acc y H; [lia|].
  destruct ls as [|lineText rest]; [discriminate|].
  simpl in H. apply IH in H. simpl. lia.
Qed.

(** From the second line on the line above is there, and the round trip
    takes its length off the offset. *)
Lemma lineAbove_exists (ls : list jsstring) (i : Z) :
  1 <= line (indexToPos ls i) ->
  exists lineAbove,
    nth_error ls (Z.to_nat (line (indexToPos ls i) - 1)) = Some lineAbove
    /\ posToIndex ls (line (indexToPos ls i)) (character (indexToPos ls i))
       = Ok (i - len lineAbove).
Proof.
  intros Hl.
  assert (Hn : (Z.to_nat (line (indexToPos ls i) - 1) < List.length ls)%nat).
  { unfold indexToPos in *.
    destruct (indexToPosLoop_inverse ls i 0 0) as (n & Hline & Hp).
    apply posToIndexLoop_length in Hp. lia. }
  apply nth_error_Some in Hn.
  destruct (nth_error ls (Z.to_nat (line (indexToPos ls i) - 1)))
    as [lineAbove|] eqn:E; [|congruence].
  exists lineAbove. split; [reflexivity|].
  now apply getIndexOfLineAbove_above.
Qed.

Lemma first_line (ls : list jsstring) (i : Z) :
  ls <> [] ->
  (i < len (hd [] ls) -> indexToPos ls i = mkPosition 0 i)
  /\ (len (hd [] ls) <= i -> 1 <= line (indexToPos ls i)).
Proof.
  destruct ls as [|first rest]; [congruence|]. intros _.
  unfold indexToPos. cbn [hd indexToPosLoop]. split; intros Hi.
  - destruct (Z.ltb_spec i (len first)); [reflexivity|lia].
  - destruct (Z.ltb_spec i (len first)); [lia|].
    destruct (indexToPosLoop_inverse rest (i - len first) (0 + 1) 0)
      as (n & Hline & _).
    lia.
Qed.

Lemma round_trip_exact (ls : list jsstring) (i : Z) :
  Forall (fun l => l <> []) ls ->
  (posToIndex (ls ++ [[]]) (line (indexToPos (ls ++ [[]]) i))
              (character (indexToPos (ls ++ [[]]) i)) = Ok i
   <-> i < len (hd [] (ls ++ [[]])) \/ len (List.concat (ls ++ [[]])) <= i)
  /\ (forall lineAbove,
        nth_error (ls ++ [[]])
                  (Z.to_nat (line (indexToPos (ls ++ [[]]) i) - 1))
        = Some lineAbove ->
        1 <= line (indexToPos (ls ++ [[]]) i) ->
        i < len (List.concat (ls ++ [[]])) -> 1 <= len lineAbove).
Proof.
  intros Hall.
  set (L := ls ++ [[]]).
  assert (HL : L <> []) by (unfold L; destruct ls; discriminate).
  assert (Hlen : List.length L = S (List.length ls))
    by (unfold L; rewrite length_app; simpl; lia).
  destruct (@first_line L i HL) as [Hfirst Hlater].
  assert (Habove : forall lineAbove,
            nth_error L (Z.to_nat (line (indexToPos L i) - 1)) = Some lineAbove ->
            1 <= line (indexToPos L i) ->
            i < len (List.concat L) -> 1 <= len lineAbove).
  { intros lineAbove Hnth Hl Hi.
    pose proof (@indexToPosLoop_inside L i 0 HL Hi) as Hin.
    change (indexToPosLoop L i 0) with (indexToPos L i) in Hin.
    assert (Hk : (Z.to_nat (line (indexToPos L i) - 1) < List.length ls)%nat)
      by lia.
    unfold L in Hnth, Hk. rewrite nth_error_app1 in Hnth by exact Hk.
    apply nth_error_In in Hnth.
    rewrite Forall_forall in Hall. specialize (Hall _ Hnth).
    destruct lineAbove; [congruence|]. rewrite len_cons.
    pose proof (len_nonneg lineAbove). lia. }
  split; [|exact Habove].
  destruct (Z.lt_ge_cases i (len (hd [] L))) as [Hlt|Hge].
  - rewrite (Hfirst Hlt). cbn [line character]. unfold posToIndex. simpl.
    split; [auto|reflexivity].
  - specialize (Hlater Hge).
    destruct (@lineAbove_exists L i Hlater) as (lineAbove & Hnth & ->).
    destruct (Z.lt_ge_cases i (len (List.concat L))) as [Hi|Hi].
    + pose proof (Habove lineAbove Hnth Hlater Hi).
      split; [intros Heq; injection Heq as Heq; lia|lia].
    + pose proof (@indexToPosLoop_past L i 0 Hi) as Hpast.
      change (indexToPosLoop L i 0) with (indexToPos L i) in Hpast.
      rewrite Hpast in Hnth. cbn [line] in Hnth.
      rewrite Hlen in Hnth.
      replace (Z.to_nat (0 + Z.of_nat (S (List.length ls)) - 1))
        with (List.length ls + 0)%nat in Hnth by lia.
      unfold L in Hnth. rewrite nth_error_app2 in Hnth by lia.
      replace (List.length ls + 0 - List.length ls)%nat with 0%nat in Hnth by lia.
      injection Hnth as <-.
      change (len []) with 0. rewrite Z.sub_0_r. split; [auto|reflexivity].
Qed.

Lemma lines_concat (code : jsstring) :
  lineFeedsOnly code = true -> List.concat (lines code) = code.
Proof.
  intros Hlf.
  destruct (@lines_from (List.length code) code (le_n _) Hlf None 0)
    as (ls & Hls & Hcat & _).
  unfold lines, matchAll. rewrite Hls, concat_app. simpl.
  now rewrite !app_nil_r.
Qed.

(** C2 (amended): [indexToPos] counts lines from 0 and [posToIndex] adds the
    lengths of the lines before [line - 1], so it takes the line counted
    from 1. With the line moved by one the two are inverse:
    [posToIndex(l + 1, c)] is [i] when [indexToPos(i)] is [(l, c)], for
    every offset [i]; [indexToPos(posToIndex(l + 1, c))] is [(l, c)] for
    every line [l] of the text and column [c] inside it; hence
    [indexToPos] of [posToIndex(l + 1, c)] of [indexToPos(i)] is
    [indexToPos(i)]. Without the move, [posToIndex(indexToPos(i))] is [i]
    on the first line, and from the second line on it is [i] less the
    length of the line above, a line that is always there. The lines are
    lines that are not empty, followed by one empty string. So
    [posToIndex(indexToPos(i))] is [i] exactly for the offsets before the
    end of the first line and for the offsets at or past the total length
    of the lines, where the line above is the empty string; for every
    other offset the line above is not empty. The total length of the
    lines is the length of the text when line feeds are its only line
    terminators. *)
Theorem posToIndex_inverse_one_based (code : jsstring) :
  (forall i,
     posToIndex (lines code) (line (indexToPos (lines code) i) + 1)
                (character (indexToPos (lines code) i)) = Ok i)
  /\ (forall p,
        validPosition (lines code) p ->
        exists i, posToIndex (lines code) (line p + 1) (character p) = Ok i
                  /\ indexToPos (lines code) i = p)
  /\ (forall i,
        exists j,
          posToIndex (lines code) (line (indexToPos (lines code) i) + 1)
                     (character (indexToPos (lines code) i)) = Ok j
          /\ indexToPos (lines code) j = indexToPos (lines code) i)
  /\ (forall i,
        line (indexToPos (lines code) i) = 0 ->
        posToIndex (lines code) (line (indexToPos (lines code) i))
                   (character (indexToPos (lines code) i)) = Ok i)
  /\ (forall i lineAbove,
        1 <= line (indexToPos (lines code) i) ->
        nth_error (lines code) (Z.to_nat (line (indexToPos (lines code) i) - 1))
        = Some lineAbove ->
        posToIndex (lines code) (line (indexToPos (lines code) i))
                   (character (indexToPos (lines code) i))
        = Ok (i - len lineAbove))
  /\ (exists ls, lines code = ls ++ [[]] /\ Forall (fun l => l <> []) ls)
  /\ (forall i,
        1 <= line (indexToPos (lines code) i) ->
        exists lineAbove,
          nth_error (lines code) (Z.to_nat (line (indexToPos (lines code) i) - 1))
          = Some lineAbove
          /\ posToIndex (lines code) (line (indexToPos (lines code) i))
                        (character (indexToPos (lines code) i))
             = Ok (i - len lineAbove)
          /\ (i < len (List.concat (lines code)) -> 1 <= len lineAbove))
  /\ (forall i,
        posToIndex (lines code) (line (indexToPos (lines code) i))
                   (character (indexToPos (lines code) i)) = Ok i
        <-> i < len (hd [] (lines code)) \/ len (List.concat (lines code)) <= i)
  /\ (lineFeedsOnly code = true -> List.concat (lines code) = code).
Proof.
  destruct (@lines_end code None 0 0%nat (Nat.le_0_l _)) as (ls & Hls & Hall).
  fold (matchAll reLine code) in Hls. fold (lines code) in Hls.
  split; [apply posToIndex_indexToPos|].
  split; [apply indexToPos_posToIndex|].
  split; [|split; [|split; [|split; [|split; [|split]]]]].
  - intros i. exists i. split; [apply posToIndex_indexToPos | reflexivity].
  - intros i H0. pose proof (posToIndex_indexToPos (lines code) i) as H.
    rewrite H0 in *. unfold posToIndex in *. simpl in *. exact H.
  - intros i lineAbove. apply getIndexOfLineAbove_above.
  - exists ls. auto.
  - intros i Hl.
    destruct (@lineAbove_exists (lines code) i Hl) as (lineAbove & Hnth & Hp).
    exists lineAbove. split; [exact Hnth|]. split; [exact Hp|].
    intros Hi. rewrite Hls in *.
    now apply (proj2 (@round_trip_exact ls i Hall) lineAbove).
  - intros i. rewrite Hls. apply (proj1 (@round_trip_exact ls i Hall)).
  - apply lines_concat.
Qed.

(** ** Directives and the returned text *)

Lemma slice_clamp (s : jsstring) (a b : Z) :
  0 <= b -> slice s a b = slice s a (Z.min b (len s)).
Proof.
  intros Hb. unfold slice, relIndex. pose proof (len_nonneg s) as Hs.
  destruct (Z.ltb_spec b 0) as [Hlt|_]; [lia|].
  destruct (Z.ltb_spec (Z.min b (len s)) 0) as [Hlt|_]; [lia|].
  now rewrite <- Z.min_assoc, Z.min_id.
Qed.

(** A stretch of the text that no merged range touches is in the erased
    text, moved down by the length removed before it. *)
Lemma erase_keeps_text (code : jsstring) (removals : list Range) (s l : Z) :
  Forall (fun r => 0 <= fst r <= snd r) removals ->
  0 <= s -> 0 <= l -> s + l <= len code ->
  (forall r, In r (mergeRanges removals) -> ~ touches r s l) ->
  0 <= s - removedBefore (mergeRanges removals) s
  /\ slice (erase removals code)
           (s - removedBefore (mergeRanges removals) s)
           (s - removedBefore (mergeRanges removals) s + l)
     = slice code s (s + l).
Proof.
  intros Hv Hs Hl Hin Hfree.
  assert (Hvalid : Forall valid removals)
    by (eapply Forall_impl; [|exact Hv]; unfold valid; simpl; intros; lia).
  assert (Hpos : Forall (fun r => 0 <= fst r) removals)
    by (eapply Forall_impl; [|exact Hv]; simpl; intros; lia).
  destruct (mergeRanges_apart Hvalid) as [Hap Hva].
  pose proof (mergeRanges_starts Hpos) as Hst.
  assert (Hm : Forall (fun r => 0 <= fst r <= snd r) (mergeRanges removals)).
  { rewrite Forall_forall in *. intros r Hr.
    specialize (Hst r Hr). specialize (Hva r Hr). unfold valid in Hva. lia. }
  set (m := mergeRanges removals) in *.
  destruct (removedBefore_bound Hap Hva (lo := 0) (s := s) Hst Hs) as [Hb0 Hb1].
  split; [lia|].
  unfold erase. rewrite (eraseFrom_ext code (m := removals) (n := m))
    by (intros x; symmetry; apply mergeRanges_covers).
  destruct (text_parts code Hs Hl Hin) as (p & w & q & Ecode & Lp & Lw).
  rewrite Ecode at 1. rewrite !eraseFrom_app.
  rewrite (eraseFrom_uncovered m w).
  2:{ intros x Hx. apply not_true_is_false. intros Hc.
      apply covered_covers in Hc as (r & Hr & Hrx).
      apply (Hfree r Hr). unfold touches. lia. }
  assert (Lerased : len (eraseFrom m p 0) = s - removedBefore m s).
  { rewrite (eraseFrom_length Hap).
    - rewrite Lp. simpl. reflexivity.
    - exact Hm.
    - rewrite Forall_forall. intros r Hr. simpl. rewrite Lp.
      pose proof (Hfree r Hr) as Hf. unfold touches in Hf. lia. }
  rewrite <- Lerased. rewrite <- Lw at 1. rewrite slice_middle.
  rewrite Ecode, <- Lp, <- Lw. now rewrite slice_middle.
Qed.

(** C3 (amended): the loop over the directives appends the source span of
    every directive classified as custom tag, compiler option or behavior
    option to the removals, in the order of the directives; the span of an
    unknown directive is not appended. After a scan that raised nothing the
    removals are the spans of the known directives, and an unknown
    directive is among the flags only when the validation is switched
    off. A run that returns, without [showEmit] and without
    [keepNotations], returns the text without exactly the offsets of these
    spans, of the cuts and of the position markers. So an unknown
    directive is erased only where one of those spans covers it: one that
    none of them, merged, touches is in the returned text as it was
    written, moved down by the length removed before it. *)
Theorem known_flags_removed (rt : Runtime)
    (defaultCompilerOptions defaultHandbookOptions : Obj)
    (reConfigBoolean reConfigValue reAnnonateMarkers : RegExp)
    (reCutBefore reCutAfter reCutStart reCutEnd : RegExp)
    (validateCodeForErrors : list Node.t -> Obj -> jsstring -> result unit)
    (backend : Backend) (createOptions : CreateOptions.t)
    (code extension : jsstring) (options : ExecuteOptions.t) :
  (forall meta nodes,
     Meta.removals (fst (applyFlags meta nodes))
     = Meta.removals meta ++ map flagSpan (filter isKnown (Meta.flagNotations meta)))
  /\ (forall meta nodes,
        scan rt defaultCompilerOptions defaultHandbookOptions reConfigBoolean
             reConfigValue createOptions code extension options = Ok (meta, nodes) ->
        Meta.removals meta = map flagSpan (filter isKnown (Meta.flagNotations meta))
        /\ (forall flag,
              In flag (Meta.flagNotations meta) -> isUnknown flag = true ->
              truthy (handbook meta "noErrorValidation") = true)
        /\ (forall log log' r,
              twoslasher rt defaultCompilerOptions defaultHandbookOptions
                reConfigBoolean reConfigValue reAnnonateMarkers reCutBefore
                reCutAfter reCutStart reCutEnd validateCodeForErrors backend
                createOptions code extension options log = (log', Ok r) ->
              truthy (handbook meta "showEmit") = false ->
              truthy (handbook meta "keepNotations") = false ->
              exists cuts,
                findCutNotations reCutBefore reCutAfter reCutStart reCutEnd code
                = Ok cuts
                /\ (Forall (fun r => 0 <= fst r <= snd r)
                      (map flagSpan (filter isKnown (Meta.flagNotations meta))
                       ++ cuts ++ markerSpans reAnnonateMarkers code) ->
                    Return.code r
                    = erase (map flagSpan (filter isKnown (Meta.flagNotations meta))
                             ++ cuts ++ markerSpans reAnnonateMarkers code) code
                    /\ (forall flag,
                          In flag (Meta.flagNotations meta) ->
                          isUnknown flag = true ->
                          0 <= Flag.start flag
                          <= Z.min (Flag.end_ flag) (len code) ->
                          (forall x,
                             In x (mergeRanges
                                     (map flagSpan
                                        (filter isKnown (Meta.flagNotations meta))
                                      ++ cuts ++ markerSpans reAnnonateMarkers code)) ->
                             ~ touches x (Flag.start flag)
                                 (Z.min (Flag.end_ flag) (len code)
                                  - Flag.start flag)) ->
                          slice (Return.code r)
                            (Flag.start flag
                             - removedBefore
                                 (mergeRanges
                                    (map flagSpan
                                       (filter isKnown (Meta.flagNotations meta))
                                     ++ cuts ++ markerSpans reAnnonateMarkers code))
                                 (Flag.start flag))
                            (Z.min (Flag.end_ flag) (len code)
                             - removedBefore
                                 (mergeRanges
                                    (map flagSpan
                                       (filter isKnown (Meta.flagNotations meta))
                                     ++ cuts ++ markerSpans reAnnonateMarkers code))
                                 (Flag.start flag))
                          = slice code (Flag.start flag) (Flag.end_ flag))))).
Proof.
  split.
  - intros meta nodes. unfold applyFlags. now rewrite fold_applyFlag_removals.
  - intros meta nodes Hscan.
    assert (Hscanned :
              Meta.removals meta = map flagSpan (filter isKnown (Meta.flagNotations meta))
              /\ (forall flag,
                    In flag (Meta.flagNotations meta) -> isUnknown flag = true ->
                    truthy (handbook meta "noErrorValidation") = true)).
    { revert Hscan. unfold scan, handbook.
      destruct (typesToExtension extension) as [ext|]; [|discriminate].
      destruct (findFlagNotations _ _ _ _ _ _ _) as [flagNotations|]; [|discriminate].
      match goal with
      | |- context [applyFlags ?m ?n] => set (applied := applyFlags m n)
      end.
      assert (Hflags : Meta.flagNotations (fst applied) = flagNotations).
      { unfold applied, applyFlags. now rewrite fold_applyFlag_flagNotations. }
      assert (Hrem : Meta.removals (fst applied)
                     = map flagSpan (filter isKnown flagNotations)).
      { unfold applied, applyFlags. now rewrite fold_applyFlag_removals. }
      destruct (negb (truthy _) && negb _) eqn:E; [discriminate|].
      intros H. injection H as H.
      assert (Hm : fst applied = meta) by (rewrite H; reflexivity).
      rewrite Hm in *. split; [now rewrite Hflags|].
      intros flag Hin Hunk. rewrite Hflags in *.
      apply andb_false_iff in E as [E|E].
      + now apply negb_false_iff in E.
      + apply negb_false_iff, Nat.eqb_eq in E.
        assert (Hf : In flag (filter isUnknown flagNotations))
          by (apply filter_In; auto).
        destruct (filter isUnknown flagNotations); [contradiction|discriminate]. }
    destruct Hscanned as [Hrem Hunknown].
    split; [exact Hrem|]. split; [exact Hunknown|].
    intros log log' r Hrun Hemit Hkeep.
    revert Hrun. unfold twoslasher, bind at 1, lift at 1. rewrite Hscan.
    unfold bind at 1.
    destruct (collect _ _ _ _ _ _ _ _ _ _ _ _ _) as [log1 [[meta' nodes']|e]] eqn:Ec;
      [|discriminate].
    apply collect_returns in Ec as (Hh & cuts & Hcuts & Hr).
    unfold handbook in *. unfold bind at 1. unfold emit, handbook. cbn [fst snd].
    rewrite Hh, Hemit. unfold ret. intros H. injection H as _ <-.
    exists cuts. split; [exact Hcuts|]. intros Hvalid.
    assert (Hcode : Return.code (finish code (code, meta', nodes'))
                    = erase (map flagSpan (filter isKnown (Meta.flagNotations meta))
                             ++ cuts ++ markerSpans reAnnonateMarkers code) code).
    { unfold finish, handbook. cbn [fst snd]. rewrite Hh, Hkeep. cbn [negb].
      cbn [Return.code]. rewrite removeCodeRangesOf_text; rewrite Hr, Hrem; auto. }
    split; [exact Hcode|].
    intros flag _ _ Hrange Hfree. rewrite Hcode.
    pose proof (Z.le_min_r (Flag.end_ flag) (len code)) as Hend.
    pose proof (Z.le_min_l (Flag.end_ flag) (len code)) as Hlast.
    set (e := Z.min (Flag.end_ flag) (len code)) in *.
    destruct (@erase_keeps_text code
                (map flagSpan (filter isKnown (Meta.flagNotations meta))
                 ++ cuts ++ markerSpans reAnnonateMarkers code)
                (Flag.start flag) (e - Flag.start flag) Hvalid)
      as [_ Htext]; [lia|lia|lia|exact Hfree|].
    match goal with
    | |- slice _ ?a ?b = _ =>
        replace b with (a + (e - Flag.start flag)) by lia
    end.
    rewrite Htext.
    replace (Flag.start flag + (e - Flag.start flag)) with e by lia.
    unfold e. symmetry. apply slice_clamp. lia.
Qed.

Lemma known_flags_removed_witness :
  (exists meta nodes,
     Sample.scanned Sample.noErrorsDirective [] (str "// @noErrors") = Ok (meta, nodes)
     /\ Meta.removals meta = [(0, 13)])
  /\ (exists log' r,
        Sample.run Sample.fooDirective [(str "noErrorValidation", VBool true)]
          (str "// @foo") = (log', Ok r)
        /\ slice (Return.code r) 0 7 = slice (str "// @foo") 0 8).
Proof.
  split.
  - eexists. eexists. split; [reflexivity|].
    match goal with
    | |- Meta.removals ?m = _ =>
        destruct (proj2 (known_flags_removed Sample.runtime [] Sample.handbookDefaults
                           Sample.noErrorsDirective Sample.noMatch Sample.noMatch
                           Sample.noMatch Sample.noMatch Sample.noMatch Sample.noMatch
                           Sample.accept Sample.silent Sample.createOptions
                           (str "// @noErrors") (str "ts") (Sample.executeOptions []))
                        m [] eq_refl) as [H _]
    end.
    rewrite H. reflexivity.
  - eexists. eexists. split; [vm_compute; reflexivity|].
    pose (flag := Flag.mk flag_unknown (str "foo") (VBool true) 0 8).
    destruct (proj2 (known_flags_removed Sample.runtime [] Sample.handbookDefaults
                       Sample.fooDirective Sample.noMatch Sample.noMatch
                       Sample.noMatch Sample.noMatch Sample.noMatch Sample.noMatch
                       Sample.accept Sample.silent Sample.createOptions
                       (str "// @foo") (str "ts")
                       (Sample.executeOptions
                          [(str "noErrorValidation", VBool true)]))
                    _ _ eq_refl) as (_ & _ & Hrun).
    destruct (Hrun [] _ _ eq_refl eq_refl eq_refl) as (cuts & Hcuts & Hcode).
    injection Hcuts as <-.
    destruct (Hcode (Forall_nil _)) as [_ Hflag].
    apply (Hflag flag (or_introl eq_refl) eq_refl).
    + vm_compute. split; discriminate.
    + intros x Hx. destruct Hx.
Defined.

